(** * cloud-billing-exporter: billing sources, directory cache and counter
      reconciliation

    A shallow embedding of the Go sources [gcp/gcp_billing.go],
    [gcp/resources_metadata.go] and [aws/aws_billing.go] (in its two
    revisions: the one with [AccountNameByID] and the later one with
    [AccountByID] and [getAccountPath]).

    Conventions of the embedding:
    - Go strings are [string]s (sequences of bytes);
    - Go maps are stdpp [gmap]s, a nil map is [None];
    - [float64] costs are exact rationals [Q]: rounding, infinities and NaN
      are outside the model, numeric results are compared with [==];
    - the object store, the directory service and the clock are inputs of
      the functions that call them;
    - the Prometheus counter vector is owned by the client library: a pass
      returns the list of [Add] calls it makes, in order;
    - a Go run-time panic (index or slice out of range) is an explicit
      outcome. *)

From Stdlib Require Import ZArith QArith Lia Lqa String Ascii List DecimalString.
From stdpp Require Import gmap strings list fin_maps.

Local Open Scope string_scope.
Local Open Scope Z_scope.
Local Open Scope list_scope.

(** ** Pieces of the Go standard library used by the sources *)

Module Go.

(** [strings.Split(s, sep)] for a one-byte separator: always at least one
    part, [Split("", "/") = [""]]. *)
Fixpoint Split_from (sep : ascii) (cur : string) (s : string) : list string :=
  match s with
  | EmptyString => [cur]
  | String c r =>
      if Ascii.eqb c sep
      then cur :: Split_from sep EmptyString r
      else Split_from sep (cur +:+ String c EmptyString) r
  end.

Definition Split (s : string) (sep : ascii) : list string :=
  Split_from sep EmptyString s.

(** [strings.Join]. *)
Fixpoint Join (parts : list string) (sep : string) : string :=
  match parts with
  | [] => EmptyString
  | [p] => p
  | p :: rest => p +:+ sep +:+ Join rest sep
  end.

(** [strings.HasPrefix]. *)
Definition HasPrefix (s p : string) : bool := String.prefix p s.

(** Decimal digits of a natural number, as [strconv] and [fmt] print
    them. *)
Definition digits (n : N) : string :=
  NilEmpty.string_of_uint (N.to_uint n).

Fixpoint zeros (n : nat) : string :=
  match n with
  | O => EmptyString
  | S k => String "0"%char (zeros k)
  end.

(** The verb [%0wd] of [fmt.Sprintf]: zero padding up to width [w], the
    sign takes one column of the width. *)
Definition fmt_0d (w : nat) (z : Z) : string :=
  let d := digits (Z.abs_N z) in
  if z <? 0
  then String "-"%char (zeros (w - 1 - String.length d) +:+ d)
  else zeros (w - String.length d) +:+ d.

Definition is_digit (c : ascii) : bool :=
  let n := nat_of_ascii c in ((48 <=? n) && (n <=? 57))%nat.

Fixpoint digits_value (acc : Z) (s : string) : option Z :=
  match s with
  | EmptyString => Some acc
  | String c r =>
      if is_digit c
      then digits_value (10 * acc + (Z.of_nat (nat_of_ascii c) - 48)) r
      else None
  end.

(** [strconv.Atoi]: an optional sign and at least one decimal digit, the
    value within the range of [int]; [None] when it returns an error. *)
Definition Atoi (s : string) : option Z :=
  let in_range (v : option Z) :=
    match v with
    | Some z => if (- 2 ^ 63 <=? z) && (z <? 2 ^ 63) then Some z else None
    | None => None
    end in
  match s with
  | EmptyString => None
  | String c r =>
      if Ascii.eqb c "-"%char
      then match r with
           | EmptyString => None
           | _ => in_range (option_map Z.opp (digits_value 0 r))
           end
      else if Ascii.eqb c "+"%char
      then match r with
           | EmptyString => None
           | _ => in_range (digits_value 0 r)
           end
      else in_range (digits_value 0 s)
  end.

(** [strconv.ParseFloat] on the plain decimal literals (an optional
    sign, digits, an optional fraction), where its result is exact up to
    rounding. The sources are parametric in [ParseFloat]; this instance
    runs them on concrete reports. *)
Definition ParseDecimal (s : string) : option Q :=
  let '(negative, body) :=
    match s with
    | String "-"%char r => (true, r)
    | String "+"%char r => (false, r)
    | _ => (false, s)
    end in
  let signed (q : Q) := if negative then Qopp q else q in
  match Split body "."%char with
  | [whole] =>
      match whole with
      | EmptyString => None
      | _ => option_map (fun z => signed (z # 1)) (digits_value 0 whole)
      end
  | [whole; fraction] =>
      match whole, fraction with
      | EmptyString, EmptyString => None
      | _, _ =>
          match digits_value 0 whole, digits_value 0 fraction with
          | Some w, Some f =>
              let scale := 10 ^ Z.of_nat (String.length fraction) in
              Some (signed (Qred ((w * scale + f) # Z.to_pos scale)))
          | _, _ => None
          end
      end
  | _ => None
  end.

Definition no_byte (c : ascii) (s : string) : bool :=
  forallb (fun b => negb (Ascii.eqb b c)) (list_ascii_of_string s).

(** What a function returns: normally, or a run-time panic. *)
Inductive outcome (A : Type) : Type :=
| Returns (a : A)
| Panics.
Arguments Returns {A} a.
Arguments Panics {A}.

End Go.

Import Go.

(** One call of [m.Add(delta)] on the counter that
    [MetricMonthlyCosts.WithLabelValues(AddLabels...)] returns, made while
    reconciling the key [AddKey] of [metricValues]. *)
Record CounterAdd := {
  AddKey : string;
  AddLabels : list string;
  AddDelta : Q
}.

(** The sum of the deltas that a list of [Add] calls applies for one key. *)
Fixpoint appliedDelta (key : string) (adds : list CounterAdd) : Q :=
  match adds with
  | [] => 0%Q
  | add :: rest =>
      if String.eqb (AddKey add) key
      then (AddDelta add + appliedDelta key rest)%Q
      else appliedDelta key rest
  end.

(** ** GCP billing source ([gcp/gcp_billing.go]) *)

Module GCP.

Definition ReportsPerMonth : nat := 32.

(** [time.Time] as far as [Date()] shows it; [time.Month] is an integer
    type with [January = 1] ... [December = 12]. *)
Record Time := { Year : Z; Month : Z; Day : Z }.

Definition January : Z := 1.
Definition December : Z := 12.

Record gcpBillingMeasurements := {
  Unit : string;
  Sum : string;
  MeasurementID : string
}.

Record gcpBillingCost := {
  Amount : string;
  Currency : string;
  CreditID : string;
  Value : Q
}.

Record gcpBillingElement := {
  ProjectName : string;
  ProjectID : string;
  ServiceName : string;
  Measurements : list gcpBillingMeasurements;
  Cost : gcpBillingCost;
  Credits : list gcpBillingCost
}.

(** [fmt.Sprintf("%s-%04d-%02d-", prefix, year, month)]. *)
Definition period_prefix (prefix : string) (year month : Z) : string :=
  prefix +:+ "-" +:+ fmt_0d 4 year +:+ "-" +:+ fmt_0d 2 month +:+ "-".

Definition filterLastTwoMonths (ReportPrefix : string) (now : Time) : list string :=
  let currentYear := Year now in
  let currentMonth := Month now in
  let lastMonth := currentMonth - 1 in
  let lastMonthsYear := currentYear in
  let '(lastMonth, lastMonthsYear) :=
    if currentMonth =? January
    then (December, currentYear - 1)
    else (lastMonth, lastMonthsYear) in
  [ period_prefix ReportPrefix currentYear currentMonth;
    period_prefix ReportPrefix lastMonthsYear lastMonth ].

(** The calendar month before [(year, month)], counted on the month
    ordinal [12 * year + (month - 1)]: the calendar's own definition,
    against which the source's case distinction is checked. *)
Definition month_ordinal (year month : Z) : Z := 12 * year + (month - 1).

Definition month_of_ordinal (n : Z) : Z * Z := (n / 12, n mod 12 + 1).

Definition preceding_month (year month : Z) : Z * Z :=
  month_of_ordinal (month_ordinal year month - 1).

Definition GetServiceName (e : gcpBillingElement) : string :=
  if negb (String.eqb (ServiceName e) "")
  then ServiceName e
  else
    match Measurements e with
    | [m] =>
        let service := MeasurementID m in
        let parts := Split service "/"%char in
        match parts with
        | _ :: p1 :: p2 :: _ =>
            if String.eqb p1 "services" then p2 else service
        | _ => service
        end
    | _ => "misc"
    end.

(** *** Report reducer *)

Section Reducer.

(** [strconv.ParseFloat(s, 64)]: [None] when it returns an error. *)
Variable ParseFloat : string -> option Q.

Definition GetValue (e : gcpBillingElement) : Q :=
  if negb (String.eqb (Amount (Cost e)) "")
  then match ParseFloat (Amount (Cost e)) with
       | Some value => value
       | None => Value (Cost e)
       end
  else Value (Cost e).

Definition add_value (v : Q) (groupElem : gcpBillingElement) : gcpBillingElement :=
  {| ProjectName := ProjectName groupElem;
     ProjectID := ProjectID groupElem;
     ServiceName := ServiceName groupElem;
     Measurements := Measurements groupElem;
     Cost := {| Amount := Amount (Cost groupElem);
                Currency := Currency (Cost groupElem);
                CreditID := CreditID (Cost groupElem);
                Value := (Value (Cost groupElem) + v)%Q |};
     Credits := Credits groupElem |}.

(** One iteration of the loop of [reduceElementsByFunc]. [keyMap] holds
    pointers into [elementsOut]: here the position of the group's
    element, which the [else] branch updates in place. *)
Definition reduce_step (fnKey : gcpBillingElement -> string)
    (acc : gmap string nat * list gcpBillingElement) (elem : gcpBillingElement)
    : gmap string nat * list gcpBillingElement :=
  let '(keyMap, elementsOut) := acc in
  let key := fnKey elem in
  match keyMap !! key with
  | None =>
      let e := {| ProjectName := ProjectName elem;
                  ProjectID := ProjectID elem;
                  ServiceName := GetServiceName elem;
                  Measurements := [];
                  Cost := {| Amount := ""; Currency := Currency (Cost elem);
                             CreditID := ""; Value := GetValue elem |};
                  Credits := [] |} in
      (<[key := List.length elementsOut]> keyMap, elementsOut ++ [e])
  | Some i => (keyMap, alter (add_value (GetValue elem)) i elementsOut)
  end.

Definition reduceElementsByFunc (elementsIn : list gcpBillingElement)
    (fnKey : gcpBillingElement -> string) : list gcpBillingElement :=
  snd (fold_left (reduce_step fnKey) elementsIn (∅, [])).

(** [fmt.Sprintf("%s-%s-%s", ...)]. *)
Definition groupByProjectIDServiceCurrency (e : gcpBillingElement) : string :=
  ProjectID e +:+ "-" +:+ GetServiceName e +:+ "-" +:+ Currency (Cost e).

Definition reduceElementsByProjectIDServiceCurrency
    (elementsIn : list gcpBillingElement) : list gcpBillingElement :=
  reduceElementsByFunc elementsIn groupByProjectIDServiceCurrency.

End Reducer.

(** *** Resource metadata ([gcp/resources_metadata.go]) *)

Record resourceMetadata := {
  id : string;
  displayName : string;
  owner : string;
  costCentre : string;
  parent : string
}.

Record resourcesMetadata := {
  metadataByProjectID : gmap string resourceMetadata;
  metadataByID : gmap string resourceMetadata;
  lastUpdate : Z
}.

Definition ingest (r : resourcesMetadata) (e : resourceMetadata) : resourcesMetadata :=
  if HasPrefix (id e) "projects/"
  then {| metadataByProjectID := <[displayName e := e]> (metadataByProjectID r);
          metadataByID := metadataByID r;
          lastUpdate := lastUpdate r |}
  else {| metadataByProjectID := metadataByProjectID r;
          metadataByID := <[id e := e]> (metadataByID r);
          lastUpdate := lastUpdate r |}.

(** [path] recurses on the parent entry with nothing that bounds the
    recursion: [fuel] is the depth the Go stack allows, [None] the walk
    that has not come back within it. *)
Fixpoint path (fuel : nat) (r : resourcesMetadata) (e : resourceMetadata)
    : option (list string) :=
  match fuel with
  | O => None
  | S fuel' =>
      if negb (String.eqb (parent e) "")
      then match metadataByID r !! parent e with
           | Some parent =>
               match path fuel' r parent with
               | Some above => Some (above ++ [displayName parent])
               | None => None
               end
           | None => Some []
           end
      else Some []
  end.

Definition projectByID (r : resourcesMetadata) (id : string) : option resourceMetadata :=
  metadataByProjectID r !! id.

(** What the resource manager answers during one [update]: whether the
    two service clients can be created, the entries that are ingested
    (projects, then folders, then organizations) and whether a page
    request fails after them. *)
Record MetadataFeed := {
  NewServiceFails : bool;
  Listed : list resourceMetadata;
  PagesFail : bool
}.

Definition Hour : Z := 3600 * 1000000000.

(** [update]: the new metadata and whether an error is returned. [now]
    and [later] are the two readings of the clock. *)
Definition update (feed : MetadataFeed) (now later : Z) (r : resourcesMetadata)
    : resourcesMetadata * bool :=
  if now <? lastUpdate r + Hour then (r, false)
  else if NewServiceFails feed then (r, true)
  else
    let r' := fold_left ingest (Listed feed) r in
    if PagesFail feed then (r', true)
    else ({| metadataByProjectID := metadataByProjectID r';
             metadataByID := metadataByID r';
             lastUpdate := later |}, false).

(** *** Report fetcher and billing source *)

#[global] Instance byte_eq_dec : EqDecision Byte.byte := Byte.byte_eq_dec.

(** A [[]byte] hash: [None] is the nil slice, which [reflect.DeepEqual]
    tells apart from an empty one. *)
Record gcpBillingReport := {
  Elements : list gcpBillingElement;
  Hash : option (list Byte.byte)
}.

Definition emptyReport : gcpBillingReport := {| Elements := []; Hash := None |}.

#[global] Instance gcpBillingReport_inhabited : Inhabited gcpBillingReport :=
  populate emptyReport.

Record GCPBilling := {
  BucketName : string;
  ReportPrefix : string;
  Reports : list gcpBillingReport;
  ReportsMonthPrefix : string;
  metricValues : gmap string Q;
  metadata : resourcesMetadata
}.

Definition NewGCPBillingBucket (bucketName reportPrefix : string) : GCPBilling :=
  {| BucketName := bucketName;
     ReportPrefix := reportPrefix;
     Reports := replicate ReportsPerMonth emptyReport;
     ReportsMonthPrefix := "";
     metricValues := ∅;
     metadata := {| metadataByProjectID := ∅; metadataByID := ∅; lastUpdate := 0 |} |}.

Definition set_Reports (g : GCPBilling) (rs : list gcpBillingReport) : GCPBilling :=
  {| BucketName := BucketName g; ReportPrefix := ReportPrefix g;
     Reports := rs; ReportsMonthPrefix := ReportsMonthPrefix g;
     metricValues := metricValues g; metadata := metadata g |}.

Definition set_metricValues (g : GCPBilling) (mv : gmap string Q) : GCPBilling :=
  {| BucketName := BucketName g; ReportPrefix := ReportPrefix g;
     Reports := Reports g; ReportsMonthPrefix := ReportsMonthPrefix g;
     metricValues := mv; metadata := metadata g |}.

Definition set_metadata (g : GCPBilling) (r : resourcesMetadata) : GCPBilling :=
  {| BucketName := BucketName g; ReportPrefix := ReportPrefix g;
     Reports := Reports g; ReportsMonthPrefix := ReportsMonthPrefix g;
     metricValues := metricValues g; metadata := r |}.

Record ObjectAttrs := {
  Name : string;
  MD5 : option (list Byte.byte)
}.

(** What [it.Next()] yields for one prefix: the objects in order and then
    either [iterator.Done] or an error. *)
Record Listing := {
  Items : list ObjectAttrs;
  ListingFails : bool
}.

(** Reading one object into [g.Reports[i].Elements]: the reader cannot be
    opened, the JSON decoder fails (and leaves [partial] in the slice it was
    decoding into), or the decoder succeeds. *)
Inductive ReadResult :=
| ReaderError
| DecodeError (partial : list gcpBillingElement)
| Decoded (elements : list gcpBillingElement).

Inductive error := ErrCreateClient | ErrListObjects.

(** The collaborators of one [OldQuery]. *)
Record Env := {
  Now : Time;
  NewClientFails : bool;
  Objects : string -> Listing;
  ReadObject : string -> list gcpBillingElement -> ReadResult;
  Feed : MetadataFeed;
  MetadataNow : Z;
  MetadataLater : Z
}.

Section Source.

Variable ParseFloat : string -> option Q.
Variable env : Env.

Definition getReportFile (g : GCPBilling) (objectAttrs : ObjectAttrs)
    : outcome GCPBilling :=
  let lengthName := String.length (Name objectAttrs) in
  if (lengthName <? 8)%nat then Returns g
  else
    match Atoi (substring (lengthName - 7) 2 (Name objectAttrs)) with
    | None => Returns g
    | Some i =>
        let i := i - 1 in
        if (0 <=? i) && (i <? Z.of_nat ReportsPerMonth) then
          let slot := Z.to_nat i in
          let report := Reports g !!! slot in
          if bool_decide (Hash report = MD5 objectAttrs) then Returns g
          else
            match ReadObject env (Name objectAttrs) (Elements report) with
            | ReaderError => Returns g
            | DecodeError partial =>
                Returns (set_Reports g
                  (<[slot := {| Elements := partial; Hash := Hash report |}]> (Reports g)))
            | Decoded elements =>
                Returns (set_Reports g
                  (<[slot := {| Elements :=
                                  reduceElementsByProjectIDServiceCurrency ParseFloat elements;
                                Hash := MD5 objectAttrs |}]> (Reports g)))
            end
        else Panics
    end.

(** The calls of [getReportFile] that one [GetReports] starts, one per
    listed object. The goroutines are run here one after the other in
    listing order. *)
Fixpoint getReportFiles (g : GCPBilling) (objects : list ObjectAttrs)
    : outcome GCPBilling :=
  match objects with
  | [] => Returns g
  | attr :: rest =>
      match getReportFile g attr with
      | Returns g' => getReportFiles g' rest
      | Panics => Panics
      end
  end.

(** The first loop of [GetReports]: the first prefix whose listing is
    not empty, with that listing; [inr] the error of a listing. *)
Fixpoint firstListing (prefixes : list string)
    : option (string * Listing) + error :=
  match prefixes with
  | [] => inl None
  | prefix :: rest =>
      let it := Objects env prefix in
      match Items it with
      | [] => if ListingFails it then inr ErrListObjects else firstListing rest
      | _ :: _ => inl (Some (prefix, it))
      end
  end.

Definition GetReports (g : GCPBilling) : outcome (option error * GCPBilling) :=
  if NewClientFails env then Returns (Some ErrCreateClient, g)
  else
    match firstListing (filterLastTwoMonths (ReportPrefix g) (Now env)) with
    | inr err => Returns (Some err, g)
    | inl None => Returns (None, g)
    | inl (Some (prefix, it)) =>
        let g :=
          if negb (String.eqb (ReportsMonthPrefix g) prefix)
          then {| BucketName := BucketName g; ReportPrefix := ReportPrefix g;
                  Reports := replicate ReportsPerMonth emptyReport;
                  ReportsMonthPrefix := prefix;
                  metricValues := metricValues g; metadata := metadata g |}
          else g in
        match getReportFiles g (Items it) with
        | Panics => Panics
        | Returns g' =>
            Returns (if ListingFails it then Some ErrListObjects else None, g')
        end
    end.

(** The label values of an element's counter: owner and path come from
    the project's metadata when it is known. *)
Definition labelsOf (fuel : nat) (r : resourcesMetadata) (elem : gcpBillingElement)
    : option (list string) :=
  let ownerPath :=
    match projectByID r (ProjectID elem) with
    | Some md =>
        match path fuel r md with
        | Some p => Some (owner md, Join p "/")
        | None => None
        end
    | None => Some ("", "")
    end in
  match ownerPath with
  | Some (owner, path) =>
      Some ["gcp"; Currency (Cost elem); ProjectID elem; GetServiceName elem; path; owner]
  | None => None
  end.

(** One iteration of the loop "write them into the metrics" of
    [OldQuery], on the state [(metricValues, Add calls so far)]. *)
Definition reconcileElem (fuel : nat) (r : resourcesMetadata)
    (st : gmap string Q * list CounterAdd) (elem : gcpBillingElement)
    : option (gmap string Q * list CounterAdd) :=
  let '(values, adds) := st in
  match labelsOf fuel r elem with
  | None => None
  | Some labels =>
      let key := groupByProjectIDServiceCurrency elem in
      let values :=
        match values !! key with
        | Some _ => values
        | None => <[groupByProjectIDServiceCurrency elem := 0%Q]> values
        end in
      let value := GetValue ParseFloat elem in
      let delta := (value - default 0%Q (values !! key))%Q in
      if Qlt_le_dec delta 0 then Some (values, adds)
      else Some (<[key := value]> values,
                 adds ++ [{| AddKey := key; AddLabels := labels; AddDelta := delta |}])
  end.

Fixpoint reconcile (fuel : nat) (r : resourcesMetadata)
    (st : gmap string Q * list CounterAdd) (elems : list gcpBillingElement)
    : option (gmap string Q * list CounterAdd) :=
  match elems with
  | [] => Some st
  | elem :: rest =>
      match reconcileElem fuel r st elem with
      | Some st' => reconcile fuel r st' rest
      | None => None
      end
  end.

(** [OldQuery]: the error returned, the [Add] calls made and the new
    state; [None] when a path walk does not come back within [fuel]. *)
Definition OldQuery (fuel : nat) (g : GCPBilling)
    : option (outcome (option error * list CounterAdd * GCPBilling)) :=
  match GetReports g with
  | Panics => Some Panics
  | Returns (Some err, g') => Some (Returns (Some err, [], g'))
  | Returns (None, g') =>
      let r := fst (update (Feed env) (MetadataNow env) (MetadataLater env) (metadata g')) in
      let elems := concat (map Elements (Reports g')) in
      let elems := reduceElementsByProjectIDServiceCurrency ParseFloat elems in
      match reconcile fuel r (metricValues g', []) elems with
      | None => None
      | Some (values, adds) =>
          Some (Returns (None, adds, set_metricValues (set_metadata g' r) values))
      end
  end.

End Source.

End GCP.

(** ** AWS billing source ([aws/aws_billing.go], the revision with
       [AccountNameByID]) *)

Module AWS.

Record awsBillingElement := {
  ProjectName : string;
  ProjectID : string;
  ServiceName : string;
  Costs : Q;
  Currency : string
}.

Record AWSBilling := {
  BucketName : string;
  Region : string;
  accountNameByIDOverride : gmap string string;
  accountNameByIDAPI : option (gmap string string);
  accountNameByIDAPILastUpdate : Z;
  rootAccountID : string;
  ReportHash : string;
  metricValues : gmap string Q
}.

(** What [csv.Reader.Read] yields before [io.EOF]: a record or an
    error. *)
Inductive CSVRead :=
| CSVRecord (record : list string)
| CSVError.

(** [record[i]] for an [int] index: [None] is the index out of range. *)
Definition index (record : list string) (i : Z) : option string :=
  if 0 <=? i then record !! Z.to_nat i else None.

(** [pos[name]]: a missing key reads as the zero value. *)
Definition posOf (pos : gmap string Z) (name : string) : Z :=
  default 0 (pos !! name).

Fixpoint setPositions (pos : gmap string Z) (i : Z) (record : list string)
    : gmap string Z :=
  match record with
  | [] => pos
  | field :: rest => setPositions (<[field := i]> pos) (i + 1) rest
  end.

Definition groupByProjectIDServiceCurrency (e : awsBillingElement) : string :=
  ProjectID e +:+ "-" +:+ ServiceName e +:+ "-" +:+ Currency e.

Definition add_costs (c : Q) (groupElem : awsBillingElement) : awsBillingElement :=
  {| ProjectName := ProjectName groupElem; ProjectID := ProjectID groupElem;
     ServiceName := ServiceName groupElem; Costs := (Costs groupElem + c)%Q;
     Currency := Currency groupElem |}.

Definition reduce_step (fnKey : awsBillingElement -> string)
    (acc : gmap string nat * list awsBillingElement) (elem : awsBillingElement)
    : gmap string nat * list awsBillingElement :=
  let '(keyMap, elementsOut) := acc in
  let key := fnKey elem in
  match keyMap !! key with
  | None =>
      let e := {| ProjectName := ProjectName elem; ProjectID := ProjectID elem;
                  ServiceName := ServiceName elem; Costs := Costs elem;
                  Currency := Currency elem |} in
      (<[key := List.length elementsOut]> keyMap, elementsOut ++ [e])
  | Some i => (keyMap, alter (add_costs (Costs elem)) i elementsOut)
  end.

Definition reduceElementsByFunc (elementsIn : list awsBillingElement)
    (fnKey : awsBillingElement -> string) : list awsBillingElement :=
  snd (fold_left (reduce_step fnKey) elementsIn (∅, [])).

(** The loop of [NewAWSBilling] over the parts of the account map string:
    a part that does not split at "=" into exactly two pieces is skipped. *)
Definition addMapping (accountMap : gmap string string) (mapping : string)
    : gmap string string :=
  match Split mapping "="%char with
  | [accountID; accountName] => <[accountID := accountName]> accountMap
  | _ => accountMap
  end.

(** [NewAWSBilling]: the API based mapping starts as the nil map, its
    last update as the zero time. *)
Definition NewAWSBilling (bucketName region rootAccountID accountMapString : string)
    : AWSBilling :=
  let accountMap := fold_left addMapping (Split accountMapString ","%char) ∅ in
  {| BucketName := bucketName;
     Region := region;
     accountNameByIDOverride := accountMap;
     accountNameByIDAPI := None;
     accountNameByIDAPILastUpdate := 0;
     rootAccountID := rootAccountID;
     ReportHash := "";
     metricValues := ∅ |}.

Section Reader.

Variable ParseFloat : string -> option Q.

(** The loop of [readCSV] on what is left of the input: [Returns None]
    is the error of the reader, [Panics] an index out of range. *)
Fixpoint readRecords (pos : gmap string Z) (elems : list awsBillingElement)
    (input : list CSVRead) : outcome (option (list awsBillingElement)) :=
  match input with
  | [] => Returns (Some elems)
  | CSVError :: _ => Returns None
  | CSVRecord record :: rest =>
      if posOf pos "RecordType" =? -1
      then readRecords (setPositions pos 0 record) elems rest
      else
        match index record (posOf pos "RecordType") with
        | None => Panics
        | Some recordType =>
            if negb (String.eqb recordType "LinkedLineItem")
            then readRecords pos elems rest
            else
              match index record (posOf pos "TotalCost") with
              | None => Panics
              | Some totalCost =>
                  match ParseFloat totalCost with
                  | None => readRecords pos elems rest
                  | Some costs =>
                      match index record (posOf pos "LinkedAccountId"),
                            index record (posOf pos "ProductCode"),
                            index record (posOf pos "CurrencyCode") with
                      | Some account, Some product, Some currency =>
                          readRecords pos
                            (elems ++ [{| ProjectName := ""; ProjectID := account;
                                          ServiceName := product; Costs := costs;
                                          Currency := currency |}]) rest
                      | _, _, _ => Panics
                      end
                  end
              end
        end
  end.

Definition readCSV (input : list CSVRead) : outcome (option (list awsBillingElement)) :=
  match readRecords {["RecordType" := -1]} [] input with
  | Returns (Some elems) =>
      Returns (Some (reduceElementsByFunc elems groupByProjectIDServiceCurrency))
  | Returns None => Returns None
  | Panics => Panics
  end.

End Reader.

Record Object := {
  Key : string;
  ETag : string
}.

Record Body := {
  Records : list CSVRead;
  CloseFails : bool
}.

Inductive error :=
| ErrListing
| ErrNoReport
| ErrDownload
| ErrParseCSV
| ErrClose.

Definition Hour : Z := 3600 * 1000000000.

(** The collaborators of one [Query]: the identity service, the bucket,
    the organizations service and the clock ([None] is a call that
    returns an error). *)
Record Env := {
  CallerAccount : option string;
  ListObjects : string -> option (list Object);
  GetObject : string -> option Body;
  ListAccounts : option (gmap string string);
  Now : Z;
  Later : Z
}.

Section Source.

Variable ParseFloat : string -> option Q.
Variable env : Env.

Definition RootAccountID (a : AWSBilling) : string :=
  if negb (String.eqb (rootAccountID a) "") then rootAccountID a
  else match CallerAccount env with
       | None => ""
       | Some account => account
       end.

Definition set_API (a : AWSBilling) (m : gmap string string) (t : Z) : AWSBilling :=
  {| BucketName := BucketName a; Region := Region a;
     accountNameByIDOverride := accountNameByIDOverride a;
     accountNameByIDAPI := Some m;
     accountNameByIDAPILastUpdate := t;
     rootAccountID := rootAccountID a; ReportHash := ReportHash a;
     metricValues := metricValues a |}.

Definition set_metricValues (a : AWSBilling) (values : gmap string Q) : AWSBilling :=
  {| BucketName := BucketName a; Region := Region a;
     accountNameByIDOverride := accountNameByIDOverride a;
     accountNameByIDAPI := accountNameByIDAPI a;
     accountNameByIDAPILastUpdate := accountNameByIDAPILastUpdate a;
     rootAccountID := rootAccountID a; ReportHash := ReportHash a;
     metricValues := values |}.

Definition set_ReportHash (a : AWSBilling) (hash : string) : AWSBilling :=
  {| BucketName := BucketName a; Region := Region a;
     accountNameByIDOverride := accountNameByIDOverride a;
     accountNameByIDAPI := accountNameByIDAPI a;
     accountNameByIDAPILastUpdate := accountNameByIDAPILastUpdate a;
     rootAccountID := rootAccountID a; ReportHash := hash;
     metricValues := metricValues a |}.

(** The refresh of the API based mapping inside [AccountNameByID]. *)
Definition refreshAPI (a : AWSBilling) : AWSBilling :=
  if match accountNameByIDAPI a with None => true | Some _ => false end
     || (accountNameByIDAPILastUpdate a <? Now env - Hour)
  then match ListAccounts env with
       | None => a
       | Some m => set_API a m (Later env)
       end
  else a.

Definition AccountNameByID (a : AWSBilling) (id : string) : string * AWSBilling :=
  match accountNameByIDOverride a !! id with
  | Some val => (val, a)
  | None =>
      let a := refreshAPI a in
      match accountNameByIDAPI a ≫= (fun m => m !! id) with
      | Some val => (val, a)
      | None => ("unknown-" +:+ id, a)
      end
  end.

(** The loop of [Query] over the listed objects: the greatest key, with
    the slice [key[len(prefix):len(key)-4]] that is taken for the debug
    log of every object. *)
Fixpoint selectObject (prefix : string) (billingObject : option Object)
    (contents : list Object) : outcome (option Object) :=
  match contents with
  | [] => Returns billingObject
  | object :: rest =>
      let key := Key object in
      if (String.length key <? String.length prefix + 4)%nat then Panics
      else
        let billingObject :=
          match billingObject with
          | None => Some object
          | Some current =>
              match String.compare key (Key current) with
              | Gt => Some object
              | _ => billingObject
              end
          end in
        selectObject prefix billingObject rest
  end.

(** One iteration of the loop over the billing elements, on the state
    [(a, Add calls so far)]. *)
Definition reconcileElem (st : AWSBilling * list CounterAdd) (elem : awsBillingElement)
    : AWSBilling * list CounterAdd :=
  let '(a, adds) := st in
  let '(projectID, a) := AccountNameByID a (ProjectID elem) in
  let labels := ["aws"; Currency elem; projectID; ServiceName elem] in
  let key := groupByProjectIDServiceCurrency elem in
  let values :=
    match metricValues a !! key with
    | Some _ => metricValues a
    | None => <[groupByProjectIDServiceCurrency elem := 0%Q]> (metricValues a)
    end in
  let value := Costs elem in
  let delta := (value - default 0%Q (values !! key))%Q in
  (set_metricValues a (<[key := value]> values),
   adds ++ [{| AddKey := key; AddLabels := labels; AddDelta := delta |}]).

Definition reconcile (st : AWSBilling * list CounterAdd)
    (elems : list awsBillingElement) : AWSBilling * list CounterAdd :=
  fold_left reconcileElem elems st.

(** [Query]: the error returned, the [Add] calls made and the new
    state. *)
Definition Query (a : AWSBilling)
    : outcome (option error * list CounterAdd * AWSBilling) :=
  let prefix := RootAccountID a +:+ "-aws-billing-csv-" in
  match ListObjects env prefix with
  | None => Returns (Some ErrListing, [], a)
  | Some contents =>
      match selectObject prefix None contents with
      | Panics => Panics
      | Returns None => Returns (Some ErrNoReport, [], a)
      | Returns (Some billingObject) =>
          if String.eqb (ReportHash a) (ETag billingObject)
          then Returns (None, [], a)
          else
            match GetObject env (Key billingObject) with
            | None => Returns (Some ErrDownload, [], a)
            | Some content =>
                match readCSV ParseFloat (Records content) with
                | Panics => Panics
                | Returns None => Returns (Some ErrParseCSV, [], a)
                | Returns (Some billingElements) =>
                    if CloseFails content then Returns (Some ErrClose, [], a)
                    else
                      let '(a', adds) := reconcile (a, []) billingElements in
                      Returns (None, adds, set_ReportHash a' (ETag billingObject))
                end
            end
      end
  end.

End Source.

End AWS.

(** ** AWS directory cache ([aws/aws_billing.go], the revision with
       [AccountByID] and [getAccountPath]) *)

Module AWSOrg.

Inductive AccountType :=
| AccountTypeProject
| AccountTypeOrganizationUnit
| AccountTypeOrganization.

Record Account := {
  ID : string;
  Name : string;
  Owner : string;
  Parent : string;
  Path : string;
  Type_ : AccountType
}.

Definition newAccount (id : string) : Account :=
  {| ID := id; Name := ""; Owner := ""; Parent := ""; Path := "";
     Type_ := AccountTypeProject |}.

Definition set_Name (ac : Account) (name : string) : Account :=
  {| ID := ID ac; Name := name; Owner := Owner ac; Parent := Parent ac;
     Path := Path ac; Type_ := Type_ ac |}.

Definition set_Owner (ac : Account) (owner : string) : Account :=
  {| ID := ID ac; Name := Name ac; Owner := owner; Parent := Parent ac;
     Path := Path ac; Type_ := Type_ ac |}.

Definition set_Parent (ac : Account) (parent : string) : Account :=
  {| ID := ID ac; Name := Name ac; Owner := Owner ac; Parent := parent;
     Path := Path ac; Type_ := Type_ ac |}.

Definition set_Path (ac : Account) (path : string) : Account :=
  {| ID := ID ac; Name := Name ac; Owner := Owner ac; Parent := Parent ac;
     Path := path; Type_ := Type_ ac |}.

Record AWSBilling := {
  OwnerTag : string;
  ProjectIDTag : string;
  accountNameByIDOverride : gmap string string;
  accountNameByIDAPI : option (gmap string Account);
  accountNameByIDAPILastUpdate : Z
}.

(** The organizations service and the clock ([None] is a call that
    returns an error). *)
Record Directory := {
  SessionFails : bool;
  Accounts : list (string * string);
  ListAccountsFails : bool;
  Tags : string -> list (string * string);
  ListParents : string -> option (list string);
  MasterAccountEmail : option string;
  OrganizationalUnit : string -> option (string * string);
  Now : Z;
  Later : Z
}.

(** How a call ends: with a value, with a Go error, or in a panic. *)
Inductive run (A : Type) : Type :=
| Value (a : A)
| Error
| Panic.
Arguments Value {A} a.
Arguments Error {A}.
Arguments Panic {A}.

Definition Hour : Z := 3600 * 1000000000.

Section Cache.

Variable dir : Directory.

(** The block "check if parent is already existing" of
    [getAccountPath] when the parent is not in [accountMap]: the new
    parent, which the caller stores under its [ID]. *)
Definition describeParent (parentID : string) : run Account :=
  if HasPrefix parentID "r-"
  then match MasterAccountEmail dir with
       | None => Error
       | Some email =>
           match Split email "@"%char with
           | _ :: domain :: _ =>
               Value {| ID := parentID; Name := domain; Owner := ""; Parent := "";
                        Path := ""; Type_ := AccountTypeOrganization |}
           | _ => Panic
           end
       end
  else if HasPrefix parentID "ou-"
  then match OrganizationalUnit dir parentID with
       | None => Error
       | Some (unitID, unitName) =>
           Value {| ID := unitID; Name := unitName; Owner := ""; Parent := "";
                    Path := ""; Type_ := AccountTypeOrganizationUnit |}
       end
  else Error.

(** The block "if no parent is known find one through API" of
    [getAccountPath]: the account with its parent and the map, or the early
    return of the call. Accounts are pointers: [home] is the key under which
    [ac] itself is stored in [accountMap] ([None] for an account not yet in
    the map), so that the assignment to [ac.Parent] is seen through the map
    as well. *)
Definition knownParent (ac : Account) (home : option string)
    (accountMap : gmap string Account)
    : Account * gmap string Account + run (list string) :=
  if String.eqb (Parent ac) ""
  then match ListParents dir (ID ac) with
       | None => inr Error
       | Some [] => inr (Value [])
       | Some [p] =>
           let ac' := set_Parent ac p in
           inl (ac', match home with
                     | Some key => <[key := ac']> accountMap
                     | None => accountMap
                     end)
       | Some _ => inr Error
       end
  else inl (ac, accountMap).

(** The block "check if parent is already existing": the parent, the key
    under which it is stored, and the map. *)
Definition findParent (ac : Account) (accountMap : gmap string Account)
    : run (Account * string * gmap string Account) :=
  match accountMap !! Parent ac with
  | Some parent => Value (parent, Parent ac, accountMap)
  | None =>
      match describeParent (Parent ac) with
      | Value parent => Value (parent, ID parent, <[ID parent := parent]> accountMap)
      | Error => Error
      | Panic => Panic
      end
  end.

(** [getAccountPath] on the account [ac], stored under [home]. The result
    carries [ac] and [accountMap] as the call leaves them. The recursion is
    not bounded by the source: [fuel] is the depth the Go stack allows. *)
Fixpoint getAccountPath (fuel : nat) (ac : Account) (home : option string)
    (accountMap : gmap string Account)
    : option (run (list string) * Account * gmap string Account) :=
  match fuel with
  | O => None
  | S fuel' =>
      match Type_ ac with
      | AccountTypeOrganization => Some (Value [], ac, accountMap)
      | _ =>
          match knownParent ac home accountMap with
          | inr early => Some (early, ac, accountMap)
          | inl (ac, accountMap) =>
              match findParent ac accountMap with
              | Error => Some (Error, ac, accountMap)
              | Panic => Some (Panic, ac, accountMap)
              | Value (parent, parentHome, accountMap) =>
                  match getAccountPath fuel' parent (Some parentHome) accountMap with
                  | None => None
                  | Some (Value result, _, accountMap) =>
                      Some (Value (result ++ [Name parent]), ac, accountMap)
                  | Some (Error, _, accountMap) => Some (Error, ac, accountMap)
                  | Some (Panic, _, accountMap) => Some (Panic, ac, accountMap)
                  end
              end
          end
      end
  end.

Section Refresh.

Variable a : AWSBilling.

Definition applyTag (ac : Account) (tag : string * string) : Account :=
  let ac := if String.eqb (fst tag) (ProjectIDTag a) then set_Name ac (snd tag) else ac in
  if String.eqb (fst tag) (OwnerTag a) then set_Owner ac (snd tag) else ac.

(** The body of the page callback of [getAccountNameByIDAPI] for one
    listed account. *)
Definition ingestAccount (fuel : nat) (accountMap : gmap string Account)
    (account : string * string) : option (run (gmap string Account)) :=
  let ac := set_Name (newAccount (fst account)) (snd account) in
  let ac := fold_left applyTag (Tags dir (fst account)) ac in
  match getAccountPath fuel ac None accountMap with
  | None => None
  | Some (Panic, _, _) => Some Panic
  | Some (Error, ac, accountMap) => Some (Value (<[ID ac := ac]> accountMap))
  | Some (Value path, ac, accountMap) =>
      let ac := set_Path ac (Join path "/") in
      Some (Value (<[ID ac := ac]> accountMap))
  end.

Fixpoint ingestAccounts (fuel : nat) (accountMap : gmap string Account)
    (accounts : list (string * string)) : option (run (gmap string Account)) :=
  match accounts with
  | [] => Some (Value accountMap)
  | account :: rest =>
      match ingestAccount fuel accountMap account with
      | Some (Value accountMap) => ingestAccounts fuel accountMap rest
      | other => other
      end
  end.

Definition getAccountNameByIDAPI (fuel : nat) : option (run (gmap string Account)) :=
  if SessionFails dir then Some Error
  else
    match ingestAccounts fuel ∅ (Accounts dir) with
    | Some (Value accountMap) =>
        if ListAccountsFails dir then Some Error else Some (Value accountMap)
    | other => other
    end.

End Refresh.

Definition set_API (a : AWSBilling) (m : gmap string Account) (t : Z) : AWSBilling :=
  {| OwnerTag := OwnerTag a; ProjectIDTag := ProjectIDTag a;
     accountNameByIDOverride := accountNameByIDOverride a;
     accountNameByIDAPI := Some m;
     accountNameByIDAPILastUpdate := t |}.

(** The block "update cache of API based mapping" of [AccountByID]. *)
Definition refreshAPI (fuel : nat) (a : AWSBilling) : option (run AWSBilling) :=
  if match accountNameByIDAPI a with None => true | Some _ => false end
     || (accountNameByIDAPILastUpdate a <? Now dir - Hour)
  then match getAccountNameByIDAPI a fuel with
       | None => None
       | Some Panic => Some Panic
       | Some Error => Some (Value a)
       | Some (Value m) => Some (Value (set_API a m (Later dir)))
       end
  else Some (Value a).

(** The rest of [AccountByID], on the cache as the update left it. The
    cached accounts are pointers: naming a cached account after its
    override changes the cache entry too. *)
Definition lookupAccount (a : AWSBilling) (id : string) : Account * AWSBilling :=
  let account := accountNameByIDAPI a ≫= (fun m => m !! id) in
  match accountNameByIDOverride a !! id with
  | Some val =>
      match account, accountNameByIDAPI a with
      | Some account, Some m =>
          let account := set_Name account val in
          (account,
           {| OwnerTag := OwnerTag a; ProjectIDTag := ProjectIDTag a;
              accountNameByIDOverride := accountNameByIDOverride a;
              accountNameByIDAPI := Some (<[id := account]> m);
              accountNameByIDAPILastUpdate := accountNameByIDAPILastUpdate a |})
      | _, _ => (set_Name (newAccount id) val, a)
      end
  | None =>
      match account with
      | Some account => (account, a)
      | None => (set_Name (newAccount id) ("unknown-" +:+ id), a)
      end
  end.

Definition AccountByID (fuel : nat) (a : AWSBilling) (id : string)
    : option (run (Account * AWSBilling)) :=
  match refreshAPI fuel a with
  | None => None
  | Some Panic => Some Panic
  | Some Error => Some Error
  | Some (Value a) => Some (Value (lookupAccount a id))
  end.

End Cache.

End AWSOrg.

(** * Vocabulary of the properties *)

(** The two characters of an object name in which [getReportFile] reads the
    sequence number. *)
Definition sequenceChars (name : string) : string :=
  substring (String.length name - 7) 2 name.

(** A report key that fails to parse: the name is too short to hold a
    sequence number, or the characters are not an integer. *)
Definition reportKeyFails (o : GCP.ObjectAttrs) : bool :=
  (String.length (GCP.Name o) <? 8)%nat
  || match Atoi (sequenceChars (GCP.Name o)) with
     | None => true
     | Some _ => false
     end.

(** The error with which [GetReports] ends the listing [it]. *)
Definition listingError (it : GCP.Listing) : option GCP.error :=
  if GCP.ListingFails it then Some GCP.ErrListObjects else None.

(** The last-observed cumulative value of a key; a missing key reads as 0. *)
Definition lastValue (values : gmap string Q) (key : string) : Q :=
  default 0%Q (values !! key).

(** [metricValues] after the block [if _, ok := metricValues[key]; !ok]. *)
Definition withKey (values : gmap string Q) (key : string) : gmap string Q :=
  match values !! key with
  | Some _ => values
  | None => <[key := 0%Q]> values
  end.

(** The values that begin at [prev] never decrease. *)
Fixpoint nondecreasing (prev : Q) (values : list Q) : Prop :=
  match values with
  | [] => True
  | v :: rest => (prev <= v)%Q /\ nondecreasing v rest
  end.

(** A sequence of reconciliation passes of the GCP source, each with the
    metadata it labels with and its reduced elements; the [Add] calls of all
    passes are collected in order. *)
Fixpoint gcpPasses (ParseFloat : string -> option Q) (fuel : nat)
    (st : gmap string Q * list CounterAdd)
    (passes : list (GCP.resourcesMetadata * list GCP.gcpBillingElement))
    : option (gmap string Q * list CounterAdd) :=
  match passes with
  | [] => Some st
  | (r, elems) :: rest =>
      match GCP.reconcile ParseFloat fuel r st elems with
      | Some st' => gcpPasses ParseFloat fuel st' rest
      | None => None
      end
  end.

(** The cumulative values that a list of elements presents for one key. *)
Definition gcpPresentedIn (ParseFloat : string -> option Q) (key : string)
    (elems : list GCP.gcpBillingElement) : list Q :=
  map (GCP.GetValue ParseFloat)
    (List.filter (fun e => String.eqb (GCP.groupByProjectIDServiceCurrency e) key) elems).

Definition gcpPresented (ParseFloat : string -> option Q) (key : string)
    (passes : list (GCP.resourcesMetadata * list GCP.gcpBillingElement)) : list Q :=
  concat (map (fun pass => gcpPresentedIn ParseFloat key (snd pass)) passes).

(** The same for the AWS source: each pass with its collaborators and its
    reduced elements. *)
Fixpoint awsPasses (st : AWS.AWSBilling * list CounterAdd)
    (passes : list (AWS.Env * list AWS.awsBillingElement))
    : AWS.AWSBilling * list CounterAdd :=
  match passes with
  | [] => st
  | (env, elems) :: rest => awsPasses (AWS.reconcile env st elems) rest
  end.

Definition awsPresentedIn (key : string) (elems : list AWS.awsBillingElement) : list Q :=
  map AWS.Costs
    (List.filter (fun e => String.eqb (AWS.groupByProjectIDServiceCurrency e) key) elems).

Definition awsPresented (key : string)
    (passes : list (AWS.Env * list AWS.awsBillingElement)) : list Q :=
  concat (map (fun pass => awsPresentedIn key (snd pass)) passes).

(** How one stretch of a run relates to the key [k]: the deltas applied for
    [k] add up to the change of its last-observed value, which ends at the
    last value presented. *)
Definition telescopes (k : string) (before after : gmap string Q)
    (adds adds' : list CounterAdd) (presented : list Q) : Prop :=
  (appliedDelta k adds' == appliedDelta k adds + (lastValue after k - lastValue before k))%Q
  /\ lastValue after k = List.last presented (lastValue before k).

(** Parent links of the organization without a cycle, for a measure [rank]
    on identifiers: an account whose parent is known has it at a lower rank,
    and every account of a map is stored under its own identifier. *)
Definition acyclicAccount (rank : string -> nat) (ac : AWSOrg.Account) : Prop :=
  AWSOrg.Parent ac = EmptyString \/ (rank (AWSOrg.Parent ac) < rank (AWSOrg.ID ac))%nat.

Definition acyclicMap (rank : string -> nat) (m : gmap string AWSOrg.Account) : Prop :=
  forall k ac, m !! k = Some ac -> AWSOrg.ID ac = k /\ acyclicAccount rank ac.

(** The directory service reports no cycle: a parent has a lower rank than
    its child, and describing a unit returns the unit asked for. *)
Definition acyclicDirectory (rank : string -> nat) (dir : AWSOrg.Directory) : Prop :=
  (forall child p, AWSOrg.ListParents dir child = Some [p] -> (rank p < rank child)%nat)
  /\ (forall p unitID unitName,
        AWSOrg.OrganizationalUnit dir p = Some (unitID, unitName) -> unitID = p).

(** How a call of [getAccountPath] on [ac] with the map [m] ends when the
    parent links have no cycle: it returns, keeps the map without a cycle and
    removes no account from it. *)
Definition walked (rank : string -> nat) (ac : AWSOrg.Account) (m : gmap string AWSOrg.Account)
    (out : option (AWSOrg.run (list string) * AWSOrg.Account * gmap string AWSOrg.Account)) : Prop :=
  exists res ac' m',
    out = Some (res, ac', m')
    /\ acyclicMap rank m' /\ acyclicAccount rank ac' /\ AWSOrg.ID ac' = AWSOrg.ID ac
    /\ (forall k, is_Some (m !! k) -> is_Some (m' !! k)).

(** What one listed account leaves behind: a map, never an error of the
    refresh. *)
Definition ingested (rank : string -> nat) (id : string) (m : gmap string AWSOrg.Account)
    (out : option (AWSOrg.run (gmap string AWSOrg.Account))) : Prop :=
  out = Some AWSOrg.Panic
  \/ exists m', out = Some (AWSOrg.Value m')
                /\ acyclicMap rank m' /\ is_Some (m' !! id)
                /\ (forall k, is_Some (m !! k) -> is_Some (m' !! k)).

(** * Example data *)

Module Examples.

Definition measurement (measurementID : string) : GCP.gcpBillingMeasurements :=
  {| GCP.Unit := "seconds"; GCP.Sum := "3600"; GCP.MeasurementID := measurementID |}.

(** A billing element with no service name and the given measurements. *)
Definition measured (ms : list GCP.gcpBillingMeasurements) : GCP.gcpBillingElement :=
  {| GCP.ProjectName := "demo"; GCP.ProjectID := "demo-1"; GCP.ServiceName := EmptyString;
     GCP.Measurements := ms;
     GCP.Cost := {| GCP.Amount := "1.5"; GCP.Currency := "USD";
                    GCP.CreditID := EmptyString; GCP.Value := 0 |};
     GCP.Credits := [] |}.

(** A cost and usage report with one linked line item. *)
Definition awsReport (cost : string) : AWS.Body :=
  {| AWS.Records :=
       [ AWS.CSVRecord ["RecordType"; "LinkedAccountId"; "ProductCode"; "TotalCost"; "CurrencyCode"];
         AWS.CSVRecord ["LinkedLineItem"; "1234"; "S3"; cost; "USD"] ];
     AWS.CloseFails := false |}.

(** A bucket with one report of the given hash and cost; the organizations
    service cannot be reached. *)
Definition awsEnv (etag cost : string) : AWS.Env :=
  {| AWS.CallerAccount := None;
     AWS.ListObjects := fun _ => Some [{| AWS.Key := "999-aws-billing-csv-2017-01.csv";
                                          AWS.ETag := etag |}];
     AWS.GetObject := fun _ => Some (awsReport cost);
     AWS.ListAccounts := None;
     AWS.Now := 0;
     AWS.Later := 0 |}.

Definition awsSource (hash : string) (values : gmap string Q) : AWS.AWSBilling :=
  {| AWS.BucketName := "billing"; AWS.Region := "eu-west-1";
     AWS.accountNameByIDOverride := ∅;
     AWS.accountNameByIDAPI := None;
     AWS.accountNameByIDAPILastUpdate := 0;
     AWS.rootAccountID := "999";
     AWS.ReportHash := hash;
     AWS.metricValues := values |}.

(** A reduced GCP element of project "demo-1" and service "storage". *)
Definition gcpCost (value : Q) : GCP.gcpBillingElement :=
  {| GCP.ProjectName := "demo"; GCP.ProjectID := "demo-1"; GCP.ServiceName := "storage";
     GCP.Measurements := [];
     GCP.Cost := {| GCP.Amount := EmptyString; GCP.Currency := "USD";
                    GCP.CreditID := EmptyString; GCP.Value := value |};
     GCP.Credits := [] |}.

Definition noMetadata : GCP.resourcesMetadata :=
  {| GCP.metadataByProjectID := ∅; GCP.metadataByID := ∅; GCP.lastUpdate := 0 |}.

(** Three passes over a report whose cost for the key grows. *)
Definition growingPasses : list (GCP.resourcesMetadata * list GCP.gcpBillingElement) :=
  [ (noMetadata, [gcpCost 10]); (noMetadata, [gcpCost 25]); (noMetadata, [gcpCost 40]) ].

(** A bucket whose report cannot be read to the end. *)
Definition awsBrokenEnv : AWS.Env :=
  {| AWS.CallerAccount := None;
     AWS.ListObjects := fun _ => Some [{| AWS.Key := "999-aws-billing-csv-2017-02.csv";
                                          AWS.ETag := "etag-3" |}];
     AWS.GetObject := fun _ =>
       Some {| AWS.Records := AWS.Records (awsReport "120") ++ [AWS.CSVError];
               AWS.CloseFails := false |};
     AWS.ListAccounts := None;
     AWS.Now := 0;
     AWS.Later := 0 |}.

Definition gcpObject (name : string) (md5 : list Byte.byte) : GCP.ObjectAttrs :=
  {| GCP.Name := name; GCP.MD5 := Some md5 |}.

(** A bucket with the given objects under the prefix of January 2017, each
    of which decodes to one compute-engine element; the resource manager
    lists nothing. *)
Definition gcpEnv (objects : list GCP.ObjectAttrs) : GCP.Env :=
  {| GCP.Now := {| GCP.Year := 2017; GCP.Month := 1; GCP.Day := 2 |};
     GCP.NewClientFails := false;
     GCP.Objects := fun prefix =>
       if String.eqb prefix "prefix-2017-01-"
       then {| GCP.Items := objects; GCP.ListingFails := false |}
       else {| GCP.Items := []; GCP.ListingFails := false |};
     GCP.ReadObject := fun _ _ =>
       GCP.Decoded [measured [measurement "com.google.cloud/services/compute-engine/Vm"]];
     GCP.Feed := {| GCP.NewServiceFails := false; GCP.Listed := []; GCP.PagesFail := false |};
     GCP.MetadataNow := 0;
     GCP.MetadataLater := 0 |}.

Definition gcpSource : GCP.GCPBilling := GCP.NewGCPBillingBucket "billing" "prefix".

(** An AWS source with the override 111 = acme-dev whose cached directory
    mapping, still fresh, names the account legacy-name. *)
Definition awsOverridden : AWS.AWSBilling :=
  {| AWS.BucketName := "billing"; AWS.Region := "eu-west-1";
     AWS.accountNameByIDOverride := {["111" := "acme-dev"]};
     AWS.accountNameByIDAPI := Some {["111" := "legacy-name"]};
     AWS.accountNameByIDAPILastUpdate := 0;
     AWS.rootAccountID := "999";
     AWS.ReportHash := EmptyString;
     AWS.metricValues := ∅ |}.

(** An organization with the account 111 (legacy-name) in the unit ou-dev
    under the root r-abcd. *)
Definition organization : AWSOrg.Directory :=
  {| AWSOrg.SessionFails := false;
     AWSOrg.Accounts := [("111", "legacy-name")];
     AWSOrg.ListAccountsFails := false;
     AWSOrg.Tags := fun _ => [("owner", "team-a")];
     AWSOrg.ListParents := fun child =>
       if String.eqb child "111" then Some ["ou-dev"]
       else if String.eqb child "ou-dev" then Some ["r-abcd"]
       else Some [];
     AWSOrg.MasterAccountEmail := Some "root@example.com";
     AWSOrg.OrganizationalUnit := fun unit => Some (unit, "development");
     AWSOrg.Now := 7200 * 1000000000;
     AWSOrg.Later := 7200 * 1000000000 |}.

Definition orgSource (override : gmap string string) : AWSOrg.AWSBilling :=
  {| AWSOrg.OwnerTag := "owner"; AWSOrg.ProjectIDTag := "project";
     AWSOrg.accountNameByIDOverride := override;
     AWSOrg.accountNameByIDAPI := None;
     AWSOrg.accountNameByIDAPILastUpdate := 0 |}.

Definition folder (id name parent : string) : GCP.resourceMetadata :=
  {| GCP.id := id; GCP.displayName := name; GCP.owner := EmptyString;
     GCP.costCentre := EmptyString; GCP.parent := parent |}.

(** Metadata as [ingest] builds it from a project in folder 1, where the
    resource manager reports folder 1 inside folder 2 and folder 2 inside
    folder 1. *)
Definition cyclicMetadata : GCP.resourcesMetadata :=
  fold_left GCP.ingest
    [ folder "projects/42" "demo-1" "folders/1";
      folder "folders/1" "team" "folders/2";
      folder "folders/2" "department" "folders/1" ]
    noMetadata.

(** The same project with folder 2 inside an organization. *)
Definition treeMetadata : GCP.resourcesMetadata :=
  fold_left GCP.ingest
    [ folder "projects/42" "demo-1" "folders/1";
      folder "folders/1" "team" "folders/2";
      folder "folders/2" "department" "organizations/7";
      folder "organizations/7" "example.com" EmptyString ]
    noMetadata.

(** An organization whose units ou-a and ou-b are reported inside each
    other. *)
Definition cyclicOrganization : AWSOrg.Directory :=
  {| AWSOrg.SessionFails := false;
     AWSOrg.Accounts := [("111", "legacy-name")];
     AWSOrg.ListAccountsFails := false;
     AWSOrg.Tags := fun _ => [];
     AWSOrg.ListParents := fun child =>
       if String.eqb child "111" then Some ["ou-a"]
       else if String.eqb child "ou-a" then Some ["ou-b"]
       else if String.eqb child "ou-b" then Some ["ou-a"]
       else Some [];
     AWSOrg.MasterAccountEmail := Some "root@example.com";
     AWSOrg.OrganizationalUnit := fun unit => Some (unit, "unit");
     AWSOrg.Now := 7200 * 1000000000;
     AWSOrg.Later := 7200 * 1000000000 |}.

(** The two units of [cyclicOrganization] as the walk leaves them in the
    account map. *)
Definition unitA : AWSOrg.Account :=
  {| AWSOrg.ID := "ou-a"; AWSOrg.Name := "unit"; AWSOrg.Owner := EmptyString;
     AWSOrg.Parent := "ou-b"; AWSOrg.Path := EmptyString;
     AWSOrg.Type_ := AWSOrg.AccountTypeOrganizationUnit |}.

Definition unitB : AWSOrg.Account :=
  {| AWSOrg.ID := "ou-b"; AWSOrg.Name := "unit"; AWSOrg.Owner := EmptyString;
     AWSOrg.Parent := "ou-a"; AWSOrg.Path := EmptyString;
     AWSOrg.Type_ := AWSOrg.AccountTypeOrganizationUnit |}.

(** An organization in which the parents of account 111 cannot be listed,
    while account 222 sits in the unit ou-dev under the root. *)
Definition partlyBrokenOrganization : AWSOrg.Directory :=
  {| AWSOrg.SessionFails := false;
     AWSOrg.Accounts := [("111", "legacy-name"); ("222", "shop")];
     AWSOrg.ListAccountsFails := false;
     AWSOrg.Tags := fun _ => [];
     AWSOrg.ListParents := fun child =>
       if String.eqb child "111" then None
       else if String.eqb child "222" then Some ["ou-dev"]
       else if String.eqb child "ou-dev" then Some ["r-abcd"]
       else Some [];
     AWSOrg.MasterAccountEmail := Some "root@example.com";
     AWSOrg.OrganizationalUnit := fun unit => Some (unit, "development");
     AWSOrg.Now := 7200 * 1000000000;
     AWSOrg.Later := 7200 * 1000000000 |}.

(** A measure for [treeMetadata] and for [organization]: the distance from
    the root. *)
Definition depth (id : string) : nat :=
  if String.eqb id "folders/1" then 2
  else if String.eqb id "folders/2" then 1
  else if String.eqb id "111" then 2
  else if String.eqb id "ou-dev" then 1
  else 0.

End Examples.

(** * Vocabulary of the further properties *)

(** The keys of a list in the order in which they are first seen. *)
Definition firstSeen (keys : list string) : list string :=
  reverse (remove_dups (reverse keys)).

(** The group that a reducer forms for one key: the new element of the first
    item with that key, to which the later items with that key are added in
    order; [None] when no item has the key. *)
Definition groupOf {E : Type} (key : E -> string) (mk : E -> E) (add : E -> E -> E)
    (k : string) (items : list E) : option E :=
  match List.filter (fun x => String.eqb (key x) k) items with
  | [] => None
  | x :: rest => Some (fold_left add rest (mk x))
  end.

(** The new element and the accumulation of [reduceElementsByFunc] of the
    GCP source. *)
Definition gcpNewGroup (ParseFloat : string -> option Q) (elem : GCP.gcpBillingElement)
    : GCP.gcpBillingElement :=
  {| GCP.ProjectName := GCP.ProjectName elem;
     GCP.ProjectID := GCP.ProjectID elem;
     GCP.ServiceName := GCP.GetServiceName elem;
     GCP.Measurements := [];
     GCP.Cost := {| GCP.Amount := EmptyString; GCP.Currency := GCP.Currency (GCP.Cost elem);
                    GCP.CreditID := EmptyString; GCP.Value := GCP.GetValue ParseFloat elem |};
     GCP.Credits := [] |}.

Definition gcpAddTo (ParseFloat : string -> option Q)
    (groupElem elem : GCP.gcpBillingElement) : GCP.gcpBillingElement :=
  GCP.add_value (GCP.GetValue ParseFloat elem) groupElem.

(** The same for the AWS source. *)
Definition awsNewGroup (elem : AWS.awsBillingElement) : AWS.awsBillingElement :=
  {| AWS.ProjectName := AWS.ProjectName elem; AWS.ProjectID := AWS.ProjectID elem;
     AWS.ServiceName := AWS.ServiceName elem; AWS.Costs := AWS.Costs elem;
     AWS.Currency := AWS.Currency elem |}.

Definition awsAddTo (groupElem elem : AWS.awsBillingElement) : AWS.awsBillingElement :=
  AWS.add_costs (AWS.Costs elem) groupElem.

(** The sum of a list of costs. *)
Definition total (values : list Q) : Q := fold_right Qplus 0%Q values.

(** The state [(keyMap, elementsOut)] of the loop of a reducer after the
    items [done]: [keyMap] gives the position of every key seen, and
    [elementsOut] holds the groups of the keys in the order in which they
    were first seen. *)
Definition reduced {E : Type} (key : E -> string) (mk : E -> E) (add : E -> E -> E)
    (done : list E) (st : gmap string nat * list E) : Prop :=
  (forall k i, st.1 !! k = Some i <-> firstSeen (map key done) !! i = Some k)
  /\ Some <$> st.2 = (fun k => groupOf key mk add k done) <$> firstSeen (map key done).

(** The order in which [Query] compares the keys of the listed objects. *)
Definition keyLe (s t : string) : Prop := String.compare s t <> Gt.

(** A key too short for the slice [key[len(prefix):len(key)-4]]. *)
Definition keyTooShort (prefix : string) (object : AWS.Object) : bool :=
  (String.length (AWS.Key object) <? String.length prefix + 4)%nat.

(** The last position at which a column name occurs in the header of a
    report. *)
Fixpoint lastIndex (name : string) (header : list string) : option nat :=
  match header with
  | [] => None
  | field :: rest =>
      match lastIndex name rest with
      | Some i => Some (S i)
      | None => if String.eqb field name then Some 0%nat else None
      end
  end.

(** The column in which a line of the report is read for [name]: the last
    one that the header gives that name, the first column when the header
    has no such name. *)
Definition column (header : list string) (name : string) : nat :=
  default 0%nat (lastIndex name header).

(** The billing element that one line of a report with the given header
    stands for: none unless the line is a linked line item whose total cost
    parses. *)
Definition lineItem (ParseFloat : string -> option Q) (header record : list string)
    : option AWS.awsBillingElement :=
  let field name := default EmptyString (record !! column header name) in
  if String.eqb (field "RecordType") "LinkedLineItem"
  then match ParseFloat (field "TotalCost") with
       | Some costs =>
           Some {| AWS.ProjectName := EmptyString;
                   AWS.ProjectID := field "LinkedAccountId";
                   AWS.ServiceName := field "ProductCode";
                   AWS.Costs := costs;
                   AWS.Currency := field "CurrencyCode" |}
       | None => None
       end
  else None.

(** What [csv.Reader] guarantees of the records it returns: all have the
    number of fields of the first one. *)
Definition fieldsPerRecord (n : nat) (input : list AWS.CSVRead) : Prop :=
  Forall (fun read =>
            match read with
            | AWS.CSVRecord record => List.length record = n
            | AWS.CSVError => True
            end) input.

(** The positions that [readCSV] keeps while all records have [n] fields:
    inside a record, except for the mark [-1] of a header not seen yet. *)
Definition positionsWithin (n : nat) (pos : gmap string Z) : Prop :=
  forall name i, pos !! name = Some i ->
                 0 <= i < Z.of_nat n \/ (name = "RecordType" /\ i = -1).

(** A report with two linked line items of one account and service, a total
    line and a line whose cost does not parse. *)
Definition reportHeader : list string :=
  ["RecordType"; "LinkedAccountId"; "ProductCode"; "TotalCost"; "CurrencyCode"].

Definition reportLines : list (list string) :=
  [ ["LinkedLineItem"; "1234"; "S3"; "1.5"; "USD"];
    ["AccountTotal"; "1234"; "S3"; "4.0"; "USD"];
    ["LinkedLineItem"; "1234"; "S3"; "n/a"; "USD"];
    ["LinkedLineItem"; "1234"; "S3"; "2.5"; "USD"] ].

(** The sequence number that [getReportFile] reads in the name of an
    object, if it reads one. *)
Definition sequenceNumber (o : GCP.ObjectAttrs) : option Z :=
  if (String.length (GCP.Name o) <? 8)%nat then None
  else Atoi (sequenceChars (GCP.Name o)).

(** The object names the report slot [j]. *)
Definition namesSlot (j : nat) (o : GCP.ObjectAttrs) : bool :=
  match sequenceNumber o with
  | Some i => i =? Z.of_nat j + 1
  | None => false
  end.

(** The object has a sequence number for which there is no report slot. *)
Definition slotOutOfRange (o : GCP.ObjectAttrs) : bool :=
  match sequenceNumber o with
  | Some i => negb ((1 <=? i) && (i <=? Z.of_nat GCP.ReportsPerMonth))
  | None => false
  end.

(** The listed entries that [ingest] files as the project [name], and those
    that it files under the identifier [name]. *)
Definition listedAsProject (name : string) (e : GCP.resourceMetadata) : bool :=
  HasPrefix (GCP.id e) "projects/" && String.eqb (GCP.displayName e) name.

Definition listedUnderID (name : string) (e : GCP.resourceMetadata) : bool :=
  negb (HasPrefix (GCP.id e) "projects/") && String.eqb (GCP.id e) name.

(** How often a byte occurs in a string. *)
Fixpoint countByte (c : ascii) (s : string) : nat :=
  match s with
  | EmptyString => 0
  | String b r => (if Ascii.eqb b c then 1 else 0) + countByte c r
  end.

(** One part of an account map string: a mapping of an account to a name,
    or a part that is no mapping. *)
Definition mappingPart (entry : string * string + string) : string :=
  match entry with
  | inl (accountID, accountName) => accountID +:+ "=" +:+ accountName
  | inr other => other
  end.

Definition mappingOf (entry : string * string + string) : option (string * string) :=
  match entry with
  | inl mapping => Some mapping
  | inr _ => None
  end.

(** The parts hold no comma, the two sides of a mapping no equals sign, and
    a part that is no mapping does not hold exactly one equals sign. *)
Definition partOfMap (entry : string * string + string) : bool :=
  match entry with
  | inl (accountID, accountName) =>
      no_byte "," accountID && no_byte "=" accountID
      && no_byte "," accountName && no_byte "=" accountName
  | inr other => no_byte "," other && negb (countByte "=" other =? 1)%nat
  end.

(** The last-observed value after a report presents [new] for a key that
    stood at [old]: a falling value is not taken over. *)
Definition raisedTo (old new : Q) : Q :=
  if Qlt_le_dec new old then old else new.

(** A bucket with the reports of two days of January 2017. *)
Definition twoReports : GCP.Env :=
  Examples.gcpEnv [ Examples.gcpObject "prefix-2017-01-01.json" [Byte.x01];
                    Examples.gcpObject "prefix-2017-01-02.json" [Byte.x02] ].

(** The organizations service describes the unit that it is asked for. *)
Definition unitsAsAsked (dir : AWSOrg.Directory) : Prop :=
  forall p unitID unitName,
    AWSOrg.OrganizationalUnit dir p = Some (unitID, unitName) -> unitID = p.

(** The value of the last tag with the given key; [none] without such a
    tag. *)
Definition lastTag (key : string) (tags : list (string * string)) (none : string) : string :=
  match last (List.filter (fun tag => String.eqb (fst tag) key) tags) with
  | Some tag => snd tag
  | None => none
  end.

(** Two states of one account that differ at most in parent and path. *)
Definition sameAccount (x y : AWSOrg.Account) : Prop :=
  AWSOrg.ID x = AWSOrg.ID y /\ AWSOrg.Name x = AWSOrg.Name y
  /\ AWSOrg.Owner x = AWSOrg.Owner y.

(** Every account of the map [m] is still in [m'], under the same key and
    with its name and owner. *)
Definition accountsKept (m m' : gmap string AWSOrg.Account) : Prop :=
  forall k x, m !! k = Some x -> exists x', m' !! k = Some x' /\ sameAccount x' x.

(** The entry that a refresh caches for a listed account: under its
    identifier, named after its project tag if it has one, with the owner of
    its owner tag. *)
Definition cachedWithTags (dir : AWSOrg.Directory) (a : AWSOrg.AWSBilling)
    (m : gmap string AWSOrg.Account) (account : string * string) : Prop :=
  exists ac,
    m !! fst account = Some ac
    /\ AWSOrg.ID ac = fst account
    /\ AWSOrg.Name ac
       = lastTag (AWSOrg.ProjectIDTag a) (AWSOrg.Tags dir (fst account)) (snd account)
    /\ AWSOrg.Owner ac
       = lastTag (AWSOrg.OwnerTag a) (AWSOrg.Tags dir (fst account)) EmptyString.

(** The organization of the examples with an account that carries two
    project tags and an owner tag. *)
Definition taggedOrganization : AWSOrg.Directory :=
  {| AWSOrg.SessionFails := false;
     AWSOrg.Accounts := [("111", "legacy-name")];
     AWSOrg.ListAccountsFails := false;
     AWSOrg.Tags := fun _ => [("project", "shop"); ("owner", "team-a"); ("project", "webshop")];
     AWSOrg.ListParents := AWSOrg.ListParents Examples.organization;
     AWSOrg.MasterAccountEmail := Some "root@example.com";
     AWSOrg.OrganizationalUnit := fun unit => Some (unit, "development");
     AWSOrg.Now := 0;
     AWSOrg.Later := 0 |}.

(** The key of the report of a month in the bucket of the AWS source:
    the prefix, then year and month as in 2017-01, then the extension. *)
Definition monthKey (prefix : string) (year month : Z) : string :=
  prefix +:+ fmt_0d 4 year +:+ "-" +:+ fmt_0d 2 month +:+ ".csv".

(** The listed object of a month with its hash. *)
Definition monthlyReport (prefix : string) (entry : Z * Z * string) : AWS.Object :=
  {| AWS.Key := monthKey prefix entry.1.1 entry.1.2; AWS.ETag := entry.2 |}.

(** A month of a year with four digits. *)
Definition calendarMonth (entry : Z * Z * string) : Prop :=
  1000 <= entry.1.1 <= 9999 /\ 1 <= entry.1.2 <= 12.

(** The [n] numbers from [lo] on and their successors print in [w]
    columns, each smaller than its successor in byte order; checked by
    evaluation. *)
Definition printsIncreasing (w : nat) (lo : Z) (n : nat) : bool :=
  forallb (fun i =>
             let k := lo + Z.of_nat i in
             (String.length (fmt_0d w k) =? w)%nat
             && (String.length (fmt_0d w (k + 1)) =? w)%nat
             && match String.compare (fmt_0d w k) (fmt_0d w (k + 1)) with
                | Lt => true
                | _ => false
                end)
    (seq 0 n).

(** * Properties *)

(** ** The Go library functions *)

Lemma append_cons (c : ascii) (s t : string) :
  String c s +:+ t = String c (s +:+ t).
Proof. reflexivity. Qed.

Lemma append_empty_l (t : string) : EmptyString +:+ t = t.
Proof. reflexivity. Qed.

Lemma append_empty_r (s : string) : s +:+ EmptyString = s.
Proof.
  induction s as [|c s IH]; [reflexivity|].
  now rewrite append_cons, IH.
Qed.

Lemma append_byte_l (s t : string) (c : ascii) :
  (s +:+ String c EmptyString) +:+ t = s +:+ String c t.
Proof.
  induction s as [|b s IH]; [reflexivity|].
  now rewrite !append_cons, IH.
Qed.

Lemma no_byte_cons (sep c : ascii) (a : string) :
  no_byte sep (String c a) = true -> Ascii.eqb c sep = false /\ no_byte sep a = true.
Proof.
  unfold no_byte. simpl. intros H. apply andb_prop in H as [Hc Ha].
  split; [now apply negb_true_iff in Hc | exact Ha].
Qed.

Lemma Split_from_segment (sep : ascii) (a cur rest : string) :
  no_byte sep a = true ->
  Split_from sep cur (a +:+ String sep rest) = (cur +:+ a) :: Split_from sep EmptyString rest.
Proof.
  revert cur. induction a as [|c a IH]; intros cur Ha.
  - rewrite append_empty_l, append_empty_r. simpl. now rewrite Ascii.eqb_refl.
  - apply no_byte_cons in Ha as [Hc Ha]. rewrite append_cons. simpl. rewrite Hc.
    now rewrite IH, append_byte_l.
Qed.

Lemma Split_from_last (sep : ascii) (a cur : string) :
  no_byte sep a = true ->
  Split_from sep cur a = [cur +:+ a].
Proof.
  revert cur. induction a as [|c a IH]; intros cur Ha.
  - now rewrite append_empty_r.
  - apply no_byte_cons in Ha as [Hc Ha]. simpl. rewrite Hc.
    now rewrite IH, append_byte_l.
Qed.

(** ** Period prefixes *)

Lemma preceding_month_January (year : Z) :
  GCP.preceding_month year 1 = (year - 1, 12).
Proof.
  unfold GCP.preceding_month, GCP.month_of_ordinal, GCP.month_ordinal.
  f_equal.
  - symmetry. apply (Z.div_unique _ _ _ 11); lia.
  - replace (12 * year + (1 - 1) - 1) with (11 + (year - 1) * 12) by lia.
    rewrite Z.mod_add by lia. reflexivity.
Qed.

Lemma preceding_month_later (year month : Z) :
  2 <= month <= 12 ->
  GCP.preceding_month year month = (year, month - 1).
Proof.
  intros Hm.
  unfold GCP.preceding_month, GCP.month_of_ordinal, GCP.month_ordinal.
  f_equal.
  - symmetry. apply (Z.div_unique _ _ _ (month - 2)); lia.
  - replace (12 * year + (month - 1) - 1) with ((month - 2) + year * 12) by lia.
    rewrite Z.mod_add by lia. rewrite Z.mod_small by lia. lia.
Qed.

(** C6. For every current date, [filterLastTwoMonths] returns exactly two
    prefixes: the prefix of the current calendar month first, the prefix of
    the month immediately before it second, the year going back by one in
    January. On 2017-01-02 with report prefix "prefix" the result is
    ["prefix-2017-01-"; "prefix-2016-12-"], on 2016-07-02 it is
    ["prefix-2016-07-"; "prefix-2016-06-"]. *)
Theorem filterLastTwoMonths_current_then_preceding (prefix : string) (now : GCP.Time) :
  1 <= GCP.Month now <= 12 ->
  (let '(year', month') := GCP.preceding_month (GCP.Year now) (GCP.Month now) in
   GCP.filterLastTwoMonths prefix now =
     [ GCP.period_prefix prefix (GCP.Year now) (GCP.Month now);
       GCP.period_prefix prefix year' month' ])
  /\ GCP.filterLastTwoMonths "prefix" {| GCP.Year := 2017; GCP.Month := 1; GCP.Day := 2 |}
     = ["prefix-2017-01-"; "prefix-2016-12-"]
  /\ GCP.filterLastTwoMonths "prefix" {| GCP.Year := 2016; GCP.Month := 7; GCP.Day := 2 |}
     = ["prefix-2016-07-"; "prefix-2016-06-"].
Proof.
  intros Hm. split; [|split; reflexivity].
  unfold GCP.filterLastTwoMonths, GCP.January, GCP.December.
  destruct (Z.eqb_spec (GCP.Month now) 1) as [H1 | H1].
  - rewrite H1, preceding_month_January. reflexivity.
  - rewrite preceding_month_later by lia. reflexivity.
Qed.

Lemma filterLastTwoMonths_current_then_preceding_witness :
  GCP.filterLastTwoMonths "my-billing" {| GCP.Year := 2020; GCP.Month := 1; GCP.Day := 31 |}
  = ["my-billing-2020-01-"; "my-billing-2019-12-"].
Proof.
  pose proof (filterLastTwoMonths_current_then_preceding "my-billing"
                {| GCP.Year := 2020; GCP.Month := 1; GCP.Day := 31 |}) as H.
  simpl in H. destruct H as [H _]; [lia|]. exact H.
Defined.

(** ** Service names *)

Lemma Split_services (a t rest : string) :
  no_byte "/" a = true ->
  no_byte "/" t = true ->
  rest = EmptyString \/ (exists r, rest = String "/" r) ->
  exists tail, Split (a +:+ "/services/" +:+ t +:+ rest) "/" = a :: "services" :: t :: tail.
Proof.
  intros Ha Ht Hrest. unfold Split.
  change (a +:+ "/services/" +:+ t +:+ rest)
    with (a +:+ String "/" ("services" +:+ String "/" (t +:+ rest))).
  rewrite Split_from_segment by exact Ha.
  rewrite Split_from_segment by reflexivity.
  destruct Hrest as [-> | [r ->]].
  - rewrite append_empty_r, Split_from_last by exact Ht. now exists [].
  - rewrite Split_from_segment by exact Ht. eexists. reflexivity.
Qed.

(** C7, as the code has it. For every billing element whose service name is
    empty: with no measurement or several, the derived name is "misc"; with
    exactly one measurement whose identifier is [a/services/t] or
    [a/services/t/...], the derived name is [t]; with exactly one
    measurement whose identifier, split on '/', has fewer than three parts
    or another second part than "services", the derived name is the
    identifier itself. *)
Theorem GetServiceName_of_measurements (e : GCP.gcpBillingElement) :
  GCP.ServiceName e = EmptyString ->
  (List.length (GCP.Measurements e) <> 1%nat -> GCP.GetServiceName e = "misc")
  /\ (forall m a t rest,
        GCP.Measurements e = [m] ->
        GCP.MeasurementID m = a +:+ "/services/" +:+ t +:+ rest ->
        no_byte "/" a = true -> no_byte "/" t = true ->
        rest = EmptyString \/ (exists r, rest = String "/" r) ->
        GCP.GetServiceName e = t)
  /\ (forall m,
        GCP.Measurements e = [m] ->
        (List.length (Split (GCP.MeasurementID m) "/") < 3)%nat
        \/ nth_error (Split (GCP.MeasurementID m) "/") 1 <> Some "services" ->
        GCP.GetServiceName e = GCP.MeasurementID m).
Proof.
  intros Hname. unfold GCP.GetServiceName. rewrite Hname. simpl.
  split; [|split].
  - destruct (GCP.Measurements e) as [|m [|m' ms]]; simpl; congruence.
  - intros m a t rest -> Hid Ha Ht Hrest.
    destruct (Split_services a t rest Ha Ht Hrest) as [tail Hsplit].
    rewrite Hid, Hsplit. reflexivity.
  - intros m -> Hshape.
    destruct (Split (GCP.MeasurementID m) "/") as [|p0 [|p1 [|p2 ps]]]; try reflexivity.
    destruct Hshape as [Hlen | Hsecond]; [simpl in Hlen; lia|].
    destruct (String.eqb_spec p1 "services") as [-> | Hne]; [|reflexivity].
    now contradiction Hsecond.
Qed.

Lemma GetServiceName_of_measurements_witness :
  GCP.GetServiceName
    (Examples.measured [Examples.measurement "com.google.cloud/services/compute-engine/VmimageN1Standard_1"])
  = "compute-engine".
Proof.
  pose proof (GetServiceName_of_measurements
    (Examples.measured [Examples.measurement "com.google.cloud/services/compute-engine/VmimageN1Standard_1"])
    eq_refl) as [_ [H _]].
  apply (H _ "com.google.cloud" "compute-engine" "/VmimageN1Standard_1" eq_refl eq_refl).
  - reflexivity.
  - reflexivity.
  - right. eexists. reflexivity.
Defined.

(** C7, as the spec words it, fails: an element with no service name and one
    measurement whose identifier has no "services" segment is not labelled
    "misc" but with the identifier; and a "services" segment that is not the
    second one is not looked at. *)
Lemma GetServiceName_keeps_unparsed_identifier :
  GCP.ServiceName (Examples.measured [Examples.measurement "compute-engine"]) = EmptyString
  /\ ~ In "services" (Split "compute-engine" "/")
  /\ GCP.GetServiceName (Examples.measured [Examples.measurement "compute-engine"])
     = "compute-engine"
  /\ GCP.GetServiceName (Examples.measured [Examples.measurement "compute-engine"]) <> "misc"
  /\ Split "apis/v1/services/storage" "/" = ["apis"; "v1"; "services"; "storage"]
  /\ GCP.GetServiceName (Examples.measured [Examples.measurement "apis/v1/services/storage"])
     = "apis/v1/services/storage".
Proof.
  repeat split; try reflexivity.
  - simpl. intros [H | []]. discriminate H.
  - discriminate.
Qed.

(** ** Report fetcher *)

Section Fetcher.

Variable ParseFloat : string -> option Q.
Variable env : GCP.Env.

Lemma getReportFile_key_fails (g : GCP.GCPBilling) (o : GCP.ObjectAttrs) :
  reportKeyFails o = true -> GCP.getReportFile ParseFloat env g o = Returns g.
Proof.
  unfold reportKeyFails, sequenceChars, GCP.getReportFile. intros H.
  destruct (String.length (GCP.Name o) <? 8)%nat; [reflexivity|].
  simpl in H.
  destruct (Atoi (substring (String.length (GCP.Name o) - 7) 2 (GCP.Name o)));
    [discriminate | reflexivity].
Qed.

Lemma getReportFiles_skip_failing (g : GCP.GCPBilling) (objects : list GCP.ObjectAttrs) :
  GCP.getReportFiles ParseFloat env g objects
  = GCP.getReportFiles ParseFloat env g
      (List.filter (fun o => negb (reportKeyFails o)) objects).
Proof.
  revert g. induction objects as [|o objects IH]; intros g; [reflexivity|].
  simpl. destruct (reportKeyFails o) eqn:Hfails; simpl.
  - rewrite getReportFile_key_fails by exact Hfails. apply IH.
  - destruct (GCP.getReportFile ParseFloat env g o); [apply IH | reflexivity].
Qed.

Lemma getReportFiles_all_failing (g : GCP.GCPBilling) (objects : list GCP.ObjectAttrs) :
  forallb reportKeyFails objects = true ->
  GCP.getReportFiles ParseFloat env g objects = Returns g.
Proof.
  induction objects as [|o objects IH]; intros H; [reflexivity|].
  simpl in H. apply andb_prop in H as [Ho Hrest].
  simpl. rewrite getReportFile_key_fails by exact Ho. now apply IH.
Qed.

Lemma firstListing_empty (prefixes : list string) :
  (forall prefix, In prefix prefixes ->
     GCP.Items (GCP.Objects env prefix) = [] /\ GCP.ListingFails (GCP.Objects env prefix) = false) ->
  GCP.firstListing env prefixes = inl None.
Proof.
  induction prefixes as [|prefix prefixes IH]; intros H; [reflexivity|].
  simpl. destruct (H prefix (or_introl eq_refl)) as [-> ->].
  apply IH. intros q Hq. apply H. now right.
Qed.

End Fetcher.

(** C2. In every fetch run an object whose name is too short to hold a
    sequence number, or whose sequence-number characters are not an integer,
    is skipped: [getReportFile] returns with the state as it was. Such
    objects never abort the fetch: the calls for a listing end as the calls
    for the listing without them do, a listing of nothing but such objects is
    fetched without an error and without a panic, and a listing with no
    object under either prefix is a success with the state unchanged. *)
Theorem GetReports_tolerates_key_failures (ParseFloat : string -> option Q) (env : GCP.Env) :
  (forall g o, reportKeyFails o = true ->
     GCP.getReportFile ParseFloat env g o = Returns g)
  /\ (forall g objects,
        GCP.getReportFiles ParseFloat env g objects
        = GCP.getReportFiles ParseFloat env g
            (List.filter (fun o => negb (reportKeyFails o)) objects))
  /\ (forall g prefix it,
        GCP.NewClientFails env = false ->
        GCP.firstListing env (GCP.filterLastTwoMonths (GCP.ReportPrefix g) (GCP.Now env))
          = inl (Some (prefix, it)) ->
        forallb reportKeyFails (GCP.Items it) = true ->
        exists g', GCP.GetReports ParseFloat env g = Returns (listingError it, g')
                   /\ GCP.metricValues g' = GCP.metricValues g)
  /\ (forall g,
        GCP.NewClientFails env = false ->
        (forall prefix,
           In prefix (GCP.filterLastTwoMonths (GCP.ReportPrefix g) (GCP.Now env)) ->
           GCP.Items (GCP.Objects env prefix) = []
           /\ GCP.ListingFails (GCP.Objects env prefix) = false) ->
        GCP.GetReports ParseFloat env g = Returns (None, g)).
Proof.
  split; [|split; [|split]].
  - intros g o. apply getReportFile_key_fails.
  - intros g objects. apply getReportFiles_skip_failing.
  - intros g prefix it Hclient Hfirst Hall.
    unfold GCP.GetReports. rewrite Hclient, Hfirst.
    rewrite getReportFiles_all_failing by exact Hall.
    eexists. split; [reflexivity|].
    now destruct (negb (GCP.ReportsMonthPrefix g =? prefix)%string).
  - intros g Hclient Hnone.
    unfold GCP.GetReports. rewrite Hclient.
    now rewrite firstListing_empty.
Qed.

(** ** Counter state *)

Lemma lastValue_insert (values : gmap string Q) (key k : string) (v : Q) :
  lastValue (<[key := v]> values) k = if decide (key = k) then v else lastValue values k.
Proof.
  unfold lastValue. rewrite lookup_insert. now destruct (decide (key = k)).
Qed.

Lemma lastValue_withKey (values : gmap string Q) (key k : string) :
  lastValue (withKey values key) k = lastValue values k.
Proof.
  unfold withKey. destruct (values !! key) eqn:Hkey; [reflexivity|].
  rewrite lastValue_insert. destruct (decide (key = k)) as [<- | _]; [|reflexivity].
  unfold lastValue. now rewrite Hkey.
Qed.

Lemma appliedDelta_app (k : string) (adds more : list CounterAdd) :
  (appliedDelta k (adds ++ more) == appliedDelta k adds + appliedDelta k more)%Q.
Proof.
  induction adds as [|add adds IH]; simpl.
  - ring.
  - destruct (AddKey add =? k)%string; rewrite IH; ring.
Qed.

Lemma appliedDelta_snoc (k : string) (adds : list CounterAdd) (add : CounterAdd) :
  (appliedDelta k (adds ++ [add])
   == appliedDelta k adds + if decide (AddKey add = k) then AddDelta add else 0)%Q.
Proof.
  rewrite appliedDelta_app. simpl.
  destruct (String.eqb_spec (AddKey add) k) as [Heq | Hne];
    destruct (decide (AddKey add = k)); try contradiction; ring.
Qed.

Lemma last_cons (l : list Q) (v prev : Q) :
  List.last (v :: l) prev = List.last l v.
Proof.
  revert v prev. induction l as [|w l IH]; intros v prev; [reflexivity|].
  change (List.last (v :: w :: l) prev) with (List.last (w :: l) prev).
  now rewrite (IH w prev), (IH w v).
Qed.

Lemma nondecreasing_app (prev : Q) (l1 l2 : list Q) :
  nondecreasing prev (l1 ++ l2) <->
  nondecreasing prev l1 /\ nondecreasing (List.last l1 prev) l2.
Proof.
  revert prev. induction l1 as [|v l1 IH]; intros prev.
  - simpl. tauto.
  - change ((v :: l1) ++ l2) with (v :: (l1 ++ l2)).
    rewrite last_cons. simpl. rewrite IH. tauto.
Qed.

Lemma last_app_from (prev : Q) (l1 l2 : list Q) :
  List.last (l1 ++ l2) prev = List.last l2 (List.last l1 prev).
Proof.
  revert prev. induction l1 as [|v l1 IH]; intros prev; [reflexivity|].
  change ((v :: l1) ++ l2) with (v :: (l1 ++ l2)).
  now rewrite !last_cons.
Qed.

Lemma telescopes_refl (k : string) (values : gmap string Q) (adds : list CounterAdd) :
  telescopes k values values adds adds [].
Proof. split; [ring | reflexivity]. Qed.

Lemma telescopes_trans (k : string) (v1 v2 v3 : gmap string Q)
    (a1 a2 a3 : list CounterAdd) (p12 p23 : list Q) :
  telescopes k v1 v2 a1 a2 p12 ->
  telescopes k v2 v3 a2 a3 p23 ->
  telescopes k v1 v3 a1 a3 (p12 ++ p23).
Proof.
  intros [Hsum12 Hlast12] [Hsum23 Hlast23]. split.
  - rewrite Hsum23, Hsum12. ring.
  - now rewrite last_app_from, <- Hlast12.
Qed.

(** ** Counter reconciler of the GCP source *)

Section GCPReconciler.

Variable ParseFloat : string -> option Q.

Lemma gcp_reconcileElem_cases (fuel : nat) (r : GCP.resourcesMetadata)
    (values : gmap string Q) (adds : list CounterAdd) (elem : GCP.gcpBillingElement)
    (st' : gmap string Q * list CounterAdd) :
  GCP.reconcileElem ParseFloat fuel r (values, adds) elem = Some st' ->
  let key := GCP.groupByProjectIDServiceCurrency elem in
  let value := GCP.GetValue ParseFloat elem in
  ((value < lastValue values key)%Q /\ st' = (withKey values key, adds))
  \/ ((lastValue values key <= value)%Q
      /\ exists labels,
           st' = (<[key := value]> (withKey values key),
                  adds ++ [{| AddKey := key; AddLabels := labels;
                              AddDelta := (value - lastValue values key)%Q |}])).
Proof.
  intros Hstep key value. unfold GCP.reconcileElem in Hstep.
  destruct (GCP.labelsOf fuel r elem) as [labels|]; [|discriminate].
  change (match values !! GCP.groupByProjectIDServiceCurrency elem with
          | Some _ => values
          | None => <[GCP.groupByProjectIDServiceCurrency elem := 0%Q]> values
          end) with (withKey values key) in Hstep.
  change (default 0%Q (withKey values key !! GCP.groupByProjectIDServiceCurrency elem))
    with (lastValue (withKey values key) key) in Hstep.
  rewrite lastValue_withKey in Hstep.
  fold value in Hstep.
  destruct (Qlt_le_dec (value - lastValue values key) 0) as [Hneg | Hpos];
    injection Hstep as <-.
  - left. split; [lra | reflexivity].
  - right. split; [lra|]. now exists labels.
Qed.

Lemma gcp_reconcileElem_telescopes (k : string) (fuel : nat) (r : GCP.resourcesMetadata)
    (values values' : gmap string Q) (adds adds' : list CounterAdd)
    (elem : GCP.gcpBillingElement) :
  GCP.reconcileElem ParseFloat fuel r (values, adds) elem = Some (values', adds') ->
  nondecreasing (lastValue values k) (gcpPresentedIn ParseFloat k [elem]) ->
  telescopes k values values' adds adds' (gcpPresentedIn ParseFloat k [elem]).
Proof.
  intros Hstep Hmono.
  apply gcp_reconcileElem_cases in Hstep. cbv zeta in Hstep.
  unfold gcpPresentedIn in *. simpl in *.
  destruct (String.eqb_spec (GCP.groupByProjectIDServiceCurrency elem) k) as [Hk | Hk];
    simpl in *.
  - subst k. destruct Hmono as [Hle _].
    destruct Hstep as [[Hlt _] | [_ [labels Hst]]]; [lra|].
    injection Hst as -> ->. split.
    + rewrite appliedDelta_snoc, lastValue_insert. simpl.
      rewrite !decide_True by reflexivity. ring.
    + rewrite lastValue_insert. now rewrite decide_True by reflexivity.
  - destruct Hstep as [[_ Hst] | [_ [labels Hst]]]; injection Hst as -> ->; split.
    + rewrite lastValue_withKey. ring.
    + now rewrite lastValue_withKey.
    + rewrite appliedDelta_snoc, lastValue_insert, lastValue_withKey. simpl.
      rewrite !decide_False by exact Hk. ring.
    + rewrite lastValue_insert, lastValue_withKey. now rewrite decide_False by exact Hk.
Qed.

Lemma gcpPresentedIn_cons (k : string) (elem : GCP.gcpBillingElement)
    (rest : list GCP.gcpBillingElement) :
  gcpPresentedIn ParseFloat k (elem :: rest)
  = gcpPresentedIn ParseFloat k [elem] ++ gcpPresentedIn ParseFloat k rest.
Proof.
  unfold gcpPresentedIn. simpl.
  now destruct (GCP.groupByProjectIDServiceCurrency elem =? k)%string.
Qed.

Lemma gcp_reconcile_telescopes (k : string) (fuel : nat) (r : GCP.resourcesMetadata)
    (elems : list GCP.gcpBillingElement) :
  forall values values' adds adds',
    GCP.reconcile ParseFloat fuel r (values, adds) elems = Some (values', adds') ->
    nondecreasing (lastValue values k) (gcpPresentedIn ParseFloat k elems) ->
    telescopes k values values' adds adds' (gcpPresentedIn ParseFloat k elems).
Proof.
  induction elems as [|elem rest IH]; intros values values' adds adds' Hrun Hmono.
  - injection Hrun as <- <-. apply telescopes_refl.
  - cbn [GCP.reconcile] in Hrun.
    destruct (GCP.reconcileElem ParseFloat fuel r (values, adds) elem)
      as [[values1 adds1]|] eqn:Hstep; [|discriminate].
    rewrite gcpPresentedIn_cons in *.
    apply nondecreasing_app in Hmono as [Hfirst Hrest].
    pose proof (gcp_reconcileElem_telescopes k _ _ _ _ _ _ _ Hstep Hfirst) as Hone.
    apply (telescopes_trans k values values1 values' adds adds1 adds'); [exact Hone|].
    apply IH; [exact Hrun|].
    destruct Hone as [_ Hlast]. now rewrite Hlast.
Qed.

Lemma gcpPasses_telescopes (k : string) (fuel : nat)
    (passes : list (GCP.resourcesMetadata * list GCP.gcpBillingElement)) :
  forall values values' adds adds',
    gcpPasses ParseFloat fuel (values, adds) passes = Some (values', adds') ->
    nondecreasing (lastValue values k) (gcpPresented ParseFloat k passes) ->
    telescopes k values values' adds adds' (gcpPresented ParseFloat k passes).
Proof.
  induction passes as [|[r elems] rest IH]; intros values values' adds adds' Hrun Hmono.
  - injection Hrun as <- <-. apply telescopes_refl.
  - cbn [gcpPasses] in Hrun.
    destruct (GCP.reconcile ParseFloat fuel r (values, adds) elems)
      as [[values1 adds1]|] eqn:Hpass; [|discriminate].
    unfold gcpPresented in *. simpl in *.
    apply nondecreasing_app in Hmono as [Hfirst Hrest].
    pose proof (gcp_reconcile_telescopes k _ _ _ _ _ _ _ Hpass Hfirst) as Hone.
    apply (telescopes_trans k values values1 values' adds adds1 adds'); [exact Hone|].
    apply IH; [exact Hrun|].
    destruct Hone as [_ Hlast]. now rewrite Hlast.
Qed.

End GCPReconciler.

(** ** Counter reconciler of the AWS source *)

Section AWSReconciler.

Lemma aws_reconcileElem_step (env : AWS.Env) (a : AWS.AWSBilling)
    (adds : list CounterAdd) (elem : AWS.awsBillingElement) :
  let key := AWS.groupByProjectIDServiceCurrency elem in
  exists a' labels,
    AWS.reconcileElem env (a, adds) elem
    = (a', adds ++ [{| AddKey := key; AddLabels := labels;
                       AddDelta := (AWS.Costs elem - lastValue (AWS.metricValues a) key)%Q |}])
    /\ AWS.metricValues a' = <[key := AWS.Costs elem]> (withKey (AWS.metricValues a) key).
Proof.
  intros key. unfold AWS.reconcileElem.
  assert (Hvalues : AWS.metricValues (AWS.AccountNameByID env a (AWS.ProjectID elem)).2
                    = AWS.metricValues a).
  { unfold AWS.AccountNameByID.
    destruct (AWS.accountNameByIDOverride a !! AWS.ProjectID elem); [reflexivity|].
    assert (Hrefresh : AWS.metricValues (AWS.refreshAPI env a) = AWS.metricValues a).
    { unfold AWS.refreshAPI.
      destruct (_ || _); [|reflexivity]. now destruct (AWS.ListAccounts env). }
    now destruct (AWS.accountNameByIDAPI (AWS.refreshAPI env a) ≫= _). }
  destruct (AWS.AccountNameByID env a (AWS.ProjectID elem)) as [projectID a1].
  simpl in Hvalues. rewrite Hvalues.
  change (match AWS.metricValues a !! AWS.groupByProjectIDServiceCurrency elem with
          | Some _ => AWS.metricValues a
          | None => <[AWS.groupByProjectIDServiceCurrency elem := 0%Q]> (AWS.metricValues a)
          end) with (withKey (AWS.metricValues a) key).
  change (default 0%Q (withKey (AWS.metricValues a) key
                         !! AWS.groupByProjectIDServiceCurrency elem))
    with (lastValue (withKey (AWS.metricValues a) key) key).
  rewrite lastValue_withKey.
  eexists. eexists. split; reflexivity.
Qed.

Lemma awsPresentedIn_cons (k : string) (elem : AWS.awsBillingElement)
    (rest : list AWS.awsBillingElement) :
  awsPresentedIn k (elem :: rest) = awsPresentedIn k [elem] ++ awsPresentedIn k rest.
Proof.
  unfold awsPresentedIn. simpl.
  now destruct (AWS.groupByProjectIDServiceCurrency elem =? k)%string.
Qed.

Lemma aws_reconcileElem_telescopes (k : string) (env : AWS.Env) (a a' : AWS.AWSBilling)
    (adds adds' : list CounterAdd) (elem : AWS.awsBillingElement) :
  AWS.reconcileElem env (a, adds) elem = (a', adds') ->
  telescopes k (AWS.metricValues a) (AWS.metricValues a') adds adds' (awsPresentedIn k [elem]).
Proof.
  intros Hstep.
  destruct (aws_reconcileElem_step env a adds elem) as (a1 & labels & Hrun & Hvalues).
  rewrite Hrun in Hstep. injection Hstep as <- <-. rewrite Hvalues.
  unfold awsPresentedIn. simpl.
  destruct (String.eqb_spec (AWS.groupByProjectIDServiceCurrency elem) k) as [Hk | Hk];
    simpl; split.
  - rewrite appliedDelta_snoc, lastValue_insert. simpl.
    rewrite !decide_True by exact Hk. subst k. ring.
  - rewrite lastValue_insert. now rewrite decide_True by exact Hk.
  - rewrite appliedDelta_snoc, lastValue_insert, lastValue_withKey. simpl.
    rewrite !decide_False by exact Hk. ring.
  - rewrite lastValue_insert, lastValue_withKey. now rewrite decide_False by exact Hk.
Qed.

Lemma aws_reconcile_telescopes (k : string) (env : AWS.Env)
    (elems : list AWS.awsBillingElement) :
  forall a a' adds adds',
    AWS.reconcile env (a, adds) elems = (a', adds') ->
    telescopes k (AWS.metricValues a) (AWS.metricValues a') adds adds' (awsPresentedIn k elems).
Proof.
  unfold AWS.reconcile.
  induction elems as [|elem rest IH]; intros a a' adds adds' Hrun.
  - injection Hrun as <- <-. apply telescopes_refl.
  - cbn [fold_left] in Hrun.
    destruct (AWS.reconcileElem env (a, adds) elem) as [a1 adds1] eqn:Hstep.
    rewrite awsPresentedIn_cons.
    eapply telescopes_trans.
    + apply (aws_reconcileElem_telescopes k env a a1 adds adds1 elem Hstep).
    + now apply IH.
Qed.

Lemma awsPasses_telescopes (k : string) (passes : list (AWS.Env * list AWS.awsBillingElement)) :
  forall a a' adds adds',
    awsPasses (a, adds) passes = (a', adds') ->
    telescopes k (AWS.metricValues a) (AWS.metricValues a') adds adds' (awsPresented k passes).
Proof.
  induction passes as [|[env elems] rest IH]; intros a a' adds adds' Hrun.
  - injection Hrun as <- <-. apply telescopes_refl.
  - cbn [awsPasses] in Hrun.
    destruct (AWS.reconcile env (a, adds) elems) as [a1 adds1] eqn:Hpass.
    unfold awsPresented. simpl.
    eapply telescopes_trans.
    + apply (aws_reconcile_telescopes k env elems a a1 adds adds1 Hpass).
    + now apply IH.
Qed.

End AWSReconciler.



(** ** Falling costs *)

(** The GCP source keeps the regression guard: an element whose cumulative
    cost is below the stored last value makes no [Add] call and leaves the
    last value of every key as it was. *)
Lemma gcp_reconcileElem_falling (ParseFloat : string -> option Q) (fuel : nat)
    (r : GCP.resourcesMetadata) (values : gmap string Q) (adds : list CounterAdd)
    (elem : GCP.gcpBillingElement) (labels : list string) :
  GCP.labelsOf fuel r elem = Some labels ->
  (GCP.GetValue ParseFloat elem
   < lastValue values (GCP.groupByProjectIDServiceCurrency elem))%Q ->
  exists values',
    GCP.reconcileElem ParseFloat fuel r (values, adds) elem = Some (values', adds)
    /\ forall k, lastValue values' k = lastValue values k.
Proof.
  intros Hlabels Hfalls.
  destruct (GCP.reconcileElem ParseFloat fuel r (values, adds) elem) as [st'|] eqn:Hstep.
  - destruct (gcp_reconcileElem_cases ParseFloat fuel r values adds elem st' Hstep)
      as [[_ ->] | [Hle _]]; [|lra].
    eexists. split; [reflexivity|]. intros k. apply lastValue_withKey.
  - unfold GCP.reconcileElem in Hstep. rewrite Hlabels in Hstep.
    now destruct (Qlt_le_dec _ _).
Qed.

Lemma gcp_reconcile_100_then_80 :
  GCP.reconcile ParseDecimal 1 Examples.noMetadata
    ({["demo-1-storage-USD" := 100%Q]}, []) [Examples.gcpCost 80]
  = Some ({["demo-1-storage-USD" := 100%Q]}, []).
Proof. reflexivity. Qed.


(** ** Failed passes *)

Section FailedPasses.

Variable ParseFloat : string -> option Q.

Lemma aws_Query_error (env : AWS.Env) (a a' : AWS.AWSBilling) (err : AWS.error)
    (adds : list CounterAdd) :
  AWS.Query ParseFloat env a = Returns (Some err, adds, a') ->
  adds = [] /\ a' = a.
Proof.
  unfold AWS.Query. intros H.
  destruct (AWS.ListObjects env _) as [contents|]; [|now injection H as _ <- <-].
  destruct (AWS.selectObject _ None contents) as [[billingObject|]|];
    [| now injection H as _ <- <- | discriminate].
  destruct (AWS.ReportHash a =? AWS.ETag billingObject)%string; [discriminate|].
  destruct (AWS.GetObject env _) as [content|]; [|now injection H as _ <- <-].
  destruct (AWS.readCSV ParseFloat _) as [[billingElements|]|];
    [| now injection H as _ <- <- | discriminate].
  destruct (AWS.CloseFails content); [now injection H as _ <- <-|].
  destruct (AWS.reconcile env (a, []) billingElements). discriminate.
Qed.

Variable env : GCP.Env.

Lemma getReportFile_metricValues (g g' : GCP.GCPBilling) (o : GCP.ObjectAttrs) :
  GCP.getReportFile ParseFloat env g o = Returns g' ->
  GCP.metricValues g' = GCP.metricValues g.
Proof.
  unfold GCP.getReportFile. intros H.
  repeat match type of H with
         | (if ?c then _ else _) = _ => destruct c
         | match ?x with _ => _ end = _ => destruct x
         end;
    try discriminate; now injection H as <-.
Qed.

Lemma getReportFiles_metricValues (objects : list GCP.ObjectAttrs) :
  forall g g',
    GCP.getReportFiles ParseFloat env g objects = Returns g' ->
    GCP.metricValues g' = GCP.metricValues g.
Proof.
  induction objects as [|o objects IH]; intros g g' H.
  - now injection H as <-.
  - cbn [GCP.getReportFiles] in H.
    destruct (GCP.getReportFile ParseFloat env g o) as [g1|] eqn:Hone; [|discriminate].
    rewrite (IH _ _ H). now apply getReportFile_metricValues with o.
Qed.

Lemma GetReports_metricValues (g g' : GCP.GCPBilling) (err : option GCP.error) :
  GCP.GetReports ParseFloat env g = Returns (err, g') ->
  GCP.metricValues g' = GCP.metricValues g.
Proof.
  unfold GCP.GetReports. intros H.
  destruct (GCP.NewClientFails env); [now injection H as _ <-|].
  destruct (GCP.firstListing env _) as [[[prefix it]|]|e];
    [| now injection H as _ <- | now injection H as _ <-].
  destruct (GCP.getReportFiles ParseFloat env _ (GCP.Items it)) as [g1|] eqn:Hfiles;
    [|discriminate].
  injection H as _ <-. apply getReportFiles_metricValues in Hfiles.
  rewrite Hfiles. now destruct (negb _).
Qed.

Lemma gcp_OldQuery_error (fuel : nat) (g g' : GCP.GCPBilling) (err : GCP.error)
    (adds : list CounterAdd) :
  GCP.OldQuery ParseFloat env fuel g = Some (Returns (Some err, adds, g')) ->
  adds = [] /\ GCP.metricValues g' = GCP.metricValues g.
Proof.
  unfold GCP.OldQuery. intros H.
  destruct (GCP.GetReports ParseFloat env g) as [[[e|] g1]|] eqn:Hfetch;
    [| | discriminate].
  - injection H as _ <- <-. split; [reflexivity|].
    now apply GetReports_metricValues with (Some e).
  - destruct (GCP.reconcile _ _ _ _ _) as [[values adds1]|]; discriminate.
Qed.

End FailedPasses.

(** C4. Every [Query] that returns an error has made no [Add] call on a
    counter and leaves the stored last-observed values as they were before
    the call (the AWS source is left unchanged altogether); for [Query] of
    the AWS source and [OldQuery] of the GCP source. *)
Theorem failed_Query_changes_no_counter (ParseFloat : string -> option Q) :
  (forall env a err adds a',
     AWS.Query ParseFloat env a = Returns (Some err, adds, a') ->
     adds = [] /\ a' = a /\ AWS.metricValues a' = AWS.metricValues a)
  /\ (forall env fuel g err adds g',
        GCP.OldQuery ParseFloat env fuel g = Some (Returns (Some err, adds, g')) ->
        adds = [] /\ GCP.metricValues g' = GCP.metricValues g).
Proof.
  split.
  - intros env a err adds a' H.
    destruct (aws_Query_error ParseFloat env a a' err adds H) as [-> ->]. auto.
  - intros env fuel g err adds g'. apply gcp_OldQuery_error.
Qed.

Lemma failed_Query_changes_no_counter_witness :
  match AWS.Query ParseDecimal Examples.awsBrokenEnv
          (Examples.awsSource "etag-2" {["1234-S3-USD" := 80%Q]}) with
  | Returns (Some err, adds, a') =>
      err = AWS.ErrParseCSV /\ adds = []
      /\ a' = Examples.awsSource "etag-2" {["1234-S3-USD" := 80%Q]}
  | _ => False
  end.
Proof.
  destruct (AWS.Query ParseDecimal Examples.awsBrokenEnv
              (Examples.awsSource "etag-2" {["1234-S3-USD" := 80%Q]}))
    as [[[[err|] adds] a']|] eqn:Hrun;
    [| vm_compute in Hrun; discriminate | vm_compute in Hrun; discriminate].
  destruct (proj1 (failed_Query_changes_no_counter ParseDecimal) _ _ _ _ _ Hrun)
    as (Hadds & Ha & _).
  repeat split; [|exact Hadds|exact Ha].
  subst. vm_compute in Hrun. now injection Hrun as <-.
Defined.

(** ** Unchanged content hashes *)

Lemma aws_Query_cached (ParseFloat : string -> option Q) (env : AWS.Env)
    (a : AWS.AWSBilling) (contents : list AWS.Object) (billingObject : AWS.Object) :
  AWS.ListObjects env (AWS.RootAccountID env a +:+ "-aws-billing-csv-") = Some contents ->
  AWS.selectObject (AWS.RootAccountID env a +:+ "-aws-billing-csv-") None contents
    = Returns (Some billingObject) ->
  AWS.ReportHash a = AWS.ETag billingObject ->
  AWS.Query ParseFloat env a = Returns (None, [], a).
Proof.
  intros Hlist Hselect Hhash. unfold AWS.Query.
  now rewrite Hlist, Hselect, Hhash, String.eqb_refl.
Qed.

Lemma aws_reconcile_keeps_source (env : AWS.Env) (elems : list AWS.awsBillingElement) :
  forall a adds a' adds',
    AWS.reconcile env (a, adds) elems = (a', adds') ->
    AWS.rootAccountID a' = AWS.rootAccountID a.
Proof.
  unfold AWS.reconcile.
  induction elems as [|elem rest IH]; intros a adds a' adds' H.
  - now injection H as <- _.
  - cbn [fold_left] in H.
    destruct (AWS.reconcileElem env (a, adds) elem) as [a1 adds1] eqn:Hstep.
    rewrite (IH _ _ _ _ H).
    unfold AWS.reconcileElem in Hstep.
    destruct (AWS.AccountNameByID env a (AWS.ProjectID elem)) as [projectID a0] eqn:Hname.
    injection Hstep as <- _. simpl.
    unfold AWS.AccountNameByID in Hname.
    destruct (AWS.accountNameByIDOverride a !! AWS.ProjectID elem);
      [now injection Hname as _ <-|].
    assert (Hrefresh : AWS.rootAccountID (AWS.refreshAPI env a) = AWS.rootAccountID a).
    { unfold AWS.refreshAPI.
      destruct (_ || _); [|reflexivity]. now destruct (AWS.ListAccounts env). }
    destruct (AWS.accountNameByIDAPI (AWS.refreshAPI env a) ≫= _);
      now injection Hname as _ <-.
Qed.

(** C10. A report object that is fetched again with the content hash that
    was recorded for it is not parsed again, and the fetch makes no [Add]
    call and leaves the stored last-observed values as they were. AWS: when
    the hash of the selected object is the stored [ReportHash], [Query]
    returns at once with the source unchanged, whatever the object holds;
    and after a [Query] without error, a second [Query] over the same
    listing does so. GCP: when the hash cached in the slot of an object is
    its MD5, [getReportFile] returns with the source unchanged, whatever the
    object holds. *)
Theorem unchanged_hash_is_not_parsed_again :
  (forall ParseFloat env a contents billingObject,
     AWS.ListObjects env (AWS.RootAccountID env a +:+ "-aws-billing-csv-") = Some contents ->
     AWS.selectObject (AWS.RootAccountID env a +:+ "-aws-billing-csv-") None contents
       = Returns (Some billingObject) ->
     AWS.ReportHash a = AWS.ETag billingObject ->
     AWS.Query ParseFloat env a = Returns (None, [], a))
  /\ (forall ParseFloat ParseFloat' env env' a adds a',
        AWS.Query ParseFloat env a = Returns (None, adds, a') ->
        AWS.CallerAccount env' = AWS.CallerAccount env ->
        (forall prefix, AWS.ListObjects env' prefix = AWS.ListObjects env prefix) ->
        AWS.Query ParseFloat' env' a' = Returns (None, [], a'))
  /\ (forall ParseFloat env g o i,
        (8 <= String.length (GCP.Name o))%nat ->
        Atoi (sequenceChars (GCP.Name o)) = Some i ->
        1 <= i <= Z.of_nat GCP.ReportsPerMonth ->
        GCP.Hash (GCP.Reports g !!! Z.to_nat (i - 1)) = GCP.MD5 o ->
        GCP.getReportFile ParseFloat env g o = Returns g).
Proof.
  split; [|split].
  - intros. now apply aws_Query_cached with contents billingObject.
  - intros ParseFloat ParseFloat' env env' a adds a' Hrun Hcaller Hlist.
    assert (Hroot : forall b, AWS.rootAccountID b = AWS.rootAccountID a ->
                              AWS.RootAccountID env' b = AWS.RootAccountID env a).
    { intros b Hb. unfold AWS.RootAccountID. now rewrite Hb, Hcaller. }
    unfold AWS.Query in Hrun.
    destruct (AWS.ListObjects env _) as [contents|] eqn:Hcontents; [|discriminate].
    destruct (AWS.selectObject _ None contents) as [[billingObject|]|] eqn:Hselect;
      [| discriminate | discriminate].
    destruct (AWS.ReportHash a =? AWS.ETag billingObject)%string eqn:Hhash.
    + injection Hrun as _ <-. apply String.eqb_eq in Hhash.
      apply aws_Query_cached with contents billingObject;
        rewrite ?Hlist, ?(Hroot a eq_refl); assumption.
    + destruct (AWS.GetObject env _) as [content|]; [|discriminate].
      destruct (AWS.readCSV ParseFloat _) as [[billingElements|]|];
        [| discriminate | discriminate].
      destruct (AWS.CloseFails content); [discriminate|].
      destruct (AWS.reconcile env (a, []) billingElements) as [a1 adds1] eqn:Hpass.
      injection Hrun as _ <-.
      apply aws_reconcile_keeps_source in Hpass.
      assert (Hr : AWS.RootAccountID env' (AWS.set_ReportHash a1 (AWS.ETag billingObject))
                   = AWS.RootAccountID env a) by (apply Hroot; exact Hpass).
      apply aws_Query_cached with contents billingObject.
      * now rewrite Hlist, Hr.
      * now rewrite Hr.
      * reflexivity.
  - intros ParseFloat env g o i Hlen Hseq Hrange Hhash.
    unfold GCP.getReportFile. unfold sequenceChars in Hseq.
    destruct (Nat.ltb_spec (String.length (GCP.Name o)) 8); [lia|].
    rewrite Hseq.
    destruct (Z.leb_spec 0 (i - 1)); [|lia].
    destruct (Z.ltb_spec (i - 1) (Z.of_nat GCP.ReportsPerMonth)); [|lia].
    simpl. now rewrite Hhash, bool_decide_eq_true_2.
Qed.

Lemma unchanged_hash_is_not_parsed_again_witness :
  match AWS.Query ParseDecimal (Examples.awsEnv "etag-2" "80") (Examples.awsSource "etag-1" ∅) with
  | Returns (None, _, a') =>
      AWS.Query ParseDecimal (Examples.awsEnv "etag-2" "95") a' = Returns (None, [], a')
  | _ => False
  end.
Proof.
  destruct (AWS.Query ParseDecimal (Examples.awsEnv "etag-2" "80") (Examples.awsSource "etag-1" ∅))
    as [[[[err|] adds] a']|] eqn:Hrun;
    [vm_compute in Hrun; discriminate | | vm_compute in Hrun; discriminate].
  apply (proj1 (proj2 unchanged_hash_is_not_parsed_again)
           ParseDecimal ParseDecimal (Examples.awsEnv "etag-2" "80")
           (Examples.awsEnv "etag-2" "95") (Examples.awsSource "etag-1" ∅) adds a' Hrun).
  - reflexivity.
  - intros prefix. reflexivity.
Defined.

(** The GCP fetcher on a concrete bucket: the first fetch of an object
    parses it into its slot and records its hash, the second fetch of the
    same object leaves the source as it is, also when the bucket would now
    hand out other content. *)
Lemma gcp_getReportFile_twice :
  let o := Examples.gcpObject "prefix-2017-01-02.json" [Byte.x4a; Byte.x10] in
  match GCP.getReportFile ParseDecimal (Examples.gcpEnv [o]) Examples.gcpSource o with
  | Returns g =>
      GCP.Hash (GCP.Reports g !!! 1%nat) = Some [Byte.x4a; Byte.x10]
      /\ List.length (GCP.Elements (GCP.Reports g !!! 1%nat)) = 1%nat
      /\ GCP.getReportFile ParseDecimal (Examples.gcpEnv []) g o = Returns g
  | Panics => False
  end.
Proof. vm_compute. repeat split. Qed.

(** Sequence-number characters that are an integer outside 1..32 are not a
    parse failure: the slot index is out of range and the call panics. *)
Lemma gcp_getReportFile_slot_out_of_range :
  reportKeyFails (Examples.gcpObject "prefix-2017-01-00.json" []) = false
  /\ GCP.getReportFile ParseDecimal (Examples.gcpEnv []) Examples.gcpSource
       (Examples.gcpObject "prefix-2017-01-00.json" []) = Panics
  /\ reportKeyFails (Examples.gcpObject "prefix-2017-01-xx.json" []) = true
  /\ reportKeyFails (Examples.gcpObject "a.json" []) = true.
Proof. vm_compute. repeat split. Qed.

(** ** Account names *)

Lemma org_refreshAPI_override (dir : AWSOrg.Directory) (fuel : nat)
    (a a1 : AWSOrg.AWSBilling) :
  AWSOrg.refreshAPI dir fuel a = Some (AWSOrg.Value a1) ->
  AWSOrg.accountNameByIDOverride a1 = AWSOrg.accountNameByIDOverride a.
Proof.
  unfold AWSOrg.refreshAPI. intros H.
  destruct (_ || _); [|now injection H as <-].
  destruct (AWSOrg.getAccountNameByIDAPI dir a fuel) as [[m| |]|];
    try discriminate; now injection H as <-.
Qed.





(** ** Ancestor paths *)

Lemma gcp_path_step (fuel : nat) (r : GCP.resourcesMetadata) (e : GCP.resourceMetadata) :
  GCP.path (S fuel) r e
  = if negb (GCP.parent e =? EmptyString)%string
    then match GCP.metadataByID r !! GCP.parent e with
         | Some p =>
             match GCP.path fuel r p with
             | Some above => Some (above ++ [GCP.displayName p])
             | None => None
             end
         | None => Some []
         end
    else Some [].
Proof. reflexivity. Qed.

Section GCPPaths.

Variable r : GCP.resourcesMetadata.

Lemma gcp_path_root (fuel : nat) (e : GCP.resourceMetadata) :
  GCP.parent e = EmptyString -> GCP.path (S fuel) r e = Some [].
Proof. intros H. simpl. now rewrite H. Qed.

Lemma gcp_path_missing_parent (fuel : nat) (e : GCP.resourceMetadata) :
  GCP.metadataByID r !! GCP.parent e = None -> GCP.path (S fuel) r e = Some [].
Proof. intros H. simpl. rewrite H. now destruct (negb _). Qed.

(** Parent links without a cycle: a measure that decreases from every entry
    to its parent entry. *)
Variable rank : string -> nat.
Hypothesis rank_decreases :
  forall k e, GCP.metadataByID r !! k = Some e ->
              is_Some (GCP.metadataByID r !! GCP.parent e) ->
              (rank (GCP.parent e) < rank k)%nat.

Lemma gcp_path_of_entry (fuel : nat) :
  forall k e, GCP.metadataByID r !! k = Some e -> (rank k < fuel)%nat ->
              exists names, GCP.path fuel r e = Some names.
Proof.
  induction fuel as [|fuel IH]; intros k e Hk Hfuel; [lia|].
  rewrite gcp_path_step.
  destruct (negb (GCP.parent e =? EmptyString)%string); [|now exists []].
  destruct (GCP.metadataByID r !! GCP.parent e) as [p|] eqn:Hp; [|now exists []].
  destruct (IH (GCP.parent e) p Hp) as [names Hnames].
  - pose proof (rank_decreases k e Hk) as Hlt. rewrite Hp in Hlt.
    specialize (Hlt (ex_intro _ p eq_refl)). lia.
  - rewrite Hnames. eexists. reflexivity.
Qed.

Lemma gcp_path_terminates (e : GCP.resourceMetadata) :
  exists fuel names, GCP.path fuel r e = Some names.
Proof.
  destruct (GCP.metadataByID r !! GCP.parent e) as [p|] eqn:Hp.
  - destruct (gcp_path_of_entry (S (rank (GCP.parent e))) (GCP.parent e) p Hp) as [names Hnames];
      [lia|].
    exists (S (S (rank (GCP.parent e)))).
    rewrite gcp_path_step, Hp, Hnames.
    destruct (negb _); eexists; reflexivity.
  - exists 1%nat, []. now apply gcp_path_missing_parent.
Qed.

End GCPPaths.

Lemma gcp_path_cycle (fuel : nat) :
  GCP.path fuel Examples.cyclicMetadata (Examples.folder "folders/1" "team" "folders/2") = None
  /\ GCP.path fuel Examples.cyclicMetadata
       (Examples.folder "folders/2" "department" "folders/1") = None.
Proof.
  induction fuel as [|fuel [IH1 IH2]]; [split; reflexivity|].
  split; rewrite gcp_path_step.
  - change (GCP.metadataByID Examples.cyclicMetadata
              !! GCP.parent (Examples.folder "folders/1" "team" "folders/2"))
      with (Some (Examples.folder "folders/2" "department" "folders/1")).
    cbv beta iota. rewrite IH2. reflexivity.
  - change (GCP.metadataByID Examples.cyclicMetadata
              !! GCP.parent (Examples.folder "folders/2" "department" "folders/1"))
      with (Some (Examples.folder "folders/1" "team" "folders/2")).
    cbv beta iota. rewrite IH1. reflexivity.
Qed.

Section AWSPaths.

Variable dir : AWSOrg.Directory.
Variable rank : string -> nat.
Hypothesis Hdir : acyclicDirectory rank dir.

Lemma describeParent_value (parentID : string) (parent : AWSOrg.Account) :
  AWSOrg.describeParent dir parentID = AWSOrg.Value parent ->
  AWSOrg.ID parent = parentID /\ AWSOrg.Parent parent = EmptyString.
Proof.
  unfold AWSOrg.describeParent. intros H.
  destruct (HasPrefix parentID "r-").
  - destruct (AWSOrg.MasterAccountEmail dir) as [email|]; [|discriminate].
    destruct (Split email "@") as [|? [|domain ?]]; try discriminate.
    now injection H as <-.
  - destruct (HasPrefix parentID "ou-"); [|discriminate].
    destruct (AWSOrg.OrganizationalUnit dir parentID) as [[unitID unitName]|] eqn:Hunit;
      [|discriminate].
    injection H as <-. split; [|reflexivity].
    simpl. now apply (proj2 Hdir) in Hunit.
Qed.

Lemma acyclicMap_insert (m : gmap string AWSOrg.Account) (k : string) (ac : AWSOrg.Account) :
  acyclicMap rank m -> AWSOrg.ID ac = k -> acyclicAccount rank ac ->
  acyclicMap rank (<[k := ac]> m).
Proof.
  intros Hm Hid Hac k' ac' Hlook.
  rewrite lookup_insert in Hlook. destruct (decide (k = k')) as [<- | Hne].
  - injection Hlook as <-. now split.
  - now apply Hm.
Qed.

Lemma is_Some_insert_mono (m : gmap string AWSOrg.Account) (k k' : string) (ac : AWSOrg.Account) :
  is_Some (m !! k') -> is_Some (<[k := ac]> m !! k').
Proof.
  intros H. rewrite lookup_insert. now destruct (decide (k = k')).
Qed.

Lemma walked_intro (ac ac' : AWSOrg.Account) (m m' : gmap string AWSOrg.Account)
    (res : AWSOrg.run (list string)) :
  acyclicMap rank m' -> acyclicAccount rank ac' -> AWSOrg.ID ac' = AWSOrg.ID ac ->
  (forall k, is_Some (m !! k) -> is_Some (m' !! k)) ->
  walked rank ac m (Some (res, ac', m')).
Proof. intros. exists res, ac', m'. auto. Qed.

Lemma knownParent_known (ac ac1 : AWSOrg.Account) (home : option string)
    (m m1 : gmap string AWSOrg.Account) :
  acyclicMap rank m -> acyclicAccount rank ac ->
  home = None \/ home = Some (AWSOrg.ID ac) ->
  AWSOrg.knownParent dir ac home m = inl (ac1, m1) ->
  acyclicMap rank m1 /\ AWSOrg.ID ac1 = AWSOrg.ID ac
  /\ (rank (AWSOrg.Parent ac1) < rank (AWSOrg.ID ac1))%nat
  /\ (forall k, is_Some (m !! k) -> is_Some (m1 !! k)).
Proof.
  intros Hm Hac Hhome. unfold AWSOrg.knownParent.
  destruct (String.eqb_spec (AWSOrg.Parent ac) EmptyString) as [Hempty | Hknown].
  - destruct (AWSOrg.ListParents dir (AWSOrg.ID ac)) as [[|p [|q ps]]|] eqn:Hparents;
      try discriminate.
    intros H. injection H as <- <-.
    assert (Hrank : (rank p < rank (AWSOrg.ID ac))%nat) by now apply (proj1 Hdir).
    split; [|split; [reflexivity | split; [exact Hrank|]]].
    + destruct Hhome as [-> | ->]; [assumption|].
      apply acyclicMap_insert; [assumption | reflexivity | now right].
    + intros k Hk. destruct home; [now apply is_Some_insert_mono | assumption].
  - intros H. injection H as <- <-.
    destruct Hac as [Hac | Hac]; [contradiction|]. auto.
Qed.

Lemma findParent_found (ac1 parent : AWSOrg.Account) (parentHome : string)
    (m1 m2 : gmap string AWSOrg.Account) :
  acyclicMap rank m1 ->
  AWSOrg.findParent dir ac1 m1 = AWSOrg.Value (parent, parentHome, m2) ->
  acyclicMap rank m2 /\ parentHome = AWSOrg.ID parent
  /\ AWSOrg.ID parent = AWSOrg.Parent ac1 /\ acyclicAccount rank parent
  /\ (forall k, is_Some (m1 !! k) -> is_Some (m2 !! k)).
Proof.
  intros Hm1. unfold AWSOrg.findParent.
  destruct (m1 !! AWSOrg.Parent ac1) as [p|] eqn:Hlook.
  - intros H. injection H as <- <- <-.
    destruct (Hm1 _ _ Hlook) as [Hid Hp]. auto.
  - destruct (AWSOrg.describeParent dir (AWSOrg.Parent ac1)) as [p| |] eqn:Hdesc;
      try discriminate.
    intros H. injection H as <- <- <-.
    destruct (describeParent_value _ _ Hdesc) as [Hid Hparent].
    assert (Hp : acyclicAccount rank p) by now left.
    split; [now apply acyclicMap_insert|]. repeat split; auto.
    intros k Hk. now apply is_Some_insert_mono.
Qed.

Lemma getAccountPath_returns (fuel : nat) :
  forall ac home m,
    (rank (AWSOrg.ID ac) < fuel)%nat ->
    acyclicMap rank m -> acyclicAccount rank ac ->
    home = None \/ home = Some (AWSOrg.ID ac) ->
    walked rank ac m (AWSOrg.getAccountPath dir fuel ac home m).
Proof.
  induction fuel as [|fuel IH]; intros ac home m Hfuel Hm Hac Hhome; [lia|].
  assert (Hbody : walked rank ac m
    match AWSOrg.knownParent dir ac home m with
    | inr early => Some (early, ac, m)
    | inl (ac, accountMap) =>
        match AWSOrg.findParent dir ac accountMap with
        | AWSOrg.Error => Some (AWSOrg.Error, ac, accountMap)
        | AWSOrg.Panic => Some (AWSOrg.Panic, ac, accountMap)
        | AWSOrg.Value (parent, parentHome, accountMap) =>
            match AWSOrg.getAccountPath dir fuel parent (Some parentHome) accountMap with
            | None => None
            | Some (AWSOrg.Value result, _, accountMap) =>
                Some (AWSOrg.Value (result ++ [AWSOrg.Name parent]), ac, accountMap)
            | Some (AWSOrg.Error, _, accountMap) => Some (AWSOrg.Error, ac, accountMap)
            | Some (AWSOrg.Panic, _, accountMap) => Some (AWSOrg.Panic, ac, accountMap)
            end
        end
    end).
  { destruct (AWSOrg.knownParent dir ac home m) as [[ac1 m1]|early] eqn:Hknown;
      [|now apply walked_intro].
    destruct (knownParent_known _ _ _ _ _ Hm Hac Hhome Hknown)
      as (Hm1 & Hid1 & Hrank1 & Hmono1).
    assert (Hac1 : acyclicAccount rank ac1) by now right.
    destruct (AWSOrg.findParent dir ac1 m1) as [[[parent parentHome] m2]| |] eqn:Hfind;
      [|now apply walked_intro | now apply walked_intro].
    destruct (findParent_found _ _ _ _ _ Hm1 Hfind) as (Hm2 & -> & Hpid & Hp & Hmono2).
    destruct (IH parent (Some (AWSOrg.ID parent)) m2)
      as (res & p' & m' & -> & Hm' & _ & _ & Hmono');
      [rewrite Hpid; rewrite Hid1 in Hrank1; lia | assumption | assumption | now right |].
    destruct res as [result| |]; apply walked_intro; auto. }
  cbn [AWSOrg.getAccountPath].
  destruct (AWSOrg.Type_ ac); [exact Hbody | exact Hbody | now apply walked_intro].
Qed.

Variable a : AWSOrg.AWSBilling.

Lemma applyTags_keep (tags : list (string * string)) :
  forall ac,
    AWSOrg.ID (fold_left (AWSOrg.applyTag a) tags ac) = AWSOrg.ID ac
    /\ AWSOrg.Parent (fold_left (AWSOrg.applyTag a) tags ac) = AWSOrg.Parent ac.
Proof.
  induction tags as [|tag tags IH]; intros ac; [now split|].
  cbn [fold_left]. destruct (IH (AWSOrg.applyTag a ac tag)) as [-> ->].
  unfold AWSOrg.applyTag.
  destruct (fst tag =? AWSOrg.ProjectIDTag a)%string;
    destruct (fst tag =? AWSOrg.OwnerTag a)%string; now split.
Qed.

Lemma ingestAccount_returns (fuel : nat) (m : gmap string AWSOrg.Account)
    (account : string * string) :
  (rank (fst account) < fuel)%nat ->
  acyclicMap rank m ->
  ingested rank (fst account) m (AWSOrg.ingestAccount dir a fuel m account).
Proof.
  intros Hfuel Hm. unfold AWSOrg.ingestAccount.
  set (ac := fold_left (AWSOrg.applyTag a) (AWSOrg.Tags dir (fst account))
               (AWSOrg.set_Name (AWSOrg.newAccount (fst account)) (snd account))).
  destruct (applyTags_keep (AWSOrg.Tags dir (fst account))
              (AWSOrg.set_Name (AWSOrg.newAccount (fst account)) (snd account)))
    as [Hid Hparent].
  fold ac in Hid, Hparent. simpl in Hid, Hparent.
  destruct (getAccountPath_returns fuel ac None m) as (res & ac' & m' & -> & Hm' & Hac' & Hid' & Hmono);
    [rewrite Hid; exact Hfuel | exact Hm | now left | now left |].
  rewrite Hid in Hid'.
  destruct res as [path| |]; [right | right | now left].
  - eexists. split; [reflexivity|]. simpl. rewrite Hid'. split; [|split].
    + apply acyclicMap_insert; [exact Hm' | exact Hid' | exact Hac'].
    + rewrite lookup_insert_eq. eauto.
    + intros k Hk. now apply is_Some_insert_mono, Hmono.
  - eexists. split; [reflexivity|]. rewrite Hid'. split; [|split].
    + apply acyclicMap_insert; [exact Hm' | exact Hid' | exact Hac'].
    + rewrite lookup_insert_eq. eauto.
    + intros k Hk. now apply is_Some_insert_mono, Hmono.
Qed.

Lemma ingestAccounts_returns (fuel : nat) (accounts : list (string * string)) :
  forall m,
    Forall (fun account => (rank (fst account) < fuel)%nat) accounts ->
    acyclicMap rank m ->
    AWSOrg.ingestAccounts dir a fuel m accounts = Some AWSOrg.Panic
    \/ exists m',
         AWSOrg.ingestAccounts dir a fuel m accounts = Some (AWSOrg.Value m')
         /\ Forall (fun account => is_Some (m' !! fst account)) accounts
         /\ (forall k, is_Some (m !! k) -> is_Some (m' !! k)).
Proof.
  induction accounts as [|account rest IH]; intros m Hfuel Hm.
  - right. exists m. auto.
  - apply Forall_cons in Hfuel as [Hone Hrest].
    cbn [AWSOrg.ingestAccounts].
    destruct (ingestAccount_returns fuel m account Hone Hm)
      as [-> | (m1 & -> & Hm1 & Hin & Hmono)]; [now left|].
    destruct (IH m1 Hrest Hm1) as [-> | (m' & -> & Hall & Hmono')]; [now left|].
    right. exists m'. split; [reflexivity|]. split; [|auto].
    apply Forall_cons. split; [now apply Hmono' | exact Hall].
Qed.

Lemma ranks_bounded (accounts : list (string * string)) :
  exists fuel, Forall (fun account => (rank (fst account) < fuel)%nat) accounts.
Proof.
  induction accounts as [|account rest [fuel IH]].
  - exists 0%nat. constructor.
  - exists (S (Nat.max fuel (rank (fst account)))). apply Forall_cons. split; [lia|].
    eapply Forall_impl; [exact IH|]. simpl. intros; lia.
Qed.

Lemma getAccountNameByIDAPI_returns :
  exists fuel res,
    AWSOrg.getAccountNameByIDAPI dir a fuel = Some res
    /\ (res = AWSOrg.Error ->
        AWSOrg.SessionFails dir = true \/ AWSOrg.ListAccountsFails dir = true)
    /\ (forall m, res = AWSOrg.Value m ->
          Forall (fun account => is_Some (m !! fst account)) (AWSOrg.Accounts dir)).
Proof.
  destruct (ranks_bounded (AWSOrg.Accounts dir)) as [fuel Hfuel].
  exists fuel. unfold AWSOrg.getAccountNameByIDAPI.
  destruct (AWSOrg.SessionFails dir) eqn:Hsession.
  - eexists. split; [reflexivity|]. split; [auto | discriminate].
  - destruct (ingestAccounts_returns fuel (AWSOrg.Accounts dir) ∅ Hfuel)
      as [-> | (m' & -> & Hall & _)].
    + intros k ac Hk. now rewrite lookup_empty in Hk.
    + eexists. split; [reflexivity|]. split; discriminate.
    + destruct (AWSOrg.ListAccountsFails dir) eqn:Hlist;
        (eexists; split; [reflexivity|]; split; [auto|]).
      * discriminate.
      * discriminate.
      * intros m Heq. now injection Heq as <-.
Qed.

End AWSPaths.

Lemma getAccountPath_follows_parent (dir : AWSOrg.Directory) (fuel : nat)
    (ac ac1 parent : AWSOrg.Account) (home : option string) (parentHome : string)
    (m m1 m2 : gmap string AWSOrg.Account) :
  AWSOrg.Type_ ac <> AWSOrg.AccountTypeOrganization ->
  AWSOrg.knownParent dir ac home m = inl (ac1, m1) ->
  AWSOrg.findParent dir ac1 m1 = AWSOrg.Value (parent, parentHome, m2) ->
  AWSOrg.getAccountPath dir fuel parent (Some parentHome) m2 = None ->
  AWSOrg.getAccountPath dir (S fuel) ac home m = None.
Proof.
  intros Htype Hknown Hfind Hrec. cbn [AWSOrg.getAccountPath].
  destruct (AWSOrg.Type_ ac); try contradiction; now rewrite Hknown, Hfind, Hrec.
Qed.

Lemma getAccountPath_cycle (fuel : nat) :
  forall m home,
    m !! "ou-a" = Some Examples.unitA -> m !! "ou-b" = Some Examples.unitB ->
    AWSOrg.getAccountPath Examples.cyclicOrganization fuel Examples.unitA home m = None
    /\ AWSOrg.getAccountPath Examples.cyclicOrganization fuel Examples.unitB home m = None.
Proof.
  induction fuel as [|fuel IH]; intros m home Ha Hb; [split; reflexivity|].
  split.
  - apply getAccountPath_follows_parent with Examples.unitA Examples.unitB "ou-b" m m;
      [discriminate | reflexivity | | now apply IH].
    unfold AWSOrg.findParent. cbn [AWSOrg.Parent Examples.unitA]. now rewrite Hb.
  - apply getAccountPath_follows_parent with Examples.unitB Examples.unitA "ou-a" m m;
      [discriminate | reflexivity | | now apply IH].
    unfold AWSOrg.findParent. cbn [AWSOrg.Parent Examples.unitB]. now rewrite Ha.
Qed.

Lemma getAccountPath_cyclicOrganization (fuel : nat) :
  AWSOrg.getAccountPath Examples.cyclicOrganization fuel
    (AWSOrg.set_Name (AWSOrg.newAccount "111") "legacy-name") None ∅ = None.
Proof.
  destruct fuel as [|[|[|fuel]]]; try reflexivity.
  eapply getAccountPath_follows_parent;
    [discriminate | vm_compute; reflexivity | vm_compute; reflexivity |].
  eapply getAccountPath_follows_parent;
    [discriminate | vm_compute; reflexivity | vm_compute; reflexivity |].
  eapply getAccountPath_follows_parent;
    [discriminate | vm_compute; reflexivity | vm_compute; reflexivity |].
  apply (getAccountPath_cycle fuel); vm_compute; reflexivity.
Qed.

Lemma getAccountNameByIDAPI_cyclicOrganization (a : AWSOrg.AWSBilling) (fuel : nat) :
  AWSOrg.getAccountNameByIDAPI Examples.cyclicOrganization a fuel = None.
Proof.
  unfold AWSOrg.getAccountNameByIDAPI, AWSOrg.ingestAccounts, AWSOrg.ingestAccount.
  cbn [AWSOrg.SessionFails AWSOrg.Accounts AWSOrg.Tags Examples.cyclicOrganization
       fold_left fst snd].
  now rewrite getAccountPath_cyclicOrganization.
Qed.


Lemma organization_acyclic :
  acyclicDirectory Examples.depth Examples.organization.
Proof.
  split.
  - intros child p H. unfold Examples.organization in H. simpl in H.
    destruct (String.eqb_spec child "111") as [-> | _].
    + injection H as <-. vm_compute. lia.
    + destruct (String.eqb_spec child "ou-dev") as [-> | _].
      * injection H as <-. vm_compute. lia.
      * discriminate H.
  - intros p unitID unitName H. simpl in H. now injection H as <- _.
Qed.



(** The walks on concrete data: the path of a project in a tree, and a
    refresh in which the parents of one account cannot be listed. *)
Lemma gcp_path_treeMetadata :
  GCP.path 4 Examples.treeMetadata (Examples.folder "projects/42" "demo-1" "folders/1")
  = Some ["example.com"; "department"; "team"].
Proof. reflexivity. Qed.

Lemma refresh_continues_after_failed_path :
  exists m account111 account222,
    AWSOrg.getAccountNameByIDAPI Examples.partlyBrokenOrganization
      (Examples.orgSource ∅) 3 = Some (AWSOrg.Value m)
    /\ m !! "111" = Some account111 /\ AWSOrg.Path account111 = EmptyString
    /\ m !! "222" = Some account222
    /\ AWSOrg.Path account222 = "example.com/development".
Proof.
  eexists. eexists. eexists. split; [vm_compute; reflexivity|].
  split; [vm_compute; reflexivity|]. split; [reflexivity|].
  split; [vm_compute; reflexivity|]. reflexivity.
Qed.

(** * Further properties *)

(** ** Grouping by key *)

Lemma firstSeen_snoc (keys : list string) (k : string) :
  firstSeen (keys ++ [k]) = if decide (k ∈ keys) then firstSeen keys else firstSeen keys ++ [k].
Proof.
  unfold firstSeen. rewrite reverse_snoc. simpl.
  destruct (decide_rel elem_of k (reverse keys)) as [Hin | Hnin];
    destruct (decide (k ∈ keys)) as [Hin' | Hnin']; try reflexivity.
  - exfalso. apply Hnin'. now apply elem_of_reverse.
  - exfalso. apply Hnin. now apply elem_of_reverse.
  - now rewrite reverse_cons.
Qed.

Lemma elem_of_firstSeen (keys : list string) (k : string) :
  k ∈ firstSeen keys <-> k ∈ keys.
Proof. unfold firstSeen. now rewrite elem_of_reverse, elem_of_remove_dups, elem_of_reverse. Qed.

Lemma NoDup_firstSeen (keys : list string) : NoDup (firstSeen keys).
Proof. unfold firstSeen. rewrite reverse_Permutation. apply NoDup_remove_dups. Qed.

Section ReducerInvariant.

Context {E : Type}.
Variable key : E -> string.
Variable mk : E -> E.
Variable add : E -> E -> E.
Variable step : gmap string nat * list E -> E -> gmap string nat * list E.
Hypothesis step_eq :
  forall keyMap out x,
    step (keyMap, out) x
    = match keyMap !! key x with
      | None => (<[key x := List.length out]> keyMap, out ++ [mk x])
      | Some i => (keyMap, alter (fun e => add e x) i out)
      end.

Lemma groupOf_snoc (k : string) (items : list E) (x : E) :
  groupOf key mk add k (items ++ [x])
  = if decide (key x = k)
    then Some (from_option (fun e => add e x) (mk x) (groupOf key mk add k items))
    else groupOf key mk add k items.
Proof.
  unfold groupOf. rewrite List.filter_app. simpl.
  destruct (String.eqb_spec (key x) k) as [Hk | Hk];
    destruct (decide (key x = k)); try contradiction.
  - destruct (List.filter _ items) as [|y rest]; [reflexivity|].
    simpl. now rewrite fold_left_app.
  - now rewrite app_nil_r.
Qed.

Lemma reduced_step (done : list E) (st : gmap string nat * list E) (x : E) :
  reduced key mk add done st -> reduced key mk add (done ++ [x]) (step st x).
Proof.
  destruct st as [keyMap out]. intros [Hmap Hout]. simpl in Hmap, Hout.
  assert (Hlen : List.length out = List.length (firstSeen (map key done))).
  { apply (f_equal List.length) in Hout. now rewrite !length_fmap in Hout. }
  unfold reduced. rewrite step_eq, map_app. simpl. rewrite firstSeen_snoc.
  destruct (keyMap !! key x) as [i|] eqn:Hkey.
  - pose proof (proj1 (Hmap _ _) Hkey) as Hi.
    rewrite decide_True
      by (apply elem_of_firstSeen; eapply list_elem_of_lookup_2; exact Hi).
    split; [exact Hmap|]. simpl.
    apply list_eq. intros j.
    rewrite !list_lookup_fmap.
    destruct (decide (i = j)) as [<- | Hne].
    + rewrite list_lookup_alter_eq, Hi. simpl.
      rewrite groupOf_snoc, decide_True by reflexivity.
      apply (f_equal (fun l => l !! i)) in Hout.
      rewrite !list_lookup_fmap, Hi in Hout. simpl in Hout.
      destruct (out !! i) as [e|]; [|discriminate].
      simpl in Hout. injection Hout as <-. reflexivity.
    + rewrite list_lookup_alter_ne by exact Hne.
      apply (f_equal (fun l => l !! j)) in Hout.
      rewrite !list_lookup_fmap in Hout. rewrite Hout.
      destruct (firstSeen (map key done) !! j) as [k|] eqn:Hj; [|reflexivity].
      simpl. rewrite groupOf_snoc, decide_False; [reflexivity|].
      intros <-. apply Hne.
      eapply NoDup_lookup; [apply NoDup_firstSeen | exact Hi | exact Hj].
  - assert (Hnew : key x ∉ map key done).
    { intros Hin. apply elem_of_firstSeen, list_elem_of_lookup in Hin as [i Hi].
      apply Hmap in Hi. congruence. }
    rewrite decide_False by exact Hnew.
    split; simpl.
    + intros k i. rewrite lookup_insert.
      destruct (decide (key x = k)) as [<- | Hne].
      * split.
        -- intros H. injection H as <-. rewrite Hlen.
           now rewrite lookup_app_r, Nat.sub_diag by lia.
        -- intros H. f_equal.
           destruct (lookup_app_Some (firstSeen (map key done)) [key x] i (key x)) as [Happ _].
           destruct (Happ H) as [Hl | [Hge Hr]].
           ++ exfalso. apply Hnew, elem_of_firstSeen. eapply list_elem_of_lookup_2; exact Hl.
           ++ apply list_lookup_singleton_Some in Hr as [Hz _]. lia.
      * rewrite Hmap. split.
        -- intros H. now apply lookup_app_l_Some.
        -- intros H. apply lookup_app_Some in H as [Hl | [_ Hr]]; [exact Hl|].
           apply list_lookup_singleton_Some in Hr as [_ Hr]. congruence.
    + rewrite !fmap_app. simpl.
      rewrite groupOf_snoc, decide_True by reflexivity.
      assert (Hnone : groupOf key mk add (key x) done = None).
      { unfold groupOf.
        assert (Hf : List.filter (fun y => String.eqb (key y) (key x)) done = []).
        { clear -Hnew. induction done as [|y done IH]; [reflexivity|].
          simpl. simpl in Hnew.
          destruct (String.eqb_spec (key y) (key x)) as [Heq | Hne].
          - exfalso. apply Hnew. rewrite Heq. left.
          - apply IH. intros Hin. apply Hnew. now right. }
        now rewrite Hf. }
      rewrite Hnone. simpl. rewrite Hout. f_equal.
      apply list_fmap_ext. intros j k Hj.
      rewrite groupOf_snoc, decide_False; [reflexivity|].
      intros Heq. apply Hnew. rewrite Heq. apply elem_of_firstSeen.
      eapply list_elem_of_lookup_2; exact Hj.
Qed.

Lemma reduced_fold (items : list E) :
  forall done st, reduced key mk add done st -> reduced key mk add (done ++ items) (fold_left step items st).
Proof.
  induction items as [|x items IH]; intros done st Hst.
  - now rewrite app_nil_r.
  - simpl. replace (done ++ x :: items) with ((done ++ [x]) ++ items)
      by now rewrite <- app_assoc.
    apply IH. now apply reduced_step.
Qed.

Lemma reduced_all (items : list E) :
  Some <$> (fold_left step items (∅, [])).2
  = (fun k => groupOf key mk add k items) <$> firstSeen (map key items).
Proof.
  destruct (reduced_fold items [] (∅, [])) as [_ H]; [|exact H].
  split; [|reflexivity]. intros k i.
  change ((∅ : gmap string nat) !! k = Some i <-> (@nil string) !! i = Some k).
  rewrite lookup_empty, lookup_nil. split; discriminate.
Qed.

Lemma reduced_lookup (items : list E) (i : nat) (e : E) :
  (fold_left step items (∅, [])).2 !! i = Some e
  <-> exists k, firstSeen (map key items) !! i = Some k
                /\ groupOf key mk add k items = Some e.
Proof.
  pose proof (f_equal (fun l => l !! i) (reduced_all items)) as H. simpl in H.
  rewrite !list_lookup_fmap in H.
  destruct ((fold_left step items (∅, [])).2 !! i) as [e'|];
    destruct (firstSeen (map key items) !! i) as [k|]; simpl in H; try discriminate.
  - injection H as H. split.
    + intros Heq. injection Heq as <-. now exists k.
    + intros (k' & Hk & Hg). injection Hk as <-. congruence.
  - split; [discriminate|]. intros (k & Hk & _). discriminate.
Qed.

Lemma reduced_length (items : list E) :
  List.length (fold_left step items (∅, [])).2
  = List.length (firstSeen (map key items)).
Proof.
  pose proof (f_equal List.length (reduced_all items)) as H.
  now rewrite !length_fmap in H.
Qed.

(** What the items are worth and what a group is worth. *)
Variable worth : E -> Q.
Variable value : E -> Q.
Hypothesis value_mk : forall x, (value (mk x) == worth x)%Q.
Hypothesis value_add : forall e x, (value (add e x) == value e + worth x)%Q.

Lemma total_app (l1 l2 : list Q) : (total (l1 ++ l2) == total l1 + total l2)%Q.
Proof.
  unfold total. induction l1 as [|q l1 IH]; simpl; [ring|]. rewrite IH. ring.
Qed.

Lemma total_singleton (q : Q) : (total [q] == q)%Q.
Proof. unfold total. simpl. ring. Qed.

Lemma total_cons (q : Q) (l : list Q) : (total (q :: l) == q + total l)%Q.
Proof. reflexivity. Qed.

Lemma total_alter (out : list E) (i : nat) (e x : E) :
  out !! i = Some e ->
  (total (value <$> alter (fun e => add e x) i out) == total (value <$> out) + worth x)%Q.
Proof.
  revert i. induction out as [|y out IH]; intros i Hi; [discriminate|].
  destruct i as [|i].
  - injection Hi as ->.
    change (total (value (add e x) :: (value <$> out))
            == total (value e :: (value <$> out)) + worth x)%Q.
    rewrite !total_cons, value_add. ring.
  - change (total (value y :: (value <$> alter (fun e => add e x) i out))
            == total (value y :: (value <$> out)) + worth x)%Q.
    rewrite !total_cons, (IH i Hi). ring.
Qed.

Lemma reduced_total (items : list E) :
  forall done st,
    reduced key mk add done st ->
    (total (value <$> st.2) == total (worth <$> done))%Q ->
    (total (value <$> (fold_left step items st).2) == total (worth <$> (done ++ items)))%Q.
Proof.
  induction items as [|x items IH]; intros done st Hst Hsum.
  - now rewrite app_nil_r.
  - simpl. replace (done ++ x :: items) with ((done ++ [x]) ++ items)
      by now rewrite <- app_assoc.
    apply IH; [now apply reduced_step|].
    destruct st as [keyMap out]. rewrite step_eq. simpl in *.
    rewrite fmap_app, total_app, <- Hsum.
    change (worth <$> [x]) with [worth x]. rewrite total_singleton.
    destruct (keyMap !! key x) as [i|] eqn:Hkey; simpl.
    + destruct Hst as [Hmap Hout]. simpl in *.
      apply Hmap in Hkey.
      pose proof (f_equal (fun l => l !! i) Hout) as Hi. simpl in Hi.
      rewrite !list_lookup_fmap, Hkey in Hi.
      destruct (out !! i) as [e|] eqn:He; [|discriminate].
      now rewrite (total_alter out i e x He).
    + rewrite fmap_app, total_app.
      change (value <$> [mk x]) with [value (mk x)].
      now rewrite total_singleton, value_mk.
Qed.

Lemma reduce_total (items : list E) :
  (total (value <$> (fold_left step items (∅, [])).2) == total (worth <$> items))%Q.
Proof.
  apply (reduced_total items [] (∅, [])); [|reflexivity].
  split; [|reflexivity]. intros k i.
  change ((∅ : gmap string nat) !! k = Some i <-> (@nil string) !! i = Some k).
  rewrite lookup_empty, lookup_nil. split; discriminate.
Qed.

Lemma group_value (rest : list E) :
  forall e, (value (fold_left add rest e) == value e + total (worth <$> rest))%Q.
Proof.
  induction rest as [|x rest IH]; intros e.
  - unfold total. simpl. ring.
  - change (worth <$> x :: rest) with (worth x :: (worth <$> rest)).
    cbn [fold_left]. rewrite IH, value_add, total_cons. ring.
Qed.

Lemma groupOf_value (k : string) (items : list E) (e : E) :
  groupOf key mk add k items = Some e ->
  (value e == total (worth <$> List.filter (fun x => String.eqb (key x) k) items))%Q.
Proof.
  unfold groupOf. destruct (List.filter _ items) as [|first rest]; [discriminate|].
  intros H. injection H as <-.
  change (worth <$> first :: rest) with (worth first :: (worth <$> rest)).
  now rewrite group_value, value_mk, total_cons.
Qed.

End ReducerInvariant.

Section ReducerTwice.

Context {E : Type}.
Variable key : E -> string.
Variable mk : E -> E.
Variable add : E -> E -> E.
Variable step : gmap string nat * list E -> E -> gmap string nat * list E.
Hypothesis step_eq :
  forall keyMap out x,
    step (keyMap, out) x
    = match keyMap !! key x with
      | None => (<[key x := List.length out]> keyMap, out ++ [mk x])
      | Some i => (keyMap, alter (fun e => add e x) i out)
      end.

(** The items on which a group keeps the key of its first item. *)
Variable good : E -> Prop.
Hypothesis key_mk : forall x, good x -> key (mk x) = key x.
Hypothesis key_add : forall e x, key (add e x) = key e.
Hypothesis mk_mk : forall x, good x -> mk (mk x) = mk x.
Hypothesis mk_add : forall e x, mk e = e -> mk (add e x) = add e x.

Lemma group_fixed (k : string) (items : list E) (e : E) :
  Forall good items ->
  groupOf key mk add k items = Some e ->
  key e = k /\ mk e = e.
Proof.
  intros Hgood. unfold groupOf.
  destruct (List.filter _ items) as [|first rest] eqn:Hfilter; [discriminate|].
  intros H. injection H as <-.
  assert (Hfirst : In first items /\ String.eqb (key first) k = true).
  { apply (proj1 (List.filter_In (fun x => String.eqb (key x) k) first items)).
    rewrite Hfilter. now left. }
  destruct Hfirst as [Hin Hk]. apply String.eqb_eq in Hk.
  assert (Hg : good first).
  { rewrite Forall_forall in Hgood. apply Hgood. now apply list_elem_of_In. }
  assert (Hstart : key (mk first) = k /\ mk (mk first) = mk first)
    by (split; [now rewrite key_mk | now apply mk_mk]).
  clear Hfilter. revert Hstart. generalize (mk first).
  induction rest as [|x rest IH]; intros e He; [exact He|].
  simpl. apply IH. destruct He as [Hkey Hfix].
  split; [now rewrite key_add | now apply mk_add].
Qed.

Lemma firstSeen_NoDup (keys : list string) : NoDup keys -> firstSeen keys = keys.
Proof.
  induction keys as [|k keys IH] using rev_ind; intros Hnd; [reflexivity|].
  apply NoDup_app in Hnd as (Hkeys & Hk & _).
  rewrite firstSeen_snoc, decide_False, IH; auto.
  intros Hin. apply (Hk k Hin). left.
Qed.

Lemma reduce_fixed (items : list E) :
  NoDup (map key items) -> Forall (fun e => mk e = e) items ->
  (fold_left step items (∅, [])).2 = items.
Proof.
  induction items as [|x items IH] using rev_ind; intros Hnd Hfix; [reflexivity|].
  rewrite map_app in Hnd. apply NoDup_app in Hnd as (Hitems & Hx & _).
  apply Forall_app in Hfix as [Hfix Hfx]. rewrite Forall_singleton in Hfx.
  rewrite fold_left_app. simpl.
  pose proof (reduced_fold key mk add step step_eq items [] (∅, [])) as Hinv.
  destruct (fold_left step items (∅, [])) as [keyMap out] eqn:Hfold.
  simpl in IH. rewrite step_eq.
  destruct Hinv as [Hmap _].
  { split; [|reflexivity]. intros k i.
    change ((∅ : gmap string nat) !! k = Some i <-> (@nil string) !! i = Some k).
    rewrite lookup_empty, lookup_nil. split; discriminate. }
  simpl in Hmap.
  destruct (keyMap !! key x) as [i|] eqn:Hkey.
  - exfalso. apply Hmap in Hkey. apply list_elem_of_lookup_2 in Hkey.
    rewrite elem_of_firstSeen in Hkey. apply (Hx (key x) Hkey). left.
  - simpl. now rewrite IH, Hfx.
Qed.

Lemma reduce_groups (items : list E) (i : nat) (e : E) :
  Forall good items ->
  (fold_left step items (∅, [])).2 !! i = Some e ->
  firstSeen (map key items) !! i = Some (key e) /\ mk e = e
  /\ groupOf key mk add (key e) items = Some e.
Proof.
  intros Hgood Hi.
  apply (reduced_lookup key mk add step step_eq) in Hi as (k & Hk & Hgroup).
  destruct (group_fixed k items e Hgood Hgroup) as [<- Hfix]. auto.
Qed.

Lemma reduce_keys (items : list E) :
  Forall good items ->
  key <$> (fold_left step items (∅, [])).2 = firstSeen (map key items).
Proof.
  intros Hgood. apply list_eq. intros i. rewrite list_lookup_fmap.
  destruct ((fold_left step items (∅, [])).2 !! i) as [e|] eqn:Hi.
  - now destruct (reduce_groups items i e Hgood Hi) as [-> _].
  - simpl. symmetry. apply lookup_ge_None. apply lookup_ge_None in Hi.
    now rewrite <- (reduced_length key mk add step step_eq).
Qed.

Lemma reduce_twice (items : list E) :
  Forall good items ->
  (fold_left step (fold_left step items (∅, [])).2 (∅, [])).2
  = (fold_left step items (∅, [])).2.
Proof.
  intros Hgood. apply reduce_fixed.
  - change (map key (fold_left step items (∅, [])).2)
      with (key <$> (fold_left step items (∅, [])).2).
    rewrite reduce_keys by exact Hgood. apply NoDup_firstSeen.
  - apply Forall_lookup. intros i e Hi.
    now destruct (reduce_groups items i e Hgood Hi) as (_ & ? & _).
Qed.

Lemma filter_key_NoDup (out : list E) (k : string) :
  NoDup (key <$> out) ->
  List.filter (fun e => String.eqb (key e) k) out
  = match list_find (fun e => key e = k) out with
    | Some (_, e) => [e]
    | None => []
    end.
Proof.
  induction out as [|e out IH]; intros Hnd; [reflexivity|].
  change (key <$> e :: out) with (key e :: (key <$> out)) in Hnd.
  apply NoDup_cons in Hnd as (Hnew & Hnd).
  cbn [List.filter list_find]. destruct (String.eqb_spec (key e) k) as [Heq|Hne].
  - rewrite decide_True by exact Heq. f_equal. rewrite IH by exact Hnd.
    destruct (list_find _ out) as [[j e']|] eqn:Hfind; [|reflexivity].
    apply list_find_Some in Hfind as (Hj & Hk & _). exfalso. apply Hnew.
    rewrite Heq, <- Hk. apply list_elem_of_fmap_2. eapply list_elem_of_lookup_2; exact Hj.
  - rewrite decide_False by exact Hne. rewrite IH by exact Hnd.
    destruct (list_find _ out) as [[j e']|]; reflexivity.
Qed.

(** The elements of the result that have a given key: the group of that
    key, when an item has it. *)
Lemma reduce_filter_key (items : list E) (k : string) :
  Forall good items ->
  List.filter (fun e => String.eqb (key e) k) (fold_left step items (∅, [])).2
  = match groupOf key mk add k items with
    | Some g => [g]
    | None => []
    end.
Proof.
  intros Hgood. rewrite filter_key_NoDup
    by (rewrite reduce_keys by exact Hgood; apply NoDup_firstSeen).
  destruct (list_find _ _) as [[i e]|] eqn:Hfind.
  - apply list_find_Some in Hfind as (Hi & <- & _).
    now destruct (reduce_groups items i e Hgood Hi) as (_ & _ & ->).
  - destruct (groupOf key mk add k items) as [g|] eqn:Hgroup; [|reflexivity].
    exfalso. apply list_find_None in Hfind.
    assert (Hin : k ∈ firstSeen (map key items)).
    { apply elem_of_firstSeen. unfold groupOf in Hgroup.
      destruct (List.filter _ items) as [|first rest] eqn:Hfilter; [discriminate|].
      assert (Hfirst : In first items /\ String.eqb (key first) k = true).
      { apply (proj1 (List.filter_In (fun x => String.eqb (key x) k) first items)).
        rewrite Hfilter. now left. }
      destruct Hfirst as [Hfirst Hk]. apply String.eqb_eq in Hk. subst k.
      apply list_elem_of_In. now apply in_map. }
    rewrite <- reduce_keys in Hin by exact Hgood.
    apply list_elem_of_fmap in Hin as (e & -> & He).
    rewrite Forall_forall in Hfind. now apply (Hfind e He).
Qed.

End ReducerTwice.

(** ** The reducer of the GCP source *)

Lemma gcp_group_fields (ParseFloat : string -> option Q)
    (rest : list GCP.gcpBillingElement) :
  forall e,
    let g := fold_left (gcpAddTo ParseFloat) rest e in
    GCP.ProjectName g = GCP.ProjectName e /\ GCP.ProjectID g = GCP.ProjectID e
    /\ GCP.ServiceName g = GCP.ServiceName e /\ GCP.Measurements g = GCP.Measurements e
    /\ GCP.Amount (GCP.Cost g) = GCP.Amount (GCP.Cost e)
    /\ GCP.Currency (GCP.Cost g) = GCP.Currency (GCP.Cost e)
    /\ GCP.CreditID (GCP.Cost g) = GCP.CreditID (GCP.Cost e)
    /\ GCP.Credits g = GCP.Credits e.
Proof.
  induction rest as [|x rest IH]; intros e; [simpl; tauto|].
  simpl. destruct (IH (gcpAddTo ParseFloat e x)) as (H1 & H2 & H3 & H4 & H5 & H6 & H7 & H8).
  rewrite H1, H2, H3, H4, H5, H6, H7, H8. simpl. tauto.
Qed.

Section GCPReduce.

Variable ParseFloat : string -> option Q.
Variable fnKey : GCP.gcpBillingElement -> string.

Lemma gcp_reduce_step_eq (keyMap : gmap string nat) (out : list GCP.gcpBillingElement)
    (x : GCP.gcpBillingElement) :
  GCP.reduce_step ParseFloat fnKey (keyMap, out) x
  = match keyMap !! fnKey x with
    | None => (<[fnKey x := List.length out]> keyMap, out ++ [gcpNewGroup ParseFloat x])
    | Some i => (keyMap, alter (fun e => gcpAddTo ParseFloat e x) i out)
    end.
Proof. reflexivity. Qed.

(** X1. [reduceElementsByFunc] returns one element for every key, in the order
    in which the keys are first seen: the element at position [i] carries the
    project and the currency of the first item with the [i]-th key and that
    item's derived service name, and its value is the sum of the values of
    all items with that key. *)
Theorem gcp_reduce_by_key (elementsIn : list GCP.gcpBillingElement) :
  List.length (GCP.reduceElementsByFunc ParseFloat elementsIn fnKey)
  = List.length (firstSeen (map fnKey elementsIn))
  /\ forall i e,
       GCP.reduceElementsByFunc ParseFloat elementsIn fnKey !! i = Some e ->
       exists k first rest,
         firstSeen (map fnKey elementsIn) !! i = Some k
         /\ List.filter (fun x => String.eqb (fnKey x) k) elementsIn = first :: rest
         /\ GCP.ProjectID e = GCP.ProjectID first
         /\ GCP.ProjectName e = GCP.ProjectName first
         /\ GCP.ServiceName e = GCP.GetServiceName first
         /\ GCP.Currency (GCP.Cost e) = GCP.Currency (GCP.Cost first)
         /\ (GCP.Value (GCP.Cost e)
             == total (GCP.GetValue ParseFloat <$> first :: rest))%Q.
Proof.
  unfold GCP.reduceElementsByFunc. split.
  - apply (reduced_length fnKey (gcpNewGroup ParseFloat) (gcpAddTo ParseFloat)).
    apply gcp_reduce_step_eq.
  - intros i e Hi.
    apply (reduced_lookup fnKey (gcpNewGroup ParseFloat) (gcpAddTo ParseFloat)
             _ gcp_reduce_step_eq) in Hi as (k & Hk & Hgroup).
    pose proof (groupOf_value fnKey (gcpNewGroup ParseFloat) (gcpAddTo ParseFloat)
                  (GCP.GetValue ParseFloat) (fun e => GCP.Value (GCP.Cost e))) as Hvalue.
    specialize (Hvalue (fun x => Qeq_refl _) (fun e x => Qeq_refl _) k elementsIn e Hgroup).
    unfold groupOf in Hgroup.
    destruct (List.filter _ elementsIn) as [|first rest] eqn:Hfilter; [discriminate|].
    injection Hgroup as <-.
    destruct (gcp_group_fields ParseFloat rest (gcpNewGroup ParseFloat first))
      as (H1 & H2 & H3 & _ & _ & H6 & _).
    exists k, first, rest. split; [exact Hk|]. split; [exact Hfilter|].
    rewrite H1, H2, H3, H6. repeat (split; [reflexivity|]). exact Hvalue.
Qed.

End GCPReduce.

Lemma gcpNewGroup_service (ParseFloat : string -> option Q) (x : GCP.gcpBillingElement) :
  GCP.GetServiceName x <> EmptyString ->
  GCP.GetServiceName (gcpNewGroup ParseFloat x) = GCP.GetServiceName x.
Proof.
  intros Hx. unfold GCP.GetServiceName at 1. cbn [gcpNewGroup GCP.ServiceName].
  apply String.eqb_neq in Hx. now rewrite Hx.
Qed.

Lemma gcpNewGroup_fixed (ParseFloat : string -> option Q) (e x : GCP.gcpBillingElement) :
  gcpNewGroup ParseFloat e = e ->
  gcpNewGroup ParseFloat (gcpAddTo ParseFloat e x) = gcpAddTo ParseFloat e x.
Proof.
  destruct e as [pn pid sn ms [am cur cid val] cr].
  unfold gcpNewGroup, gcpAddTo, GCP.add_value. cbn [GCP.ProjectName GCP.ProjectID
    GCP.ServiceName GCP.Measurements GCP.Cost GCP.Credits GCP.Amount GCP.Currency
    GCP.CreditID GCP.Value].
  intros H. injection H as Hsn Hms Ham Hcid Hval Hcr. subst ms am cid cr.
  f_equal.
  unfold GCP.GetServiceName in *. cbn [GCP.ServiceName GCP.Measurements] in *.
  exact Hsn.
Qed.

(** X4. Reducing the result of [reduceElementsByProjectIDServiceCurrency] again
    returns it unchanged, provided that no item has an empty derived service
    name. *)
Theorem gcp_reduce_twice (ParseFloat : string -> option Q)
    (elementsIn : list GCP.gcpBillingElement) :
  Forall (fun x => GCP.GetServiceName x <> EmptyString) elementsIn ->
  GCP.reduceElementsByProjectIDServiceCurrency ParseFloat
    (GCP.reduceElementsByProjectIDServiceCurrency ParseFloat elementsIn)
  = GCP.reduceElementsByProjectIDServiceCurrency ParseFloat elementsIn.
Proof.
  intros Hgood.
  unfold GCP.reduceElementsByProjectIDServiceCurrency, GCP.reduceElementsByFunc.
  apply (reduce_twice GCP.groupByProjectIDServiceCurrency (gcpNewGroup ParseFloat)
           (gcpAddTo ParseFloat) _
           (gcp_reduce_step_eq ParseFloat GCP.groupByProjectIDServiceCurrency)
           (fun x => GCP.GetServiceName x <> EmptyString)).
  - intros x Hx. unfold GCP.groupByProjectIDServiceCurrency.
    now rewrite gcpNewGroup_service.
  - reflexivity.
  - intros x Hx. unfold gcpNewGroup at 1.
    rewrite gcpNewGroup_service by exact Hx. reflexivity.
  - apply gcpNewGroup_fixed.
  - exact Hgood.
Qed.

Lemma gcp_reduce_twice_witness :
  GCP.reduceElementsByProjectIDServiceCurrency ParseDecimal
    (GCP.reduceElementsByProjectIDServiceCurrency ParseDecimal
       [Examples.gcpCost 10; Examples.measured [Examples.measurement "a/services/vm"];
        Examples.gcpCost 5])
  = GCP.reduceElementsByProjectIDServiceCurrency ParseDecimal
      [Examples.gcpCost 10; Examples.measured [Examples.measurement "a/services/vm"];
       Examples.gcpCost 5].
Proof.
  apply gcp_reduce_twice.
  repeat (apply Forall_cons; split; [discriminate|]). apply Forall_nil_2.
Defined.

(** Without a derived service name the second reduction relabels the group:
    its element has no measurement any more and becomes "misc". *)
Lemma gcp_reduce_relabels_empty_service :
  GCP.ServiceName <$>
    GCP.reduceElementsByProjectIDServiceCurrency ParseDecimal
      [Examples.measured [Examples.measurement EmptyString]] = [EmptyString]
  /\ GCP.ServiceName <$>
       GCP.reduceElementsByProjectIDServiceCurrency ParseDecimal
         (GCP.reduceElementsByProjectIDServiceCurrency ParseDecimal
            [Examples.measured [Examples.measurement EmptyString]]) = ["misc"].
Proof. split; reflexivity. Qed.

(** ** The reducer of the AWS source *)

Lemma aws_group_fields (rest : list AWS.awsBillingElement) :
  forall e,
    let g := fold_left awsAddTo rest e in
    AWS.ProjectName g = AWS.ProjectName e /\ AWS.ProjectID g = AWS.ProjectID e
    /\ AWS.ServiceName g = AWS.ServiceName e /\ AWS.Currency g = AWS.Currency e.
Proof.
  induction rest as [|x rest IH]; intros e; [simpl; tauto|].
  simpl. destruct (IH (awsAddTo e x)) as (H1 & H2 & H3 & H4).
  rewrite H1, H2, H3, H4. simpl. tauto.
Qed.

Section AWSReduce.

Variable fnKey : AWS.awsBillingElement -> string.

Lemma aws_reduce_step_eq (keyMap : gmap string nat) (out : list AWS.awsBillingElement)
    (x : AWS.awsBillingElement) :
  AWS.reduce_step fnKey (keyMap, out) x
  = match keyMap !! fnKey x with
    | None => (<[fnKey x := List.length out]> keyMap, out ++ [awsNewGroup x])
    | Some i => (keyMap, alter (fun e => awsAddTo e x) i out)
    end.
Proof. reflexivity. Qed.

(** X2. [reduceElementsByFunc] of the AWS source returns one element for every
    key, in the order in which the keys are first seen: the element at
    position [i] is the first item with the [i]-th key, its costs replaced by
    the sum of the costs of all items with that key. *)
Theorem aws_reduce_by_key (elementsIn : list AWS.awsBillingElement) :
  List.length (AWS.reduceElementsByFunc elementsIn fnKey)
  = List.length (firstSeen (map fnKey elementsIn))
  /\ forall i e,
       AWS.reduceElementsByFunc elementsIn fnKey !! i = Some e ->
       exists k first rest,
         firstSeen (map fnKey elementsIn) !! i = Some k
         /\ List.filter (fun x => String.eqb (fnKey x) k) elementsIn = first :: rest
         /\ AWS.ProjectID e = AWS.ProjectID first
         /\ AWS.ProjectName e = AWS.ProjectName first
         /\ AWS.ServiceName e = AWS.ServiceName first
         /\ AWS.Currency e = AWS.Currency first
         /\ (AWS.Costs e == total (AWS.Costs <$> first :: rest))%Q.
Proof.
  unfold AWS.reduceElementsByFunc. split.
  - apply (reduced_length fnKey awsNewGroup awsAddTo). apply aws_reduce_step_eq.
  - intros i e Hi.
    apply (reduced_lookup fnKey awsNewGroup awsAddTo _ aws_reduce_step_eq)
      in Hi as (k & Hk & Hgroup).
    pose proof (groupOf_value fnKey awsNewGroup awsAddTo AWS.Costs AWS.Costs) as Hvalue.
    specialize (Hvalue (fun x => Qeq_refl _) (fun e x => Qeq_refl _) k elementsIn e Hgroup).
    unfold groupOf in Hgroup.
    destruct (List.filter _ elementsIn) as [|first rest] eqn:Hfilter; [discriminate|].
    injection Hgroup as <-.
    destruct (aws_group_fields rest (awsNewGroup first)) as (H1 & H2 & H3 & H4).
    exists k, first, rest. split; [exact Hk|]. split; [exact Hfilter|].
    rewrite H1, H2, H3, H4. repeat (split; [reflexivity|]). exact Hvalue.
Qed.

End AWSReduce.

(** X5. Reducing the result of the AWS reducer again returns it unchanged. *)
Theorem aws_reduce_twice (elementsIn : list AWS.awsBillingElement) :
  AWS.reduceElementsByFunc
    (AWS.reduceElementsByFunc elementsIn AWS.groupByProjectIDServiceCurrency)
    AWS.groupByProjectIDServiceCurrency
  = AWS.reduceElementsByFunc elementsIn AWS.groupByProjectIDServiceCurrency.
Proof.
  unfold AWS.reduceElementsByFunc.
  apply (reduce_twice AWS.groupByProjectIDServiceCurrency awsNewGroup awsAddTo _
           (aws_reduce_step_eq AWS.groupByProjectIDServiceCurrency) (fun _ => True)).
  - reflexivity.
  - reflexivity.
  - reflexivity.
  - intros e x _. reflexivity.
  - apply Forall_forall. auto.
Qed.


(** ** The object that [Query] selects *)

Lemma ascii_compare_trans (a b c : ascii) :
  Ascii.compare a b = Lt -> Ascii.compare b c = Lt -> Ascii.compare a c = Lt.
Proof.
  unfold Ascii.compare. rewrite !N.compare_lt_iff. lia.
Qed.

Lemma ascii_compare_eq (a b : ascii) : Ascii.compare a b = Eq -> a = b.
Proof.
  unfold Ascii.compare. rewrite N.compare_eq_iff. intros H.
  rewrite <- (ascii_N_embedding a), <- (ascii_N_embedding b). now rewrite H.
Qed.

Lemma string_compare_lt_trans (s : string) :
  forall t u, String.compare s t = Lt -> String.compare t u = Lt -> String.compare s u = Lt.
Proof.
  induction s as [|a s IH]; intros [|b t] [|c u]; cbn [String.compare]; try discriminate;
    try reflexivity.
  destruct (Ascii.compare a b) eqn:Hab; try discriminate;
    destruct (Ascii.compare b c) eqn:Hbc; try discriminate.
  - apply ascii_compare_eq in Hab, Hbc. subst.
    assert (Ascii.compare c c = Eq) as -> by (unfold Ascii.compare; apply N.compare_refl).
    apply IH.
  - apply ascii_compare_eq in Hab. subst. rewrite Hbc. reflexivity.
  - apply ascii_compare_eq in Hbc. subst. rewrite Hab. reflexivity.
  - rewrite (ascii_compare_trans _ _ _ Hab Hbc). reflexivity.
Qed.

Lemma string_compare_refl (s : string) : String.compare s s = Eq.
Proof.
  pose proof (String.compare_antisym s s) as H.
  destruct (String.compare s s); simpl in H; congruence.
Qed.

Lemma string_compare_flip (s t : string) :
  String.compare s t = Gt <-> String.compare t s = Lt.
Proof.
  rewrite (String.compare_antisym t s). destruct (String.compare s t); simpl; split;
    congruence.
Qed.

Lemma keyLe_trans (s t u : string) : keyLe s t -> keyLe t u -> keyLe s u.
Proof.
  unfold keyLe. intros Hst Htu Hgt.
  destruct (String.compare s t) eqn:H1; [| |now apply Hst].
  - apply String.compare_eq_iff in H1. subst. now apply Htu.
  - destruct (String.compare t u) eqn:H2; [| |now apply Htu].
    + apply String.compare_eq_iff in H2. subst. congruence.
    + rewrite (string_compare_lt_trans _ _ _ H1 H2) in Hgt. discriminate.
Qed.

Lemma selectObject_long_keys (prefix : string) (contents : list AWS.Object) :
  Forall (fun object => keyTooShort prefix object = false) contents ->
  forall current, AWS.selectObject prefix current contents <> Panics.
Proof.
  induction 1 as [|object rest Hlong _ IH]; intros current; cbn [AWS.selectObject].
  - discriminate.
  - unfold keyTooShort in Hlong. rewrite Hlong. apply IH.
Qed.

Lemma selectObject_greatest_from (prefix : string) (contents : list AWS.Object) :
  forall current chosen,
    AWS.selectObject prefix current contents = Returns (Some chosen) ->
    (Some chosen = current \/ In chosen contents)
    /\ (forall object, In object contents -> keyLe (AWS.Key object) (AWS.Key chosen))
    /\ (forall object, current = Some object -> keyLe (AWS.Key object) (AWS.Key chosen)).
Proof.
  induction contents as [|object rest IH]; intros current chosen; cbn [AWS.selectObject].
  - intros H. injection H as ->. split; [now left|]. split; [intros ? []|].
    intros object H. injection H as ->. unfold keyLe. now rewrite string_compare_refl.
  - destruct (_ <? _)%nat; [discriminate|]. intros Hrun.
    apply IH in Hrun as (Hin & Hrest & Hcur).
    destruct current as [cur|].
    + destruct (String.compare (AWS.Key object) (AWS.Key cur)) eqn:Hcmp.
      * split; [destruct Hin; [now left|right; now right]|]. split.
        -- intros o [<-|Ho]; [|now apply Hrest].
           apply String.compare_eq_iff in Hcmp. rewrite Hcmp. now apply Hcur.
        -- exact Hcur.
      * split; [destruct Hin; [now left|right; now right]|]. split.
        -- intros o [<-|Ho]; [|now apply Hrest].
           apply keyLe_trans with (AWS.Key cur); [|now apply Hcur].
           unfold keyLe. now rewrite Hcmp.
        -- exact Hcur.
      * split; [right; destruct Hin as [Hin|Hin]; [injection Hin as ->; now left|now right]|].
        split.
        -- intros o [<-|Ho]; [now apply Hcur|now apply Hrest].
        -- intros o Ho. injection Ho as <-.
           apply keyLe_trans with (AWS.Key object); [|now apply Hcur].
           unfold keyLe. apply string_compare_flip in Hcmp. now rewrite Hcmp.
    + split; [right; destruct Hin as [Hin|Hin]; [injection Hin as ->; now left|now right]|].
      split; [|discriminate].
      intros o [<-|Ho]; [now apply Hcur|now apply Hrest].
Qed.

Lemma selectObject_none (prefix : string) (contents : list AWS.Object) :
  forall current,
    AWS.selectObject prefix current contents = Returns None ->
    current = None /\ contents = [].
Proof.
  induction contents as [|object rest IH]; intros current; cbn [AWS.selectObject].
  - intros H. injection H as ->. now split.
  - destruct (_ <? _)%nat; [discriminate|]. intros Hrun.
    apply IH in Hrun as (Hcur & _). exfalso.
    destruct current as [cur|]; [|discriminate].
    destruct (String.compare _ _); discriminate.
Qed.

(** X9. The loop of [Query] over a listing in which every key is long enough
    for the slice it logs returns an object of the listing whose key is the
    greatest; it returns none only for the empty listing. *)
Theorem selectObject_greatest (prefix : string) (contents : list AWS.Object) :
  Forall (fun object => keyTooShort prefix object = false) contents ->
  match contents with
  | [] => AWS.selectObject prefix None contents = Returns None
  | _ :: _ =>
      exists chosen,
        AWS.selectObject prefix None contents = Returns (Some chosen)
        /\ In chosen contents
        /\ forall object, In object contents -> keyLe (AWS.Key object) (AWS.Key chosen)
  end.
Proof.
  intros Hlong. destruct contents as [|first rest]; [reflexivity|].
  destruct (AWS.selectObject prefix None (first :: rest)) as [[chosen|]|] eqn:Hrun.
  - exists chosen. split; [reflexivity|].
    apply selectObject_greatest_from in Hrun as ([Hin|Hin] & Hall & _); [discriminate|].
    split; assumption.
  - apply selectObject_none in Hrun as (_ & Hnil). discriminate.
  - exfalso. now apply (selectObject_long_keys prefix _ Hlong None).
Qed.

Lemma selectObject_greatest_witness :
  AWS.selectObject "999-aws-billing-csv-" None
    [ {| AWS.Key := "999-aws-billing-csv-2017-02.csv"; AWS.ETag := "b" |};
      {| AWS.Key := "999-aws-billing-csv-2017-11.csv"; AWS.ETag := "c" |};
      {| AWS.Key := "999-aws-billing-csv-2017-03.csv"; AWS.ETag := "d" |} ]
  = Returns (Some {| AWS.Key := "999-aws-billing-csv-2017-11.csv"; AWS.ETag := "c" |}).
Proof.
  destruct (selectObject_greatest "999-aws-billing-csv-"
    [ {| AWS.Key := "999-aws-billing-csv-2017-02.csv"; AWS.ETag := "b" |};
      {| AWS.Key := "999-aws-billing-csv-2017-11.csv"; AWS.ETag := "c" |};
      {| AWS.Key := "999-aws-billing-csv-2017-03.csv"; AWS.ETag := "d" |} ])
    as (chosen & Hrun & Hin & Hall).
  - repeat (apply Forall_cons; split; [reflexivity|]). apply Forall_nil_2.
  - rewrite Hrun. do 2 f_equal.
    destruct Hin as [<-|[<-|[<-|[]]]].
    + exfalso. apply (Hall {| AWS.Key := "999-aws-billing-csv-2017-11.csv"; AWS.ETag := "c" |});
        [right; now left|reflexivity].
    + reflexivity.
    + exfalso. apply (Hall {| AWS.Key := "999-aws-billing-csv-2017-11.csv"; AWS.ETag := "c" |});
        [right; now left|reflexivity].
Defined.

(** X10. [Query] panics in the loop over the listing exactly when some listed key
    is too short for the slice that is logged. *)
Theorem selectObject_panics_on_short_key (prefix : string) (contents : list AWS.Object)
    (current : option AWS.Object) :
  AWS.selectObject prefix current contents = Panics
  <-> Exists (fun object => keyTooShort prefix object = true) contents.
Proof.
  revert current. induction contents as [|object rest IH]; intros current;
    cbn [AWS.selectObject].
  - split; [discriminate|]. intros H. inversion H.
  - rewrite Exists_cons. unfold keyTooShort at 1.
    destruct (_ <? _)%nat; [split; [now left|reflexivity]|].
    rewrite IH. split; [now right|]. intros [H|H]; [discriminate|exact H].
Qed.

(** ** Reading a report of the AWS source *)

Lemma setPositions_lookup (record : list string) (name : string) :
  forall pos i,
    AWS.setPositions pos i record !! name
    = match lastIndex name record with
      | Some j => Some (i + Z.of_nat j)
      | None => pos !! name
      end.
Proof.
  induction record as [|field rest IH]; intros pos i; cbn [AWS.setPositions lastIndex].
  - reflexivity.
  - rewrite IH. destruct (lastIndex name rest) as [j|].
    + f_equal. lia.
    + destruct (String.eqb_spec field name) as [->|Hne].
      * rewrite lookup_insert_eq. f_equal. lia.
      * now rewrite lookup_insert_ne.
Qed.

Lemma lastIndex_lt (name : string) (header : list string) (j : nat) :
  lastIndex name header = Some j -> (j < List.length header)%nat.
Proof.
  revert j. induction header as [|field rest IH]; intros j; cbn [lastIndex]; [discriminate|].
  destruct (lastIndex name rest) as [i|].
  - intros H. injection H as <-. specialize (IH i eq_refl). simpl. lia.
  - destruct (String.eqb field name); [|discriminate].
    intros H. injection H as <-. simpl. lia.
Qed.

Lemma lastIndex_In (name : string) (header : list string) :
  In name header -> is_Some (lastIndex name header).
Proof.
  induction header as [|field rest IH]; [intros []|]. cbn [lastIndex].
  intros [->|Hin].
  - destruct (lastIndex name rest); [eauto|]. rewrite String.eqb_refl. eauto.
  - destruct (IH Hin) as [i ->]. eauto.
Qed.

Section ReadCSV.

Variable ParseFloat : string -> option Q.

Lemma positionsWithin_setPositions (n : nat) (pos : gmap string Z) (record : list string) :
  positionsWithin n pos -> List.length record = n ->
  positionsWithin n (AWS.setPositions pos 0 record).
Proof.
  intros Hpos Hlen name i. rewrite setPositions_lookup.
  destruct (lastIndex name record) as [j|] eqn:Hj; [|apply Hpos].
  intros H. injection H as <-. apply lastIndex_lt in Hj. left. lia.
Qed.

Lemma index_within (n : nat) (pos : gmap string Z) (record : list string) (name : string) :
  (0 < n)%nat -> positionsWithin n pos -> List.length record = n ->
  AWS.posOf pos name <> -1 ->
  is_Some (AWS.index record (AWS.posOf pos name)).
Proof.
  intros Hn Hpos Hlen Hmark. unfold AWS.index, AWS.posOf in *.
  destruct (pos !! name) as [i|] eqn:Hi; cbn [from_option id] in *.
  - destruct (Hpos _ _ Hi) as [Hin|[_ Hi1]]; [|lia].
    destruct (Z.leb_spec 0 i); [|lia].
    apply lookup_lt_is_Some. lia.
  - apply lookup_lt_is_Some. simpl. lia.
Qed.

Lemma index_within_other (n : nat) (pos : gmap string Z) (record : list string)
    (name : string) :
  (0 < n)%nat -> positionsWithin n pos -> List.length record = n ->
  name <> "RecordType" ->
  is_Some (AWS.index record (AWS.posOf pos name)).
Proof.
  intros Hn Hpos Hlen Hname. apply (index_within n); try assumption.
  unfold AWS.posOf. destruct (pos !! name) as [i|] eqn:Hi; cbn [from_option id]; [|lia].
  destruct (Hpos _ _ Hi) as [Hin|[-> _]]; [lia|congruence].
Qed.

Lemma readRecords_returns (n : nat) (input : list AWS.CSVRead) :
  (0 < n)%nat -> fieldsPerRecord n input ->
  forall pos elems,
    positionsWithin n pos ->
    exists result, AWS.readRecords ParseFloat pos elems input = Returns result.
Proof.
  intros Hn. induction input as [|read rest IH]; intros Hall pos elems Hpos.
  - eexists. reflexivity.
  - apply Forall_cons in Hall as (Hlen & Hall). specialize (IH Hall).
    destruct read as [record|]; [|eexists; reflexivity].
    cbn [AWS.readRecords].
    destruct (Z.eqb_spec (AWS.posOf pos "RecordType") (-1)) as [Hmark|Hmark].
    + apply IH. now apply positionsWithin_setPositions.
    + destruct (index_within n pos record "RecordType" Hn Hpos Hlen Hmark) as [recordType ->].
      destruct (negb _); [now apply IH|].
      destruct (index_within_other n pos record "TotalCost" Hn Hpos Hlen) as [totalCost ->];
        [discriminate|].
      destruct (ParseFloat totalCost); [|now apply IH].
      destruct (index_within_other n pos record "LinkedAccountId" Hn Hpos Hlen) as [? ->];
        [discriminate|].
      destruct (index_within_other n pos record "ProductCode" Hn Hpos Hlen) as [? ->];
        [discriminate|].
      destruct (index_within_other n pos record "CurrencyCode" Hn Hpos Hlen) as [? ->];
        [discriminate|].
      now apply IH.
Qed.

(** X6. [readCSV] does not panic on records that all have the same number of
    fields, as [csv.Reader] returns them: whatever the header names and
    wherever it stands, an index is never out of range. *)
Theorem readCSV_returns (n : nat) (input : list AWS.CSVRead) :
  (0 < n)%nat -> fieldsPerRecord n input ->
  exists result, AWS.readCSV ParseFloat input = Returns result.
Proof.
  intros Hn Hall. unfold AWS.readCSV.
  destruct (readRecords_returns n input Hn Hall {["RecordType" := -1]} []) as [result ->].
  - intros name i Hi. apply lookup_singleton_Some in Hi as [<- <-]. now right.
  - destruct result; eexists; reflexivity.
Qed.

Lemma readRecords_error (input : list AWS.CSVRead) :
  In AWS.CSVError input ->
  forall pos elems,
    AWS.readRecords ParseFloat pos elems input = Returns None
    \/ AWS.readRecords ParseFloat pos elems input = Panics.
Proof.
  induction input as [|read rest IH]; [intros []|].
  intros Hin pos elems. destruct read as [record|]; [|now left].
  destruct Hin as [Hin|Hin]; [discriminate|]. specialize (IH Hin).
  cbn [AWS.readRecords].
  repeat match goal with
         | |- context [if ?b then _ else _] => destruct b
         | |- context [match ?x with _ => _ end] =>
             lazymatch x with
             | AWS.readRecords _ _ _ _ => fail
             | _ => destruct x
             end
         end; auto.
Qed.

(** X7. When the reader reports an error anywhere in the input, [readCSV]
    returns no element, not even those of the lines before the error. *)
Theorem readCSV_reader_error (input : list AWS.CSVRead) :
  In AWS.CSVError input ->
  AWS.readCSV ParseFloat input = Returns None \/ AWS.readCSV ParseFloat input = Panics.
Proof.
  intros Hin. unfold AWS.readCSV.
  destruct (readRecords_error input Hin {["RecordType" := -1]} []) as [-> | ->]; auto.
Qed.

Lemma posOf_header (header : list string) (name : string) :
  In "RecordType" header ->
  AWS.posOf (AWS.setPositions {["RecordType" := -1]} 0 header) name
  = Z.of_nat (column header name).
Proof.
  intros Hin. unfold AWS.posOf, column. rewrite setPositions_lookup.
  destruct (lastIndex name header) as [j|] eqn:Hj; cbn [from_option id]; [lia|].
  destruct (decide (name = "RecordType")) as [->|Hne].
  - apply lastIndex_In in Hin as [i Hi]. congruence.
  - rewrite lookup_singleton_ne by congruence. reflexivity.
Qed.

Lemma column_lt (header : list string) (name : string) :
  In "RecordType" header -> (column header name < List.length header)%nat.
Proof.
  intros Hin. unfold column. destruct (lastIndex name header) as [j|] eqn:Hj; cbn [from_option id].
  - now apply lastIndex_lt in Hj.
  - destruct header; [destruct Hin|simpl; lia].
Qed.

Lemma index_column (header record : list string) (name : string) :
  In "RecordType" header -> List.length record = List.length header ->
  AWS.index record (Z.of_nat (column header name))
  = Some (default EmptyString (record !! column header name)).
Proof.
  intros Hin Hlen. unfold AWS.index.
  destruct (Z.leb_spec 0 (Z.of_nat (column header name))); [|lia].
  rewrite Nat2Z.id.
  destruct (lookup_lt_is_Some_2 record (column header name)) as [field ->]; [|reflexivity].
  rewrite Hlen. now apply column_lt.
Qed.

Lemma readRecords_line_items (header : list string) (rows : list (list string)) :
  In "RecordType" header ->
  Forall (fun record => List.length record = List.length header) rows ->
  forall elems,
    AWS.readRecords ParseFloat (AWS.setPositions {["RecordType" := -1]} 0 header) elems
      (map AWS.CSVRecord rows)
    = Returns (Some (elems ++ omap (lineItem ParseFloat header) rows)).
Proof.
  intros Hin. induction rows as [|record rows IH]; intros Hall elems.
  - simpl. now rewrite app_nil_r.
  - apply Forall_cons in Hall as (Hlen & Hall). specialize (IH Hall).
    cbn [map AWS.readRecords omap list_omap].
    rewrite !posOf_header by exact Hin.
    destruct (Z.eqb_spec (Z.of_nat (column header "RecordType")) (-1)); [lia|].
    rewrite !index_column by assumption.
    unfold lineItem at 1.
    destruct (String.eqb _ "LinkedLineItem"); cbn [negb]; [|apply IH].
    destruct (ParseFloat _); [|apply IH].
    rewrite IH. now rewrite <- app_assoc.
Qed.

(** X8. A report that begins with a header naming the column RecordType:
    [readCSV] returns the reduction of the linked line items whose total
    cost parses, each read in the last column that the header gives the
    name, and in the first column for a name that the header lacks. *)
Theorem readCSV_line_items (header : list string) (rows : list (list string)) :
  In "RecordType" header ->
  Forall (fun record => List.length record = List.length header) rows ->
  AWS.readCSV ParseFloat (AWS.CSVRecord header :: map AWS.CSVRecord rows)
  = Returns (Some (AWS.reduceElementsByFunc (omap (lineItem ParseFloat header) rows)
                     AWS.groupByProjectIDServiceCurrency)).
Proof.
  intros Hin Hall. unfold AWS.readCSV. cbn [AWS.readRecords].
  assert (AWS.posOf {["RecordType" := -1]} "RecordType" = -1) as -> by reflexivity.
  cbn [Z.eqb]. rewrite readRecords_line_items by assumption. reflexivity.
Qed.

End ReadCSV.

Lemma readCSV_returns_witness :
  exists result,
    AWS.readCSV ParseDecimal
      [ AWS.CSVRecord ["InvoiceID"; "PayerAccountId"];
        AWS.CSVRecord ["RecordType"; "TotalCost"];
        AWS.CSVRecord ["LinkedLineItem"; "12.5"];
        AWS.CSVError ] = Returns result.
Proof.
  apply (readCSV_returns ParseDecimal 2); [lia|].
  repeat (apply Forall_cons; split; [reflexivity || exact I|]). apply Forall_nil_2.
Defined.

Lemma readCSV_reader_error_witness :
  AWS.readCSV ParseDecimal (AWS.Records (Examples.awsReport "120") ++ [AWS.CSVError])
  = Returns None.
Proof.
  destruct (readCSV_reader_error ParseDecimal
              (AWS.Records (Examples.awsReport "120") ++ [AWS.CSVError])) as [H|H].
  - right. right. left. reflexivity.
  - exact H.
  - vm_compute in H. discriminate.
Defined.

Lemma readCSV_line_items_witness :
  AWS.readCSV ParseDecimal (AWS.CSVRecord reportHeader :: map AWS.CSVRecord reportLines)
  = Returns (Some [ {| AWS.ProjectName := EmptyString; AWS.ProjectID := "1234";
                       AWS.ServiceName := "S3"; AWS.Costs := (3 # 2) + (5 # 2);
                       AWS.Currency := "USD" |} ]).
Proof.
  etransitivity.
  - apply (readCSV_line_items ParseDecimal reportHeader reportLines); [left; reflexivity|].
    repeat (apply Forall_cons; split; [reflexivity|]). apply Forall_nil_2.
  - reflexivity.
Defined.

(** A header without the column TotalCost: the costs are read in the first
    column. *)
Lemma readCSV_missing_column :
  AWS.readCSV ParseDecimal
    [ AWS.CSVRecord ["ProductCode"; "RecordType"];
      AWS.CSVRecord ["7"; "LinkedLineItem"] ]
  = Returns (Some [ {| AWS.ProjectName := EmptyString; AWS.ProjectID := "7";
                       AWS.ServiceName := "7"; AWS.Costs := 7;
                       AWS.Currency := "7" |} ]).
Proof. reflexivity. Qed.

(** ** A pass of the AWS source over a report *)

Lemma aws_reduce_filter_key (items : list AWS.awsBillingElement) (k : string) :
  List.filter (fun e => String.eqb (AWS.groupByProjectIDServiceCurrency e) k)
    (AWS.reduceElementsByFunc items AWS.groupByProjectIDServiceCurrency)
  = match groupOf AWS.groupByProjectIDServiceCurrency awsNewGroup awsAddTo k items with
    | Some g => [g]
    | None => []
    end.
Proof.
  unfold AWS.reduceElementsByFunc.
  apply (reduce_filter_key AWS.groupByProjectIDServiceCurrency awsNewGroup awsAddTo _
           (aws_reduce_step_eq AWS.groupByProjectIDServiceCurrency) (fun _ => True)).
  - reflexivity.
  - reflexivity.
  - reflexivity.
  - intros e x _. reflexivity.
  - apply Forall_forall. auto.
Qed.

Lemma groupOf_None {E : Type} (key : E -> string) (mk : E -> E) (add : E -> E -> E)
    (k : string) (items : list E) :
  groupOf key mk add k items = None <-> ~ k ∈ map key items.
Proof.
  unfold groupOf. induction items as [|x items IH]; cbn [List.filter map].
  - split; [intros _ H; inversion H|reflexivity].
  - destruct (String.eqb_spec (key x) k) as [Heq|Hne].
    + split; [discriminate|]. intros H. exfalso. apply H. rewrite Heq. left.
    + rewrite IH. split.
      * intros H Hin. apply elem_of_cons in Hin as [Hin|Hin]; [congruence|now apply H].
      * intros H Hin. apply H. now right.
Qed.

Lemma aws_reconcile_reduced (env : AWS.Env) (a a' : AWS.AWSBilling)
    (adds : list CounterAdd) (items : list AWS.awsBillingElement) (k : string) :
  AWS.reconcile env (a, [])
    (AWS.reduceElementsByFunc items AWS.groupByProjectIDServiceCurrency) = (a', adds) ->
  (appliedDelta k adds
   == lastValue (AWS.metricValues a') k - lastValue (AWS.metricValues a) k)%Q
  /\ (lastValue (AWS.metricValues a') k
      == if decide (k ∈ map AWS.groupByProjectIDServiceCurrency items)
         then total (AWS.Costs <$>
                       List.filter
                         (fun x => String.eqb (AWS.groupByProjectIDServiceCurrency x) k)
                         items)
         else lastValue (AWS.metricValues a) k)%Q.
Proof.
  intros Hrun. apply (aws_reconcile_telescopes k) in Hrun as [Hsum Hlast].
  split; [rewrite Hsum; cbn [appliedDelta]; ring|].
  rewrite Hlast. unfold awsPresentedIn. rewrite aws_reduce_filter_key.
  destruct (groupOf _ _ _ k items) as [g|] eqn:Hgroup.
  - rewrite decide_True.
    + cbn [map List.last].
      apply (groupOf_value AWS.groupByProjectIDServiceCurrency awsNewGroup awsAddTo
               AWS.Costs AWS.Costs (fun x => Qeq_refl _) (fun e x => Qeq_refl _) k items g Hgroup).
    + destruct (decide (k ∈ map AWS.groupByProjectIDServiceCurrency items)) as [Hin|Hout];
        [exact Hin|]. apply groupOf_None with (mk := awsNewGroup) (add := awsAddTo) in Hout.
      congruence.
  - apply groupOf_None in Hgroup. rewrite decide_False by exact Hgroup. reflexivity.
Qed.



(** ** The resource metadata of the GCP source *)

Lemma last_filter_cons {A : Type} (f : A -> bool) (x : A) (l : list A) :
  last (List.filter f (x :: l))
  = match last (List.filter f l) with
    | Some y => Some y
    | None => if f x then Some x else None
    end.
Proof.
  cbn [List.filter]. destruct (f x); [|now destruct (last _)].
  rewrite list.last_cons. reflexivity.
Qed.

(** X17. After a list of entries is ingested, a project is found by its display
    name and any other resource by its identifier, in both cases as the last
    entry listed for it; what was known before stays for the names that are
    not listed. *)
Theorem ingest_last_listed (listed : list GCP.resourceMetadata) (name : string) :
  forall r,
    GCP.projectByID (fold_left GCP.ingest listed r) name
    = match last (List.filter (listedAsProject name) listed) with
      | Some e => Some e
      | None => GCP.projectByID r name
      end
    /\ GCP.metadataByID (fold_left GCP.ingest listed r) !! name
       = match last (List.filter (listedUnderID name) listed) with
         | Some e => Some e
         | None => GCP.metadataByID r !! name
         end.
Proof.
  induction listed as [|e listed IH]; intros r; [split; reflexivity|].
  cbn [fold_left]. destruct (IH (GCP.ingest r e)) as [Hp Hi].
  rewrite Hp, Hi, !last_filter_cons. clear Hp Hi IH.
  split.
  - destruct (last (List.filter (listedAsProject name) listed)); [reflexivity|].
    unfold listedAsProject, GCP.ingest, GCP.projectByID.
    destruct (HasPrefix (GCP.id e) "projects/"); cbn [andb GCP.metadataByProjectID];
      [|reflexivity].
    destruct (String.eqb_spec (GCP.displayName e) name) as [<-|Hne].
    + now rewrite lookup_insert_eq.
    + now rewrite lookup_insert_ne.
  - destruct (last (List.filter (listedUnderID name) listed)); [reflexivity|].
    unfold listedUnderID, GCP.ingest.
    destruct (HasPrefix (GCP.id e) "projects/"); cbn [andb negb GCP.metadataByID];
      [reflexivity|].
    destruct (String.eqb_spec (GCP.id e) name) as [<-|Hne].
    + now rewrite lookup_insert_eq.
    + now rewrite lookup_insert_ne.
Qed.

Lemma ingest_keeps_entries (listed : list GCP.resourceMetadata) :
  forall r k,
    (is_Some (GCP.metadataByProjectID r !! k) ->
     is_Some (GCP.metadataByProjectID (fold_left GCP.ingest listed r) !! k))
    /\ (is_Some (GCP.metadataByID r !! k) ->
        is_Some (GCP.metadataByID (fold_left GCP.ingest listed r) !! k))
    /\ GCP.lastUpdate (fold_left GCP.ingest listed r) = GCP.lastUpdate r.
Proof.
  induction listed as [|e listed IH]; intros r k; [auto|].
  cbn [fold_left]. destruct (IH (GCP.ingest r e) k) as (Hp & Hi & Ht).
  assert (Hstep : (is_Some (GCP.metadataByProjectID r !! k) ->
                   is_Some (GCP.metadataByProjectID (GCP.ingest r e) !! k))
                  /\ (is_Some (GCP.metadataByID r !! k) ->
                      is_Some (GCP.metadataByID (GCP.ingest r e) !! k))
                  /\ GCP.lastUpdate (GCP.ingest r e) = GCP.lastUpdate r).
  { unfold GCP.ingest. destruct (HasPrefix _ _);
      cbn [GCP.metadataByProjectID GCP.metadataByID GCP.lastUpdate];
      repeat split; try tauto; intros Hk; apply lookup_insert_is_Some'; now right. }
  destruct Hstep as (Hp1 & Hi1 & Ht1).
  split; [auto|]. split; [auto|]. congruence.
Qed.

(** X18. [update] never forgets a resource: what was known stays known, also
    when a listing fails half way. The time of the last update moves only
    when [update] returns no error, and within an hour of it nothing is
    asked of the resource manager. *)
Theorem update_never_forgets (feed : GCP.MetadataFeed) (now later : Z)
    (r : GCP.resourcesMetadata) :
  (forall k, is_Some (GCP.metadataByProjectID r !! k) ->
             is_Some (GCP.metadataByProjectID (GCP.update feed now later r).1 !! k))
  /\ (forall k, is_Some (GCP.metadataByID r !! k) ->
                is_Some (GCP.metadataByID (GCP.update feed now later r).1 !! k))
  /\ ((GCP.update feed now later r).2 = true ->
      GCP.lastUpdate (GCP.update feed now later r).1 = GCP.lastUpdate r)
  /\ (now < GCP.lastUpdate r + GCP.Hour -> GCP.update feed now later r = (r, false)).
Proof.
  unfold GCP.update.
  destruct (Z.ltb_spec now (GCP.lastUpdate r + GCP.Hour)); [repeat split; auto|].
  destruct (GCP.NewServiceFails feed); [repeat split; auto; lia|].
  destruct (GCP.PagesFail feed); cbn [fst snd GCP.metadataByProjectID GCP.metadataByID];
    (split; [intros k; apply ingest_keeps_entries|]);
    (split; [intros k; apply ingest_keeps_entries|]);
    (split; [|lia]).
  - intros _. apply (ingest_keeps_entries (GCP.Listed feed) r EmptyString).
  - discriminate.
Qed.

(** ** The account map of [NewAWSBilling] *)

Lemma no_byte_empty (c : ascii) : no_byte c EmptyString = true.
Proof. reflexivity. Qed.

Lemma no_byte_String (c b : ascii) (s : string) :
  no_byte c (String b s) = negb (Ascii.eqb b c) && no_byte c s.
Proof. reflexivity. Qed.

Lemma no_byte_app (c : ascii) (s t : string) :
  no_byte c (s +:+ t) = no_byte c s && no_byte c t.
Proof.
  induction s as [|b s IH].
  - now rewrite append_empty_l.
  - rewrite append_cons, !no_byte_String, IH. now rewrite andb_assoc.
Qed.

Lemma Split_from_length (sep : ascii) (s : string) :
  forall cur, List.length (Split_from sep cur s) = S (countByte sep s).
Proof.
  induction s as [|b s IH]; intros cur; cbn [Split_from countByte]; [reflexivity|].
  destruct (Ascii.eqb b sep); cbn [List.length]; now rewrite IH.
Qed.

Lemma Split_from_Join (sep : ascii) (rest : list string) :
  forall p cur,
    forallb (no_byte sep) (p :: rest) = true ->
    Split_from sep cur (Join (p :: rest) (String sep EmptyString)) = (cur +:+ p) :: rest.
Proof.
  induction rest as [|q rest IH]; intros p cur Hall;
    cbn [forallb] in Hall; apply andb_true_iff in Hall as (Hp & Hrest).
  - cbn [Join]. now apply Split_from_last.
  - change (Join (p :: q :: rest) (String sep EmptyString))
      with (p +:+ String sep EmptyString +:+ Join (q :: rest) (String sep EmptyString)).
    rewrite append_cons, append_empty_l, Split_from_segment by exact Hp.
    rewrite IH by exact Hrest. now rewrite append_empty_l.
Qed.

Lemma Split_mapping (accountID accountName : string) :
  no_byte "=" accountID = true -> no_byte "=" accountName = true ->
  Split (accountID +:+ "=" +:+ accountName) "=" = [accountID; accountName].
Proof.
  intros Hid Hname. unfold Split.
  rewrite append_cons, append_empty_l, Split_from_segment by exact Hid.
  rewrite Split_from_last by exact Hname. now rewrite !append_empty_l.
Qed.

Lemma addMapping_part (accountMap : gmap string string)
    (entry : string * string + string) :
  partOfMap entry = true ->
  AWS.addMapping accountMap (mappingPart entry)
  = match mappingOf entry with
    | Some (accountID, accountName) => <[accountID := accountName]> accountMap
    | None => accountMap
    end.
Proof.
  destruct entry as [[accountID accountName]|other]; cbn [partOfMap mappingPart mappingOf].
  - intros H. apply andb_true_iff in H as (H & H4). apply andb_true_iff in H as (H & H3).
    apply andb_true_iff in H as (H1 & H2).
    unfold AWS.addMapping. now rewrite Split_mapping.
  - intros H. apply andb_true_iff in H as (_ & H). apply negb_true_iff in H.
    apply Nat.eqb_neq in H. unfold AWS.addMapping.
    pose proof (Split_from_length "=" other EmptyString) as Hlen. fold (Split other "=") in Hlen.
    destruct (Split other "=") as [|a [|b [|c l]]]; try reflexivity.
    simpl in Hlen. lia.
Qed.

Lemma no_byte_mappingPart (entry : string * string + string) :
  partOfMap entry = true -> no_byte "," (mappingPart entry) = true.
Proof.
  destruct entry as [[accountID accountName]|other]; cbn [partOfMap mappingPart].
  - intros H. apply andb_true_iff in H as (H & H4). apply andb_true_iff in H as (H & H3).
    apply andb_true_iff in H as (H1 & H2).
    rewrite !no_byte_app, H1, H3. reflexivity.
  - intros H. now apply andb_true_iff in H as (H & _).
Qed.

Lemma fold_addMapping (entries : list (string * string + string)) :
  forallb partOfMap entries = true ->
  fold_left AWS.addMapping (map mappingPart entries) ∅
  = list_to_map (reverse (omap mappingOf entries)).
Proof.
  induction entries as [|entry entries IH] using rev_ind; intros Hall; [reflexivity|].
  rewrite forallb_app in Hall. apply andb_true_iff in Hall as (Hentries & Hentry).
  cbn [forallb] in Hentry. rewrite andb_true_r in Hentry.
  rewrite map_app, fold_left_app, IH by exact Hentries. cbn [map fold_left].
  rewrite addMapping_part by exact Hentry. rewrite omap_app.
  destruct (mappingOf entry) as [[accountID accountName]|] eqn:Hm;
    cbn [omap list_omap]; rewrite Hm.
  - rewrite reverse_snoc. reflexivity.
  - now rewrite app_nil_r.
Qed.

(** X12. [NewAWSBilling] reads the account map string part by part: every part
    that is a mapping gives an override, a later mapping of an account
    replaces an earlier one, and the parts that are no mapping are skipped.
    The empty string gives no override. *)
Theorem NewAWSBilling_account_map (bucketName region rootAccountID : string)
    (entries : list (string * string + string)) :
  forallb partOfMap entries = true ->
  AWS.accountNameByIDOverride
    (AWS.NewAWSBilling bucketName region rootAccountID (Join (map mappingPart entries) ","))
  = list_to_map (reverse (omap mappingOf entries)).
Proof.
  intros Hall. cbn [AWS.NewAWSBilling AWS.accountNameByIDOverride].
  destruct entries as [|entry entries]; [reflexivity|].
  rewrite <- fold_addMapping by exact Hall. f_equal.
  change (map mappingPart (entry :: entries))
    with (mappingPart entry :: map mappingPart entries).
  unfold Split. rewrite Split_from_Join; [now rewrite append_empty_l|].
  change (forallb (no_byte ",") (map mappingPart (entry :: entries)) = true).
  rewrite forallb_forall in Hall. apply forallb_forall. intros part Hin.
  apply in_map_iff in Hin as (e & <- & He). apply no_byte_mappingPart. now apply Hall.
Qed.

Lemma NewAWSBilling_account_map_witness :
  AWS.accountNameByIDOverride
    (AWS.NewAWSBilling "billing" "eu-west-1" EmptyString
       "1200000=acme-dev,oops,120001=acme-prod,1200000=acme-test")
  = {["1200000" := "acme-test"; "120001" := "acme-prod"]}.
Proof.
  etransitivity.
  - apply (NewAWSBilling_account_map "billing" "eu-west-1" EmptyString
             [ inl ("1200000", "acme-dev"); inr "oops"; inl ("120001", "acme-prod");
               inl ("1200000", "acme-test") ]).
    reflexivity.
  - vm_compute. reflexivity.
Defined.

(** ** The report slots that the GCP fetcher touches *)

Section Slots.

Variable ParseFloat : string -> option Q.
Variable env : GCP.Env.

Lemma getReportFile_panics (g : GCP.GCPBilling) (o : GCP.ObjectAttrs) :
  GCP.getReportFile ParseFloat env g o = Panics <-> slotOutOfRange o = true.
Proof.
  unfold GCP.getReportFile, slotOutOfRange, sequenceNumber, sequenceChars.
  destruct (_ <? 8)%nat; [split; discriminate|].
  destruct (Atoi _) as [i|]; [|split; discriminate].
  destruct (Z.leb_spec 0 (i - 1)), (Z.ltb_spec (i - 1) (Z.of_nat GCP.ReportsPerMonth)),
    (Z.leb_spec 1 i), (Z.leb_spec i (Z.of_nat GCP.ReportsPerMonth));
    cbn [andb negb]; try lia; try (split; [discriminate|discriminate]);
    try (split; reflexivity).
  - destruct (bool_decide _); [split; discriminate|].
    destruct (GCP.ReadObject _ _ _); split; discriminate.
Qed.

Lemma getReportFiles_panics (objects : list GCP.ObjectAttrs) :
  forall g,
    GCP.getReportFiles ParseFloat env g objects = Panics
    <-> existsb slotOutOfRange objects = true.
Proof.
  induction objects as [|o rest IH]; intros g; cbn [GCP.getReportFiles existsb].
  - split; discriminate.
  - destruct (GCP.getReportFile ParseFloat env g o) as [g'|] eqn:Hfile.
    + rewrite IH. destruct (slotOutOfRange o) eqn:Hout; [|reflexivity].
      apply getReportFile_panics with (g := g) in Hout. congruence.
    + apply getReportFile_panics in Hfile. rewrite Hfile. split; reflexivity.
Qed.

Lemma getReportFile_frame (g g' : GCP.GCPBilling) (o : GCP.ObjectAttrs) :
  GCP.getReportFile ParseFloat env g o = Returns g' ->
  GCP.ReportsMonthPrefix g' = GCP.ReportsMonthPrefix g
  /\ List.length (GCP.Reports g') = List.length (GCP.Reports g)
  /\ forall j, namesSlot j o = false -> GCP.Reports g' !! j = GCP.Reports g !! j.
Proof.
  unfold GCP.getReportFile, namesSlot, sequenceNumber, sequenceChars.
  assert (Hsame : forall h, h = g ->
            GCP.ReportsMonthPrefix h = GCP.ReportsMonthPrefix g
            /\ List.length (GCP.Reports h) = List.length (GCP.Reports g)
            /\ forall j : nat, GCP.Reports h !! j = GCP.Reports g !! j)
    by (intros h ->; auto).
  destruct (_ <? 8)%nat.
  { intros H. injection H as H. destruct (Hsame g' (eq_sym H)) as (? & ? & ?). auto. }
  destruct (Atoi _) as [i|].
  2:{ intros H. injection H as H. destruct (Hsame g' (eq_sym H)) as (? & ? & ?). auto. }
  destruct (_ && _) eqn:Hrange; [|discriminate].
  apply andb_true_iff in Hrange as (Hlo & Hhi). apply Z.leb_le in Hlo.
  assert (Hset : forall report,
            Returns (GCP.set_Reports g (<[Z.to_nat (i - 1) := report]> (GCP.Reports g)))
            = Returns g' ->
            GCP.ReportsMonthPrefix g' = GCP.ReportsMonthPrefix g
            /\ List.length (GCP.Reports g') = List.length (GCP.Reports g)
            /\ forall j, (i =? Z.of_nat j + 1) = false ->
                         GCP.Reports g' !! j = GCP.Reports g !! j).
  { intros report H. injection H as <-. cbn [GCP.set_Reports GCP.ReportsMonthPrefix GCP.Reports].
    split; [reflexivity|]. split; [apply length_insert|].
    intros j Hj. apply Z.eqb_neq in Hj. apply list_lookup_insert_ne. lia. }
  destruct (bool_decide _).
  { intros H. injection H as H. destruct (Hsame g' (eq_sym H)) as (? & ? & ?). auto. }
  destruct (GCP.ReadObject _ _ _).
  - intros H. injection H as H. destruct (Hsame g' (eq_sym H)) as (? & ? & ?). auto.
  - apply Hset.
  - apply Hset.
Qed.

Lemma getReportFiles_frame (objects : list GCP.ObjectAttrs) :
  forall g g',
    GCP.getReportFiles ParseFloat env g objects = Returns g' ->
    GCP.ReportsMonthPrefix g' = GCP.ReportsMonthPrefix g
    /\ List.length (GCP.Reports g') = List.length (GCP.Reports g)
    /\ forall j, forallb (fun o => negb (namesSlot j o)) objects = true ->
                 GCP.Reports g' !! j = GCP.Reports g !! j.
Proof.
  induction objects as [|o rest IH]; intros g g'; cbn [GCP.getReportFiles forallb].
  - intros H. injection H as <-. auto.
  - destruct (GCP.getReportFile ParseFloat env g o) as [g1|] eqn:Hfile; [|discriminate].
    intros Hrest. apply getReportFile_frame in Hfile as (H1 & H2 & H3).
    apply IH in Hrest as (H4 & H5 & H6).
    split; [congruence|]. split; [congruence|].
    intros j Hj. apply andb_true_iff in Hj as (Ho & Hj).
    rewrite (H6 j Hj). apply H3. now apply negb_true_iff in Ho.
Qed.

(** X13. When [GetReports] finds the listing [it] under [prefix], it leaves that
    prefix as the month of the cache and touches only the slots that the
    listed objects name: any other slot keeps its report when the month is
    the one of the cache, and is empty when the month has changed. *)
Theorem GetReports_touches_listed_slots (g g' : GCP.GCPBilling) (err : option GCP.error)
    (prefix : string) (it : GCP.Listing) :
  GCP.NewClientFails env = false ->
  GCP.firstListing env (GCP.filterLastTwoMonths (GCP.ReportPrefix g) (GCP.Now env))
    = inl (Some (prefix, it)) ->
  List.length (GCP.Reports g) = GCP.ReportsPerMonth ->
  GCP.GetReports ParseFloat env g = Returns (err, g') ->
  GCP.ReportsMonthPrefix g' = prefix
  /\ List.length (GCP.Reports g') = GCP.ReportsPerMonth
  /\ forall j, (j < GCP.ReportsPerMonth)%nat ->
               forallb (fun o => negb (namesSlot j o)) (GCP.Items it) = true ->
               GCP.Reports g' !! j
               = if String.eqb (GCP.ReportsMonthPrefix g) prefix
                 then GCP.Reports g !! j
                 else Some GCP.emptyReport.
Proof.
  intros Hclient Hlisting Hlen. unfold GCP.GetReports. rewrite Hclient, Hlisting.
  destruct (GCP.getReportFiles _ _ _ _) as [g1|] eqn:Hfiles; [|discriminate].
  intros H. injection H as _ <-.
  apply getReportFiles_frame in Hfiles as (H1 & H2 & H3).
  destruct (String.eqb_spec (GCP.ReportsMonthPrefix g) prefix) as [Heq|Hne];
    cbn [negb] in *.
  - split; [congruence|]. split; [congruence|]. intros j _ Hj. now apply H3.
  - cbn [GCP.ReportsMonthPrefix GCP.Reports] in *.
    split; [exact H1|]. split; [now rewrite H2, length_replicate|].
    intros j Hlt Hj. rewrite (H3 j Hj). now apply lookup_replicate_2.
Qed.

(** X14. [GetReports] panics exactly when it finds a listing in which some
    object has a sequence number without a report slot. *)
Theorem GetReports_panics_on_slot_out_of_range (g : GCP.GCPBilling) :
  GCP.GetReports ParseFloat env g = Panics
  <-> GCP.NewClientFails env = false
      /\ exists prefix it,
           GCP.firstListing env (GCP.filterLastTwoMonths (GCP.ReportPrefix g) (GCP.Now env))
             = inl (Some (prefix, it))
           /\ existsb slotOutOfRange (GCP.Items it) = true.
Proof.
  unfold GCP.GetReports.
  destruct (GCP.NewClientFails env); [split; [discriminate|intros [? _]; discriminate]|].
  destruct (GCP.firstListing _ _) as [[[prefix it]|]|e].
  - destruct (GCP.getReportFiles _ _ _ _) as [g1|] eqn:Hfiles.
    + split; [discriminate|]. intros (_ & prefix' & it' & Heq & Hout).
      injection Heq as <- <-.
      rewrite (proj2 (getReportFiles_panics _ _) Hout) in Hfiles. discriminate.
    + apply getReportFiles_panics in Hfiles. split; [|reflexivity].
      intros _. split; [reflexivity|]. eauto.
  - split; [discriminate|]. intros (_ & ? & ? & H & _). discriminate.
  - split; [discriminate|]. intros (_ & ? & ? & H & _). discriminate.
Qed.

End Slots.

Lemma GetReports_touches_listed_slots_witness :
  match GCP.GetReports ParseDecimal
          (Examples.gcpEnv [Examples.gcpObject "prefix-2017-01-02.json" [Byte.x4a]])
          Examples.gcpSource with
  | Returns (_, g') =>
      GCP.ReportsMonthPrefix g' = "prefix-2017-01-"
      /\ GCP.Reports g' !! 4%nat = Some GCP.emptyReport
  | Panics => False
  end.
Proof.
  destruct (GCP.GetReports _ _ _) as [[err g']|] eqn:Hrun; [|vm_compute in Hrun; discriminate].
  destruct (GetReports_touches_listed_slots ParseDecimal
              (Examples.gcpEnv [Examples.gcpObject "prefix-2017-01-02.json" [Byte.x4a]])
              Examples.gcpSource g' err "prefix-2017-01-"
              {| GCP.Items := [Examples.gcpObject "prefix-2017-01-02.json" [Byte.x4a]];
                 GCP.ListingFails := false |} eq_refl eq_refl eq_refl Hrun)
    as (Hprefix & _ & Hslots).
  split; [exact Hprefix|]. apply (Hslots 4%nat); [unfold GCP.ReportsPerMonth; lia|reflexivity].
Defined.

(** ** A pass of the GCP source over its reports *)

Section GCPPass.

Variable ParseFloat : string -> option Q.

Lemma gcp_reconcile_sums (fuel : nat) (r : GCP.resourcesMetadata)
    (elems : list GCP.gcpBillingElement) (k : string) :
  forall values adds values' adds',
    GCP.reconcile ParseFloat fuel r (values, adds) elems = Some (values', adds') ->
    (appliedDelta k adds'
     == appliedDelta k adds + (lastValue values' k - lastValue values k))%Q.
Proof.
  induction elems as [|elem rest IH]; intros values adds values' adds' Hrun.
  - injection Hrun as <- <-. ring.
  - cbn [GCP.reconcile] in Hrun.
    destruct (GCP.reconcileElem ParseFloat fuel r (values, adds) elem)
      as [[values1 adds1]|] eqn:Hstep; [|discriminate].
    rewrite (IH _ _ _ _ Hrun). clear IH Hrun.
    apply gcp_reconcileElem_cases in Hstep.
    destruct Hstep as [(_ & Hst)|(Hle & labels & Hst)]; injection Hst as -> ->.
    + rewrite lastValue_withKey. ring.
    + rewrite appliedDelta_snoc, lastValue_insert. cbn [AddKey AddDelta].
      destruct (decide (GCP.groupByProjectIDServiceCurrency elem = k)) as [<-|Hne].
      * ring.
      * rewrite lastValue_withKey. ring.
Qed.

Lemma gcp_reconcile_other_keys (fuel : nat) (r : GCP.resourcesMetadata)
    (elems : list GCP.gcpBillingElement) (k : string)
    (values values' : gmap string Q) (adds adds' : list CounterAdd) :
  GCP.reconcile ParseFloat fuel r (values, adds) elems = Some (values', adds') ->
  List.filter (fun e => String.eqb (GCP.groupByProjectIDServiceCurrency e) k) elems = [] ->
  lastValue values' k = lastValue values k.
Proof.
  intros Hrun Hnone.
  apply (gcp_reconcile_telescopes ParseFloat k) in Hrun as [_ Hlast].
  - rewrite Hlast. unfold gcpPresentedIn. now rewrite Hnone.
  - unfold gcpPresentedIn. rewrite Hnone. exact I.
Qed.

Lemma gcp_reconcile_one (fuel : nat) (r : GCP.resourcesMetadata)
    (elems : list GCP.gcpBillingElement) (k : string) :
  forall values adds values' adds',
    GCP.reconcile ParseFloat fuel r (values, adds) elems = Some (values', adds') ->
    (List.length
       (List.filter (fun e => String.eqb (GCP.groupByProjectIDServiceCurrency e) k) elems)
     <= 1)%nat ->
    lastValue values' k
    = match List.filter (fun e => String.eqb (GCP.groupByProjectIDServiceCurrency e) k)
              elems with
      | [] => lastValue values k
      | g :: _ => raisedTo (lastValue values k) (GCP.GetValue ParseFloat g)
      end.
Proof.
  induction elems as [|elem rest IH]; intros values adds values' adds' Hrun Hone.
  - injection Hrun as <- <-. reflexivity.
  - cbn [GCP.reconcile] in Hrun.
    destruct (GCP.reconcileElem ParseFloat fuel r (values, adds) elem)
      as [[values1 adds1]|] eqn:Hstep; [|discriminate].
    cbn [List.filter] in *.
    apply gcp_reconcileElem_cases in Hstep.
    destruct (String.eqb_spec (GCP.groupByProjectIDServiceCurrency elem) k) as [Heq|Hne].
    + cbn [List.length] in Hone.
      assert (Hnone : List.filter
                (fun e => String.eqb (GCP.groupByProjectIDServiceCurrency e) k) rest = []).
      { destruct (List.filter _ rest); [reflexivity|simpl in Hone; lia]. }
      rewrite (gcp_reconcile_other_keys _ _ _ _ _ _ _ _ Hrun Hnone).
      unfold raisedTo. rewrite <- Heq.
      destruct Hstep as [(Hlt & Hst)|(Hle & labels & Hst)]; injection Hst as -> ->.
      * rewrite lastValue_withKey.
        destruct (Qlt_le_dec _ _) as [_|Hge]; [reflexivity|].
        exfalso. apply (Qlt_not_le _ _ Hlt Hge).
      * rewrite lastValue_insert, decide_True by reflexivity.
        destruct (Qlt_le_dec _ _) as [Hlt|_]; [|reflexivity].
        exfalso. apply (Qlt_not_le _ _ Hlt Hle).
    + rewrite (IH _ _ _ _ Hrun Hone).
      assert (Hsame : lastValue values1 k = lastValue values k).
      { destruct Hstep as [(_ & Hst)|(_ & labels & Hst)]; injection Hst as -> ->.
        - apply lastValue_withKey.
        - rewrite lastValue_insert, decide_False by exact Hne. apply lastValue_withKey. }
      now rewrite Hsame.
Qed.

Lemma gcp_reduce_filter_key (items : list GCP.gcpBillingElement) (k : string) :
  Forall (fun x => GCP.GetServiceName x <> EmptyString) items ->
  List.filter (fun e => String.eqb (GCP.groupByProjectIDServiceCurrency e) k)
    (GCP.reduceElementsByProjectIDServiceCurrency ParseFloat items)
  = match groupOf GCP.groupByProjectIDServiceCurrency (gcpNewGroup ParseFloat)
            (gcpAddTo ParseFloat) k items with
    | Some g => [g]
    | None => []
    end.
Proof.
  intros Hgood.
  unfold GCP.reduceElementsByProjectIDServiceCurrency, GCP.reduceElementsByFunc.
  apply (reduce_filter_key GCP.groupByProjectIDServiceCurrency (gcpNewGroup ParseFloat)
           (gcpAddTo ParseFloat) _
           (gcp_reduce_step_eq ParseFloat GCP.groupByProjectIDServiceCurrency)
           (fun x => GCP.GetServiceName x <> EmptyString)).
  - intros x Hx. unfold GCP.groupByProjectIDServiceCurrency.
    now rewrite gcpNewGroup_service.
  - reflexivity.
  - intros x Hx. unfold gcpNewGroup at 1.
    rewrite gcpNewGroup_service by exact Hx. reflexivity.
  - apply gcpNewGroup_fixed.
  - exact Hgood.
Qed.

Lemma gcp_group_GetValue (k : string) (items : list GCP.gcpBillingElement)
    (g : GCP.gcpBillingElement) :
  groupOf GCP.groupByProjectIDServiceCurrency (gcpNewGroup ParseFloat)
    (gcpAddTo ParseFloat) k items = Some g ->
  (GCP.GetValue ParseFloat g
   == total (GCP.GetValue ParseFloat <$>
               List.filter (fun x => String.eqb (GCP.groupByProjectIDServiceCurrency x) k)
                 items))%Q.
Proof.
  intros Hgroup.
  pose proof (groupOf_value GCP.groupByProjectIDServiceCurrency (gcpNewGroup ParseFloat)
                (gcpAddTo ParseFloat) (GCP.GetValue ParseFloat)
                (fun e => GCP.Value (GCP.Cost e))
                (fun x => Qeq_refl _) (fun e x => Qeq_refl _) k items g Hgroup) as Hvalue.
  rewrite <- Hvalue. unfold groupOf in Hgroup.
  destruct (List.filter _ items) as [|first rest]; [discriminate|].
  injection Hgroup as <-.
  destruct (gcp_group_fields ParseFloat rest (gcpNewGroup ParseFloat first))
    as (_ & _ & _ & _ & Hamount & _).
  unfold GCP.GetValue at 1. rewrite Hamount. reflexivity.
Qed.

Lemma raisedTo_compat (old new new' : Q) :
  (new == new')%Q -> (raisedTo old new == raisedTo old new')%Q.
Proof.
  intros Heq. unfold raisedTo.
  destruct (Qlt_le_dec new old) as [H|H], (Qlt_le_dec new' old) as [H'|H'];
    try reflexivity; try exact Heq.
  - rewrite Heq in H. exfalso. apply (Qlt_not_le _ _ H H').
  - rewrite <- Heq in H'. exfalso. apply (Qlt_not_le _ _ H' H).
Qed.

Variable env : GCP.Env.

(** X16. A pass of [OldQuery] over reports whose elements all have a service
    name: afterwards the last-observed value of a key of the reports is the
    sum of the values of its elements in all reports, unless it stood
    higher before, and that of any other key is what it was. *)
Theorem OldQuery_report_totals (fuel : nat) (g g' : GCP.GCPBilling)
    (adds : list CounterAdd) :
  GCP.OldQuery ParseFloat env fuel g = Some (Returns (None, adds, g')) ->
  Forall (fun x => GCP.GetServiceName x <> EmptyString)
    (concat (map GCP.Elements (GCP.Reports g'))) ->
  forall k,
    (lastValue (GCP.metricValues g') k
     == if decide (k ∈ map GCP.groupByProjectIDServiceCurrency
                         (concat (map GCP.Elements (GCP.Reports g'))))
        then raisedTo (lastValue (GCP.metricValues g) k)
               (total (GCP.GetValue ParseFloat <$>
                         List.filter
                           (fun x => String.eqb (GCP.groupByProjectIDServiceCurrency x) k)
                           (concat (map GCP.Elements (GCP.Reports g')))))
        else lastValue (GCP.metricValues g) k)%Q.
Proof.
  unfold GCP.OldQuery. intros Hrun.
  destruct (GCP.GetReports ParseFloat env g) as [[[e|] g1]|] eqn:Hreports;
    [discriminate| |discriminate].
  destruct (GCP.reconcile _ _ _ _ _) as [[values adds1]|] eqn:Hrec; [|discriminate].
  injection Hrun as <- <-.
  cbn [GCP.set_metricValues GCP.set_metadata GCP.metricValues GCP.Reports].
  rewrite <- (GetReports_metricValues _ _ _ _ _ Hreports).
  intros Hgood k.
  pose proof (gcp_reduce_filter_key _ k Hgood) as Hfilter.
  rewrite (gcp_reconcile_one _ _ _ k _ _ _ _ Hrec)
    by (rewrite Hfilter; destruct (groupOf _ _ _ _ _); simpl; lia).
  rewrite Hfilter.
  destruct (groupOf _ _ _ k _) as [group|] eqn:Hgroup.
  - rewrite decide_True.
    + apply raisedTo_compat. now apply gcp_group_GetValue.
    + destruct (decide (k ∈ map GCP.groupByProjectIDServiceCurrency
                          (concat (map GCP.Elements (GCP.Reports g1))))) as [Hin|Hout];
        [exact Hin|].
      apply groupOf_None with (mk := gcpNewGroup ParseFloat) (add := gcpAddTo ParseFloat)
        in Hout. congruence.
  - apply groupOf_None in Hgroup. rewrite decide_False by exact Hgroup. reflexivity.
Qed.

End GCPPass.

Lemma OldQuery_report_totals_witness :
  match GCP.OldQuery ParseDecimal twoReports 1 Examples.gcpSource with
  | Some (Returns (None, adds, g')) =>
      (lastValue (GCP.metricValues g') "demo-1-compute-engine-USD" == 3)%Q
  | _ => False
  end.
Proof.
  destruct (GCP.OldQuery ParseDecimal twoReports 1 Examples.gcpSource)
    as [[[[[e|] adds] g']|]|] eqn:Hrun; try (vm_compute in Hrun; discriminate).
  assert (Hreports : concat (map GCP.Elements (GCP.Reports g'))
                     = [ gcpNewGroup ParseDecimal
                           (Examples.measured
                              [Examples.measurement "com.google.cloud/services/compute-engine/Vm"]);
                         gcpNewGroup ParseDecimal
                           (Examples.measured
                              [Examples.measurement "com.google.cloud/services/compute-engine/Vm"]) ]).
  { pose proof Hrun as Hg. vm_compute in Hg. injection Hg as _ <-. vm_compute. reflexivity. }
  rewrite (OldQuery_report_totals ParseDecimal twoReports 1 Examples.gcpSource g' adds Hrun).
  - rewrite Hreports. vm_compute. reflexivity.
  - rewrite Hreports. repeat (apply Forall_cons; split; [discriminate|]). apply Forall_nil_2.
Defined.

(** ** The counter of the GCP source never decreases *)

Lemma gcp_reconcile_never_decreases (ParseFloat : string -> option Q) (fuel : nat)
    (r : GCP.resourcesMetadata) (elems : list GCP.gcpBillingElement) :
  forall values adds values' adds',
    GCP.reconcile ParseFloat fuel r (values, adds) elems = Some (values', adds') ->
    (exists more, adds' = adds ++ more /\ Forall (fun add => (0 <= AddDelta add)%Q) more)
    /\ forall k, (lastValue values k <= lastValue values' k)%Q.
Proof.
  induction elems as [|elem rest IH]; intros values adds values' adds' Hrun.
  - injection Hrun as <- <-. split; [|intros k; apply Qle_refl].
    exists []. split; [now rewrite app_nil_r|constructor].
  - cbn [GCP.reconcile] in Hrun.
    destruct (GCP.reconcileElem ParseFloat fuel r (values, adds) elem)
      as [[values1 adds1]|] eqn:Hstep; [|discriminate].
    destruct (IH _ _ _ _ Hrun) as ((more & -> & Hmore) & Hmono).
    apply gcp_reconcileElem_cases in Hstep.
    destruct Hstep as [(_ & Hst)|(Hle & labels & Hst)]; injection Hst as -> ->.
    + split; [exists more; split; [reflexivity|exact Hmore]|].
      intros k. specialize (Hmono k). now rewrite lastValue_withKey in Hmono.
    + split.
      * eexists. split; [now rewrite <- app_assoc|].
        apply Forall_app. split; [|exact Hmore].
        apply Forall_singleton. cbn [AddDelta]. lra.
      * intros k. specialize (Hmono k). rewrite lastValue_insert in Hmono.
        destruct (decide (GCP.groupByProjectIDServiceCurrency elem = k)) as [<-|Hne].
        -- eapply Qle_trans; [exact Hle|exact Hmono].
        -- now rewrite lastValue_withKey in Hmono.
Qed.



(** ** What a refresh of the AWS directory cache keeps of the accounts *)

Lemma lastTag_cons (key : string) (tag : string * string) (tags : list (string * string))
    (none : string) :
  lastTag key (tag :: tags) none
  = lastTag key tags (if String.eqb (fst tag) key then snd tag else none).
Proof.
  unfold lastTag. cbn [List.filter]. destruct (String.eqb (fst tag) key); [|reflexivity].
  rewrite list.last_cons. now destruct (last _).
Qed.

Lemma sameAccount_refl (x : AWSOrg.Account) : sameAccount x x.
Proof. now repeat split. Qed.

Lemma sameAccount_trans (x y z : AWSOrg.Account) :
  sameAccount x y -> sameAccount y z -> sameAccount x z.
Proof. unfold sameAccount. intros (? & ? & ?) (? & ? & ?). repeat split; congruence. Qed.

Lemma accountsKept_refl (m : gmap string AWSOrg.Account) : accountsKept m m.
Proof. intros k x Hk. exists x. split; [exact Hk|apply sameAccount_refl]. Qed.

Lemma accountsKept_trans (m1 m2 m3 : gmap string AWSOrg.Account) :
  accountsKept m1 m2 -> accountsKept m2 m3 -> accountsKept m1 m3.
Proof.
  intros H12 H23 k x Hk. destruct (H12 k x Hk) as (y & Hy & Hxy).
  destruct (H23 k y Hy) as (z & Hz & Hyz). exists z. split; [exact Hz|].
  now apply sameAccount_trans with y.
Qed.

Lemma accountsKept_insert_new (m : gmap string AWSOrg.Account) (k : string)
    (x : AWSOrg.Account) :
  m !! k = None -> accountsKept m (<[k := x]> m).
Proof.
  intros Hnone j y Hj. exists y. split; [|apply sameAccount_refl].
  rewrite lookup_insert_ne; [exact Hj|]. intros <-. congruence.
Qed.

Lemma accountsKept_insert_same (m : gmap string AWSOrg.Account) (k : string)
    (x x' : AWSOrg.Account) :
  m !! k = Some x -> sameAccount x' x -> accountsKept m (<[k := x']> m).
Proof.
  intros Hk Hsame j y Hj. destruct (decide (k = j)) as [<-|Hne].
  - exists x'. rewrite lookup_insert_eq. split; [reflexivity|]. congruence.
  - exists y. rewrite lookup_insert_ne by exact Hne. split; [exact Hj|apply sameAccount_refl].
Qed.

Section AWSTags.

Variable dir : AWSOrg.Directory.
Hypothesis Hunits : unitsAsAsked dir.

Lemma describeParent_asked (parentID : string) (parent : AWSOrg.Account) :
  AWSOrg.describeParent dir parentID = AWSOrg.Value parent -> AWSOrg.ID parent = parentID.
Proof.
  unfold AWSOrg.describeParent. intros H.
  destruct (HasPrefix parentID "r-").
  - destruct (AWSOrg.MasterAccountEmail dir) as [email|]; [|discriminate].
    destruct (Split email "@") as [|? [|domain ?]]; try discriminate.
    now injection H as <-.
  - destruct (HasPrefix parentID "ou-"); [|discriminate].
    destruct (AWSOrg.OrganizationalUnit dir parentID) as [[unitID unitName]|] eqn:Hunit;
      [|discriminate].
    injection H as <-. simpl. now apply Hunits in Hunit.
Qed.

Lemma knownParent_keeps (ac ac1 : AWSOrg.Account) (home : option string)
    (m m1 : gmap string AWSOrg.Account) :
  (forall key, home = Some key -> m !! key = Some ac) ->
  AWSOrg.knownParent dir ac home m = inl (ac1, m1) ->
  sameAccount ac1 ac /\ accountsKept m m1.
Proof.
  intros Hhome. unfold AWSOrg.knownParent.
  destruct (String.eqb (AWSOrg.Parent ac) EmptyString).
  - destruct (AWSOrg.ListParents dir (AWSOrg.ID ac)) as [[|p [|? ?]]|]; try discriminate.
    intros H. injection H as <- <-. split; [now repeat split|].
    destruct home as [key|]; [|apply accountsKept_refl].
    apply accountsKept_insert_same with ac; [now apply Hhome|now repeat split].
  - intros H. injection H as <- <-. split; [apply sameAccount_refl|apply accountsKept_refl].
Qed.

Lemma findParent_keeps (ac1 parent : AWSOrg.Account) (parentHome : string)
    (m1 m2 : gmap string AWSOrg.Account) :
  AWSOrg.findParent dir ac1 m1 = AWSOrg.Value (parent, parentHome, m2) ->
  accountsKept m1 m2 /\ m2 !! parentHome = Some parent.
Proof.
  unfold AWSOrg.findParent.
  destruct (m1 !! AWSOrg.Parent ac1) as [p|] eqn:Hp.
  - intros H. injection H as <- <- <-. split; [apply accountsKept_refl|exact Hp].
  - destruct (AWSOrg.describeParent dir (AWSOrg.Parent ac1)) as [p| |] eqn:Hd;
      try discriminate.
    intros H. injection H as <- <- <-. apply describeParent_asked in Hd.
    split; [|now rewrite lookup_insert_eq].
    apply accountsKept_insert_new. now rewrite Hd.
Qed.

Lemma getAccountPath_keeps (fuel : nat) :
  forall ac home m res ac' m',
    (forall key, home = Some key -> m !! key = Some ac) ->
    AWSOrg.getAccountPath dir fuel ac home m = Some (res, ac', m') ->
    sameAccount ac' ac /\ accountsKept m m'.
Proof.
  induction fuel as [|fuel IH]; intros ac home m res ac' m' Hhome; [discriminate|].
  cbn [AWSOrg.getAccountPath].
  assert (Hbody :
    match AWSOrg.knownParent dir ac home m with
    | inr early => Some (early, ac, m)
    | inl (ac, accountMap) =>
        match AWSOrg.findParent dir ac accountMap with
        | AWSOrg.Error => Some (AWSOrg.Error, ac, accountMap)
        | AWSOrg.Panic => Some (AWSOrg.Panic, ac, accountMap)
        | AWSOrg.Value (parent, parentHome, accountMap) =>
            match AWSOrg.getAccountPath dir fuel parent (Some parentHome) accountMap with
            | None => None
            | Some (AWSOrg.Value result, _, accountMap) =>
                Some (AWSOrg.Value (result ++ [AWSOrg.Name parent]), ac, accountMap)
            | Some (AWSOrg.Error, _, accountMap) => Some (AWSOrg.Error, ac, accountMap)
            | Some (AWSOrg.Panic, _, accountMap) => Some (AWSOrg.Panic, ac, accountMap)
            end
        end
    end = Some (res, ac', m') ->
    sameAccount ac' ac /\ accountsKept m m').
  { destruct (AWSOrg.knownParent dir ac home m) as [[ac1 m1]|early] eqn:Hknown.
    2:{ intros H. injection H as _ <- <-.
        split; [apply sameAccount_refl|apply accountsKept_refl]. }
    destruct (knownParent_keeps _ _ _ _ _ Hhome Hknown) as [Hsame Hkept1].
    destruct (AWSOrg.findParent dir ac1 m1) as [[[parent parentHome] m2]| |] eqn:Hfind.
    2:{ intros H. injection H as _ <- <-. now split. }
    2:{ intros H. injection H as _ <- <-. now split. }
    destruct (findParent_keeps _ _ _ _ _ Hfind) as [Hkept2 Hparent].
    destruct (AWSOrg.getAccountPath dir fuel parent (Some parentHome) m2)
      as [[[r p'] m3]|] eqn:Hwalk; [|discriminate].
    assert (Hkept3 : accountsKept m2 m3).
    { eapply (IH parent (Some parentHome) m2 r p' m3); [|exact Hwalk].
      intros key Hkey. injection Hkey as <-. exact Hparent. }
    intros H.
    assert (Hres : ac' = ac1 /\ m' = m3) by (destruct r; injection H as _ <- <-; now split).
    destruct Hres as [-> ->]. split; [exact Hsame|].
    apply accountsKept_trans with m1; [exact Hkept1|].
    now apply accountsKept_trans with m2. }
  destruct (AWSOrg.Type_ ac); [exact Hbody|exact Hbody|].
  intros H. injection H as _ <- <-. split; [apply sameAccount_refl|apply accountsKept_refl].
Qed.

Variable a : AWSOrg.AWSBilling.

Lemma applyTags_last (tags : list (string * string)) :
  forall ac,
    AWSOrg.ID (fold_left (AWSOrg.applyTag a) tags ac) = AWSOrg.ID ac
    /\ AWSOrg.Name (fold_left (AWSOrg.applyTag a) tags ac)
       = lastTag (AWSOrg.ProjectIDTag a) tags (AWSOrg.Name ac)
    /\ AWSOrg.Owner (fold_left (AWSOrg.applyTag a) tags ac)
       = lastTag (AWSOrg.OwnerTag a) tags (AWSOrg.Owner ac).
Proof.
  induction tags as [|tag tags IH]; intros ac; [now repeat split|].
  cbn [fold_left]. destruct (IH (AWSOrg.applyTag a ac tag)) as (-> & -> & ->).
  rewrite !lastTag_cons. unfold AWSOrg.applyTag.
  destruct (fst tag =? AWSOrg.ProjectIDTag a)%string;
    destruct (fst tag =? AWSOrg.OwnerTag a)%string; now repeat split.
Qed.

Lemma ingestAccount_caches (fuel : nat) (m m' : gmap string AWSOrg.Account)
    (account : string * string) :
  AWSOrg.ingestAccount dir a fuel m account = Some (AWSOrg.Value m') ->
  cachedWithTags dir a m' account
  /\ forall k x, k <> fst account -> m !! k = Some x ->
                 exists x', m' !! k = Some x' /\ sameAccount x' x.
Proof.
  unfold AWSOrg.ingestAccount.
  destruct (applyTags_last (AWSOrg.Tags dir (fst account))
              (AWSOrg.set_Name (AWSOrg.newAccount (fst account)) (snd account)))
    as (Hid & Hname & Howner).
  cbn [AWSOrg.set_Name AWSOrg.newAccount AWSOrg.ID AWSOrg.Name AWSOrg.Owner]
    in Hid, Hname, Howner.
  destruct (AWSOrg.getAccountPath dir fuel _ None m) as [[[res ac'] m1]|] eqn:Hwalk;
    [|discriminate].
  apply getAccountPath_keeps in Hwalk as ((Hid' & Hname' & Howner') & Hkept);
    [|discriminate].
  assert (Hdone : forall ac'',
            sameAccount ac'' ac' ->
            Some (AWSOrg.Value (<[AWSOrg.ID ac'' := ac'']> m1)) = Some (AWSOrg.Value m') ->
            cachedWithTags dir a m' account
            /\ forall k x, k <> fst account -> m !! k = Some x ->
                           exists x', m' !! k = Some x' /\ sameAccount x' x).
  { intros ac'' (Hid'' & Hname'' & Howner'') H. injection H as <-.
    assert (Hkey : AWSOrg.ID ac'' = fst account) by congruence.
    rewrite Hkey. split.
    - exists ac''. rewrite lookup_insert_eq. repeat split; congruence.
    - intros k x Hne Hk. destruct (Hkept k x Hk) as (x' & Hx' & Hsame).
      exists x'. rewrite lookup_insert_ne by congruence. now split. }
  destruct res as [path| |]; [| |discriminate].
  - apply Hdone. now repeat split.
  - apply Hdone. apply sameAccount_refl.
Qed.

Lemma ingestAccounts_caches (fuel : nat) (accounts : list (string * string)) :
  forall m m',
    NoDup (map fst accounts) ->
    AWSOrg.ingestAccounts dir a fuel m accounts = Some (AWSOrg.Value m') ->
    Forall (cachedWithTags dir a m') accounts
    /\ forall k x, ~ k ∈ map fst accounts -> m !! k = Some x ->
                   exists x', m' !! k = Some x' /\ sameAccount x' x.
Proof.
  induction accounts as [|account rest IH]; intros m m' Hnd; cbn [AWSOrg.ingestAccounts].
  - intros H. injection H as <-. split; [constructor|].
    intros k x _ Hk. exists x. split; [exact Hk|apply sameAccount_refl].
  - cbn [map] in Hnd. apply NoDup_cons in Hnd as (Hnew & Hnd).
    destruct (AWSOrg.ingestAccount dir a fuel m account) as [[m1| |]|] eqn:Hone;
      try discriminate.
    intros Hrest. apply ingestAccount_caches in Hone as (Hcached & Hkept1).
    apply (IH _ _ Hnd) in Hrest as (Hall & Hkept).
    split.
    + constructor; [|exact Hall].
      destruct Hcached as (ac & Hac & Hid & Hname & Howner).
      destruct (Hkept _ _ Hnew Hac) as (ac' & Hac' & Hid' & Hname' & Howner').
      exists ac'. repeat split; congruence.
    + intros k x Hk Hx. cbn [map] in Hk.
      destruct (Hkept1 k x) as (x1 & Hx1 & Hsame1); [|exact Hx|].
      { intros ->. apply Hk. left. }
      destruct (Hkept k x1) as (x2 & Hx2 & Hsame2); [|exact Hx1|].
      { intros Hin. apply Hk. now right. }
      exists x2. split; [exact Hx2|]. now apply sameAccount_trans with x1.
Qed.

(** X19. When the organizations service describes the unit it is asked for
    and lists every account once, a refresh that returns a map has cached
    every listed account under its identifier, named after its project tag
    when it has one and after the listing otherwise, with the owner of its
    owner tag; the walks to the root that follow do not change that. Of
    several tags with the same key the last one counts. *)
Theorem refresh_caches_tagged_accounts (fuel : nat) (m : gmap string AWSOrg.Account) :
  NoDup (map fst (AWSOrg.Accounts dir)) ->
  AWSOrg.getAccountNameByIDAPI dir a fuel = Some (AWSOrg.Value m) ->
  Forall (cachedWithTags dir a m) (AWSOrg.Accounts dir).
Proof.
  intros Hnd. unfold AWSOrg.getAccountNameByIDAPI.
  destruct (AWSOrg.SessionFails dir); [discriminate|].
  destruct (AWSOrg.ingestAccounts dir a fuel ∅ (AWSOrg.Accounts dir))
    as [[m1| |]|] eqn:Hrun; try discriminate.
  destruct (AWSOrg.ListAccountsFails dir); [discriminate|].
  intros H. injection H as <-.
  now apply (ingestAccounts_caches _ _ _ _ Hnd) in Hrun as [Hall _].
Qed.

End AWSTags.

Lemma refresh_caches_tagged_accounts_witness :
  match AWSOrg.getAccountNameByIDAPI taggedOrganization (Examples.orgSource ∅) 3 with
  | Some (AWSOrg.Value m) =>
      match m !! "111" with
      | Some ac => AWSOrg.Name ac = "webshop" /\ AWSOrg.Owner ac = "team-a"
      | None => False
      end
  | _ => False
  end.
Proof.
  destruct (AWSOrg.getAccountNameByIDAPI taggedOrganization (Examples.orgSource ∅) 3)
    as [[m| |]|] eqn:Hrun; try (vm_compute in Hrun; discriminate).
  assert (Hunits : unitsAsAsked taggedOrganization).
  { intros p unitID unitName H. now injection H as <- _. }
  assert (Hnd : NoDup (map fst (AWSOrg.Accounts taggedOrganization))).
  { apply NoDup_singleton. }
  pose proof (refresh_caches_tagged_accounts taggedOrganization Hunits
                (Examples.orgSource ∅) 3 m Hnd Hrun) as Hall.
  apply Forall_cons in Hall as ((ac & Hac & _ & Hname & Howner) & _).
  cbn [fst] in Hac. rewrite Hac. split; [rewrite Hname|rewrite Howner]; reflexivity.
Defined.

(** ** Looking an account up twice *)

Lemma lookupAccount_stable (a : AWSOrg.AWSBilling) (id : string) :
  AWSOrg.lookupAccount (AWSOrg.lookupAccount a id).2 id = AWSOrg.lookupAccount a id
  /\ AWSOrg.accountNameByIDOverride (AWSOrg.lookupAccount a id).2
     = AWSOrg.accountNameByIDOverride a
  /\ forall other,
       other <> id ->
       (AWSOrg.lookupAccount (AWSOrg.lookupAccount a id).2 other).1
       = (AWSOrg.lookupAccount a other).1.
Proof.
  destruct (AWSOrg.lookupAccount a id) as [account a'] eqn:Hlook. cbn [fst snd].
  unfold AWSOrg.lookupAccount in Hlook.
  destruct (AWSOrg.accountNameByIDOverride a !! id) as [val|] eqn:Hval.
  - destruct (AWSOrg.accountNameByIDAPI a) as [m|] eqn:Hapi; cbn [mbind option_bind] in Hlook.
    + destruct (m !! id) as [cached|] eqn:Hcached; injection Hlook as <- <-.
      * unfold AWSOrg.lookupAccount.
        cbn [AWSOrg.accountNameByIDOverride AWSOrg.accountNameByIDAPI mbind option_bind].
        rewrite Hval, Hapi. cbn [mbind option_bind].
        rewrite lookup_insert_eq, insert_insert_eq. split; [reflexivity|].
        split; [reflexivity|]. intros other Hne.
        rewrite lookup_insert_ne by congruence.
        destruct (AWSOrg.accountNameByIDOverride a !! other);
          destruct (m !! other); reflexivity.
      * unfold AWSOrg.lookupAccount. rewrite Hval, Hapi. cbn [mbind option_bind].
        rewrite Hcached. auto.
    + injection Hlook as <- <-. unfold AWSOrg.lookupAccount. rewrite Hval, Hapi. auto.
  - destruct (AWSOrg.accountNameByIDAPI a ≫= (fun m => m !! id)) eqn:Hcached;
      injection Hlook as <- <-; unfold AWSOrg.lookupAccount; rewrite Hval, Hcached; auto.
Qed.

Lemma applyTags_same_tags (a a' : AWSOrg.AWSBilling) (tags : list (string * string)) :
  AWSOrg.OwnerTag a' = AWSOrg.OwnerTag a ->
  AWSOrg.ProjectIDTag a' = AWSOrg.ProjectIDTag a ->
  forall ac, fold_left (AWSOrg.applyTag a') tags ac = fold_left (AWSOrg.applyTag a) tags ac.
Proof.
  intros Howner Hproject. induction tags as [|tag tags IH]; intros ac; [reflexivity|].
  cbn [fold_left]. rewrite IH. unfold AWSOrg.applyTag. now rewrite Howner, Hproject.
Qed.

Lemma getAccountNameByIDAPI_same_tags (dir : AWSOrg.Directory) (a a' : AWSOrg.AWSBilling)
    (fuel : nat) :
  AWSOrg.OwnerTag a' = AWSOrg.OwnerTag a ->
  AWSOrg.ProjectIDTag a' = AWSOrg.ProjectIDTag a ->
  AWSOrg.getAccountNameByIDAPI dir a' fuel = AWSOrg.getAccountNameByIDAPI dir a fuel.
Proof.
  intros Howner Hproject. unfold AWSOrg.getAccountNameByIDAPI.
  destruct (AWSOrg.SessionFails dir); [reflexivity|].
  assert (Hsame : forall accounts m,
            AWSOrg.ingestAccounts dir a' fuel m accounts
            = AWSOrg.ingestAccounts dir a fuel m accounts).
  { induction accounts as [|account rest IH]; intros m; [reflexivity|].
    cbn [AWSOrg.ingestAccounts]. unfold AWSOrg.ingestAccount.
    rewrite (applyTags_same_tags a a') by assumption.
    destruct (AWSOrg.getAccountPath dir fuel _ None m) as [[[[path| |] ac] m1]|];
      try reflexivity; apply IH. }
  now rewrite Hsame.
Qed.

Lemma lookupAccount_keeps (a : AWSOrg.AWSBilling) (id : string) :
  AWSOrg.OwnerTag (AWSOrg.lookupAccount a id).2 = AWSOrg.OwnerTag a
  /\ AWSOrg.ProjectIDTag (AWSOrg.lookupAccount a id).2 = AWSOrg.ProjectIDTag a
  /\ AWSOrg.accountNameByIDAPILastUpdate (AWSOrg.lookupAccount a id).2
     = AWSOrg.accountNameByIDAPILastUpdate a
  /\ (AWSOrg.accountNameByIDAPI (AWSOrg.lookupAccount a id).2 = None
      <-> AWSOrg.accountNameByIDAPI a = None).
Proof.
  unfold AWSOrg.lookupAccount.
  destruct (AWSOrg.accountNameByIDOverride a !! id) as [val|].
  - destruct (AWSOrg.accountNameByIDAPI a) as [m|] eqn:Hapi; cbn [mbind option_bind].
    + destruct (m !! id); cbn [snd AWSOrg.OwnerTag AWSOrg.ProjectIDTag
        AWSOrg.accountNameByIDAPILastUpdate AWSOrg.accountNameByIDAPI];
        rewrite ?Hapi; repeat split; discriminate.
    + cbn [snd]. rewrite Hapi. now repeat split.
  - destruct (AWSOrg.accountNameByIDAPI a ≫= (fun m => m !! id)); cbn [snd]; now repeat split.
Qed.

(** X20. [AccountByID] can be asked again: with the organizations service
    answering as before, a second call for the same account returns the
    same account and leaves the cache as the first call left it, whether or
    not either call refreshes the cache and although the first call may have
    renamed the cached account after its override. *)
Theorem AccountByID_twice (dir : AWSOrg.Directory) (fuel : nat) (a a1 : AWSOrg.AWSBilling)
    (id : string) (account : AWSOrg.Account) :
  AWSOrg.AccountByID dir fuel a id = Some (AWSOrg.Value (account, a1)) ->
  AWSOrg.AccountByID dir fuel a1 id = Some (AWSOrg.Value (account, a1)).
Proof.
  unfold AWSOrg.AccountByID.
  destruct (AWSOrg.refreshAPI dir fuel a) as [[a0| |]|] eqn:Hrefresh; try discriminate.
  intros H. injection H as Hlook.
  destruct (lookupAccount_stable a0 id) as (Hagain & _).
  destruct (lookupAccount_keeps a0 id) as (Howner & Hproject & Htime & Hnil).
  rewrite Hlook in Hagain, Howner, Hproject, Htime, Hnil. cbn [snd] in *.
  assert (Hstay : AWSOrg.refreshAPI dir fuel a1 = Some (AWSOrg.Value a1)
                  \/ exists m, AWSOrg.refreshAPI dir fuel a1
                               = Some (AWSOrg.Value (AWSOrg.set_API a1 m (AWSOrg.Later dir)))
                               /\ AWSOrg.set_API a1 m (AWSOrg.Later dir) = a0).
  { unfold AWSOrg.refreshAPI in *.
    destruct (match AWSOrg.accountNameByIDAPI a with None => true | Some _ => false end
              || (AWSOrg.accountNameByIDAPILastUpdate a <? AWSOrg.Now dir - AWSOrg.Hour))
      eqn:Hcond.
    - destruct (AWSOrg.getAccountNameByIDAPI dir a fuel) as [[m| |]|] eqn:Hget;
        try discriminate; injection Hrefresh as <-.
      + cbn [AWSOrg.set_API AWSOrg.OwnerTag AWSOrg.ProjectIDTag
             AWSOrg.accountNameByIDAPILastUpdate AWSOrg.accountNameByIDAPI] in *.
        rewrite (getAccountNameByIDAPI_same_tags dir a a1 fuel Howner Hproject), Hget.
        destruct (match AWSOrg.accountNameByIDAPI a1 with None => true | Some _ => false end
                  || (AWSOrg.accountNameByIDAPILastUpdate a1 <? AWSOrg.Now dir - AWSOrg.Hour));
          [right|now left].
        exists m. split; [reflexivity|].
        unfold AWSOrg.set_API. rewrite Howner, Hproject. f_equal.
        clear -Hlook. unfold AWSOrg.lookupAccount, AWSOrg.set_API in Hlook.
        cbn [AWSOrg.accountNameByIDOverride AWSOrg.accountNameByIDAPI mbind option_bind
             AWSOrg.OwnerTag AWSOrg.ProjectIDTag AWSOrg.accountNameByIDAPILastUpdate]
          in Hlook.
        destruct (AWSOrg.accountNameByIDOverride a !! id);
          [destruct (m !! id)|destruct (m !! id)]; now injection Hlook as _ <-.
      + rewrite (getAccountNameByIDAPI_same_tags dir a a1 fuel Howner Hproject), Hget.
        destruct (match AWSOrg.accountNameByIDAPI a1 with None => true | Some _ => false end
                  || (AWSOrg.accountNameByIDAPILastUpdate a1 <? AWSOrg.Now dir - AWSOrg.Hour));
          now left.
    - injection Hrefresh as <-. left.
      assert (Hcond1 : match AWSOrg.accountNameByIDAPI a1 with None => true | Some _ => false end
                       || (AWSOrg.accountNameByIDAPILastUpdate a1
                           <? AWSOrg.Now dir - AWSOrg.Hour) = false).
      { rewrite Htime. apply orb_false_iff in Hcond as [Hapi Hold]. rewrite Hold.
        destruct (AWSOrg.accountNameByIDAPI a1) eqn:H1; [reflexivity|].
        rewrite (proj1 Hnil eq_refl) in Hapi. discriminate. }
      now rewrite Hcond1. }
  destruct Hstay as [-> | (m & -> & ->)]; [now rewrite Hagain|now rewrite Hlook].
Qed.

Lemma AccountByID_twice_witness :
  match AWSOrg.AccountByID Examples.organization 3
          (Examples.orgSource {["111" := "acme-dev"]}) "111" with
  | Some (AWSOrg.Value (account, a1)) =>
      AWSOrg.Name account = "acme-dev"
      /\ AWSOrg.AccountByID Examples.organization 3 a1 "111"
         = Some (AWSOrg.Value (account, a1))
  | _ => False
  end.
Proof.
  destruct (AWSOrg.AccountByID Examples.organization 3
              (Examples.orgSource {["111" := "acme-dev"]}) "111")
    as [[[account a1]| |]|] eqn:Hrun; try (vm_compute in Hrun; discriminate).
  split.
  - pose proof Hrun as H. vm_compute in H. now injection H as <- _.
  - exact (AccountByID_twice _ _ _ _ _ _ Hrun).
Defined.

(** ** The slot of a daily report *)

Lemma length_append (s t : string) :
  String.length (s +:+ t) = (String.length s + String.length t)%nat.
Proof.
  induction s as [|c s IH]; [now rewrite append_empty_l|].
  rewrite append_cons. cbn [String.length]. now rewrite IH.
Qed.

Lemma substring_append (s t : string) (n : nat) :
  substring (String.length s) n (s +:+ t) = substring 0 n t.
Proof.
  induction s as [|c s IH]; [now rewrite append_empty_l|].
  rewrite append_cons. cbn [String.length substring]. exact IH.
Qed.

Lemma sequenceChars_of_day (s day : string) :
  String.length day = 2%nat -> sequenceChars (s +:+ day +:+ ".json") = day.
Proof.
  intros Hday. unfold sequenceChars. rewrite !length_append, Hday.
  replace (String.length s + (2 + String.length ".json") - 7)%nat with (String.length s)
    by (cbn [String.length]; lia).
  rewrite substring_append.
  destruct day as [|a [|b [|c day]]]; try discriminate. reflexivity.
Qed.

Lemma Atoi_day (day : Z) :
  1 <= day <= 31 ->
  String.length (fmt_0d 2 day) = 2%nat /\ Atoi (fmt_0d 2 day) = Some day.
Proof.
  intros Hday.
  assert (Hn : exists n : nat, day = Z.of_nat (S n) /\ (n < 31)%nat).
  { exists (Z.to_nat (day - 1)). split; lia. }
  destruct Hn as (n & -> & Hn).
  do 31 (destruct n as [|n]; [vm_compute; split; reflexivity|]). lia.
Qed.

Section DailyReport.

Variable ParseFloat : string -> option Q.
Variable env : GCP.Env.

(** X21. The report of a day lands in the slot of that day: for an object
    named with the two digits of a day of the month before the extension
    .json and at least one byte before them, whose hash differs from the one
    cached in the slot of the day and whose content decodes,
    [getReportFile] stores the reduced elements and the new hash in that
    slot and changes nothing else. *)
Theorem getReportFile_day_slot (g : GCP.GCPBilling) (o : GCP.ObjectAttrs) (s : string)
    (day : Z) (elements : list GCP.gcpBillingElement) :
  1 <= day <= 31 ->
  s <> EmptyString ->
  GCP.Name o = s +:+ fmt_0d 2 day +:+ ".json" ->
  GCP.Hash (GCP.Reports g !!! Z.to_nat (day - 1)) <> GCP.MD5 o ->
  GCP.ReadObject env (GCP.Name o) (GCP.Elements (GCP.Reports g !!! Z.to_nat (day - 1)))
    = GCP.Decoded elements ->
  GCP.getReportFile ParseFloat env g o
  = Returns (GCP.set_Reports g
               (<[Z.to_nat (day - 1) :=
                    {| GCP.Elements :=
                         GCP.reduceElementsByProjectIDServiceCurrency ParseFloat elements;
                       GCP.Hash := GCP.MD5 o |}]> (GCP.Reports g))).
Proof.
  intros Hday Hs Hname Hhash Hread. destruct (Atoi_day day Hday) as [Hlen Hatoi].
  unfold GCP.getReportFile.
  assert (Hlong : (String.length (GCP.Name o) <? 8)%nat = false).
  { rewrite Hname, !length_append, Hlen. apply Nat.ltb_ge.
    destruct s; [congruence|]. cbn [String.length]. lia. }
  rewrite Hlong.
  change (substring (String.length (GCP.Name o) - 7) 2 (GCP.Name o))
    with (sequenceChars (GCP.Name o)).
  rewrite Hname at 1. rewrite sequenceChars_of_day, Hatoi by exact Hlen.
  assert (Hrange : (0 <=? day - 1) && (day - 1 <? Z.of_nat GCP.ReportsPerMonth) = true).
  { apply andb_true_iff. split; [apply Z.leb_le; lia|apply Z.ltb_lt].
    unfold GCP.ReportsPerMonth. lia. }
  rewrite Hrange, bool_decide_eq_false_2 by exact Hhash.
  now rewrite Hread.
Qed.

End DailyReport.

Lemma getReportFile_day_slot_witness :
  match GCP.getReportFile ParseDecimal (Examples.gcpEnv []) Examples.gcpSource
          (Examples.gcpObject "prefix-2017-01-17.json" [Byte.x4a]) with
  | Returns g' =>
      GCP.Hash (GCP.Reports g' !!! 16%nat) = Some [Byte.x4a]
      /\ List.length (GCP.Elements (GCP.Reports g' !!! 16%nat)) = 1%nat
  | Panics => False
  end.
Proof.
  rewrite (getReportFile_day_slot ParseDecimal (Examples.gcpEnv []) Examples.gcpSource
             (Examples.gcpObject "prefix-2017-01-17.json" [Byte.x4a]) "prefix-2017-01-" 17
             [Examples.measured [Examples.measurement "com.google.cloud/services/compute-engine/Vm"]]).
  - split; reflexivity.
  - lia.
  - discriminate.
  - reflexivity.
  - discriminate.
  - reflexivity.
Defined.

(** A name of seven bytes holds the two digits of a day and the extension,
    but [getReportFile] takes it for too short. *)
Lemma getReportFile_seven_bytes (g : GCP.GCPBilling) :
  sequenceChars "17.json" = "17"
  /\ GCP.getReportFile ParseDecimal (Examples.gcpEnv []) g
       (Examples.gcpObject "17.json" [Byte.x4a]) = Returns g.
Proof. split; reflexivity. Qed.

(** ** The report that [Query] selects is the one of the latest month *)

Lemma ascii_compare_refl (c : ascii) : Ascii.compare c c = Eq.
Proof. unfold Ascii.compare. apply N.compare_refl. Qed.

Lemma compare_append_prefix (p a b : string) :
  String.compare (p +:+ a) (p +:+ b) = String.compare a b.
Proof.
  induction p as [|c p IH]; [now rewrite !append_empty_l|].
  rewrite !append_cons. cbn [String.compare]. now rewrite ascii_compare_refl.
Qed.

Lemma compare_append_same_length (a : string) :
  forall b x y,
    String.length a = String.length b ->
    String.compare (a +:+ x) (b +:+ y)
    = match String.compare a b with
      | Eq => String.compare x y
      | c => c
      end.
Proof.
  induction a as [|c a IH]; intros [|d b] x y Hlen; try discriminate.
  - now rewrite !append_empty_l.
  - rewrite !append_cons. cbn [String.compare].
    destruct (Ascii.compare c d); try reflexivity.
    apply IH. now injection Hlen.
Qed.

Section Printed.

Variable w : nat.
Variable lo : Z.
Variable n : nat.
Hypothesis Hchecked : printsIncreasing w lo n = true.

Lemma printed_successor (k : Z) :
  lo <= k < lo + Z.of_nat n ->
  String.length (fmt_0d w k) = w
  /\ String.length (fmt_0d w (k + 1)) = w
  /\ String.compare (fmt_0d w k) (fmt_0d w (k + 1)) = Lt.
Proof.
  intros Hk. unfold printsIncreasing in Hchecked. rewrite forallb_forall in Hchecked.
  specialize (Hchecked (Z.to_nat (k - lo))). rewrite in_seq in Hchecked.
  replace (lo + Z.of_nat (Z.to_nat (k - lo))) with k in Hchecked by lia.
  cbv zeta in Hchecked.
  assert (Hin : (0 <= Z.to_nat (k - lo) < 0 + n)%nat) by lia.
  apply Hchecked, andb_true_iff in Hin as [Hlens Hlt].
  apply andb_true_iff in Hlens as [H1 H2].
  apply Nat.eqb_eq in H1, H2. repeat split; try assumption.
  now destruct (String.compare _ _).
Qed.

Lemma printed_length (k : Z) :
  lo <= k <= lo + Z.of_nat n -> (0 < n)%nat -> String.length (fmt_0d w k) = w.
Proof.
  intros Hk Hn. destruct (decide (k = lo + Z.of_nat n)) as [->|Hne].
  - destruct (printed_successor (lo + Z.of_nat n - 1)) as (_ & H & _); [lia|].
    now replace (lo + Z.of_nat n - 1 + 1) with (lo + Z.of_nat n) in H by lia.
  - destruct (printed_successor k) as (H & _); [lia|exact H].
Qed.

Lemma printed_lt (gap : nat) (k : Z) :
  lo <= k -> k + Z.of_nat (S gap) <= lo + Z.of_nat n ->
  String.compare (fmt_0d w k) (fmt_0d w (k + Z.of_nat (S gap))) = Lt.
Proof.
  induction gap as [|gap IH]; intros Hlo Hhi.
  - apply printed_successor. lia.
  - apply string_compare_lt_trans with (fmt_0d w (k + Z.of_nat (S gap))).
    + apply IH; lia.
    + replace (k + Z.of_nat (S (S gap))) with (k + Z.of_nat (S gap) + 1) by lia.
      apply printed_successor. lia.
Qed.

Lemma printed_compare (a b : Z) :
  lo <= a <= lo + Z.of_nat n -> lo <= b <= lo + Z.of_nat n ->
  String.compare (fmt_0d w a) (fmt_0d w b) = (a ?= b).
Proof.
  intros Ha Hb.
  assert (Hlt : forall x y, lo <= x -> x < y -> y <= lo + Z.of_nat n ->
                            String.compare (fmt_0d w x) (fmt_0d w y) = Lt).
  { intros x y Hx Hxy Hy.
    replace y with (x + Z.of_nat (S (Z.to_nat (y - x - 1)))) by lia.
    apply printed_lt; lia. }
  destruct (Z.compare_spec a b) as [->|Hab|Hab].
  - apply string_compare_refl.
  - apply Hlt; lia.
  - apply string_compare_flip. apply Hlt; lia.
Qed.

End Printed.

Lemma years_print_increasing : printsIncreasing 4 1000 (Z.to_nat 8999) = true.
Proof. vm_compute. reflexivity. Qed.

Lemma months_print_increasing : printsIncreasing 2 1 (Z.to_nat 11) = true.
Proof. vm_compute. reflexivity. Qed.

Lemma monthKey_compare (prefix : string) (y1 m1 y2 m2 : Z) :
  1000 <= y1 <= 9999 -> 1 <= m1 <= 12 -> 1000 <= y2 <= 9999 -> 1 <= m2 <= 12 ->
  String.compare (monthKey prefix y1 m1) (monthKey prefix y2 m2)
  = (GCP.month_ordinal y1 m1 ?= GCP.month_ordinal y2 m2).
Proof.
  intros Hy1 Hm1 Hy2 Hm2. unfold monthKey. rewrite compare_append_prefix.
  pose proof (printed_compare 4 1000 _ years_print_increasing y1 y2) as Hyears.
  pose proof (printed_compare 2 1 _ months_print_increasing m1 m2) as Hmonths.
  pose proof (printed_length 4 1000 _ years_print_increasing y1) as Hlen1.
  pose proof (printed_length 4 1000 _ years_print_increasing y2) as Hlen2.
  pose proof (printed_length 2 1 _ months_print_increasing m1) as Hlen3.
  pose proof (printed_length 2 1 _ months_print_increasing m2) as Hlen4.
  rewrite compare_append_same_length by (rewrite Hlen1, Hlen2; lia).
  rewrite Hyears by lia.
  rewrite (compare_append_same_length "-") by reflexivity.
  cbn [String.compare]. rewrite ascii_compare_refl.
  rewrite compare_append_same_length by (rewrite Hlen3, Hlen4; lia).
  rewrite Hmonths by lia. rewrite string_compare_refl.
  unfold GCP.month_ordinal.
  destruct (Z.compare_spec y1 y2) as [->|Hy|Hy];
    destruct (Z.compare_spec m1 m2) as [->|Hm|Hm]; symmetry;
    first [apply Z.compare_eq_iff; lia | apply Z.compare_lt_iff; lia
          | apply Z.compare_gt_iff; lia].
Qed.

Lemma monthKey_long (prefix : string) (entry : Z * Z * string) :
  calendarMonth entry -> keyTooShort prefix (monthlyReport prefix entry) = false.
Proof.
  intros [Hy Hm]. unfold keyTooShort, monthlyReport, monthKey. cbn [AWS.Key].
  pose proof (printed_length 4 1000 _ years_print_increasing entry.1.1) as Hlen1.
  pose proof (printed_length 2 1 _ months_print_increasing entry.1.2) as Hlen2.
  rewrite !length_append, Hlen1, Hlen2 by lia.
  apply Nat.ltb_ge. lia.
Qed.

(** X22. When the listing holds the reports of calendar months under keys of
    the form prefix, year-month, .csv, the object that [Query] selects is the
    report of the latest month listed. *)
Theorem selectObject_latest_month (prefix : string) (entries : list (Z * Z * string)) :
  Forall calendarMonth entries ->
  entries <> [] ->
  exists latest,
    AWS.selectObject prefix None (map (monthlyReport prefix) entries)
    = Returns (Some (monthlyReport prefix latest))
    /\ In latest entries
    /\ forall entry, In entry entries ->
         GCP.month_ordinal entry.1.1 entry.1.2 <= GCP.month_ordinal latest.1.1 latest.1.2.
Proof.
  intros Hall Hne.
  destruct (AWS.selectObject prefix None (map (monthlyReport prefix) entries))
    as [[chosen|]|] eqn:Hrun.
  - apply selectObject_greatest_from in Hrun as ([Hin|Hin] & Hgreatest & _); [discriminate|].
    apply in_map_iff in Hin as (latest & <- & Hlatest).
    exists latest. split; [reflexivity|]. split; [exact Hlatest|].
    intros entry Hentry.
    specialize (Hgreatest (monthlyReport prefix entry) (in_map _ _ _ Hentry)).
    rewrite Forall_forall in Hall.
    destruct (Hall entry (proj2 (list_elem_of_In _ _) Hentry)) as [Hy Hm].
    destruct (Hall latest (proj2 (list_elem_of_In _ _) Hlatest)) as [Hy' Hm'].
    unfold keyLe, monthlyReport in Hgreatest. cbn [AWS.Key] in Hgreatest.
    rewrite monthKey_compare in Hgreatest by assumption.
    apply Z.compare_le_iff in Hgreatest. exact Hgreatest.
  - apply selectObject_none in Hrun as (_ & Hnil).
    destruct entries; [congruence|discriminate].
  - exfalso. revert Hrun. apply selectObject_long_keys.
    apply Forall_forall. intros object Hin.
    apply list_elem_of_In, in_map_iff in Hin as (entry & <- & Hentry).
    apply monthKey_long. rewrite Forall_forall in Hall. apply Hall.
    now apply list_elem_of_In.
Qed.

Lemma selectObject_latest_month_witness :
  AWS.selectObject "999-aws-billing-csv-" None
    (map (monthlyReport "999-aws-billing-csv-")
       [ (2016, 12, "a"); (2017, 2, "b"); (2017, 1, "c"); (2016, 11, "d") ])
  = Returns (Some (monthlyReport "999-aws-billing-csv-" (2017, 2, "b"))).
Proof.
  destruct (selectObject_latest_month "999-aws-billing-csv-"
              [ (2016, 12, "a"); (2017, 2, "b"); (2017, 1, "c"); (2016, 11, "d") ])
    as (latest & Hrun & Hin & Hall).
  - repeat (apply Forall_cons; split; [unfold calendarMonth; cbn [fst snd]; lia|]).
    apply Forall_nil_2.
  - discriminate.
  - rewrite Hrun. do 2 f_equal.
    specialize (Hall (2017, 2, "b") (or_intror (or_introl eq_refl))).
    destruct Hin as [<-|[<-|[<-|[<-|[]]]]]; try reflexivity;
      vm_compute in Hall; exfalso; now apply Hall.
Defined.
